(** * Outlook AI assistant: boundary detection and draft reconstruction

    A shallow embedding of the task pane logic ([stripSignature],
    [cleanThreadContent], [parseEmailHtml], [captureEmailBody],
    [extractPreservedContent], [addOutlookStyles], [formatBodyForInsert],
    [handleProcess]) and of the saved-prompt manager ([promptManager]),
    followed by the properties established about them.

    JavaScript strings are sequences of UTF-16 code units; they are
    modelled as lists of [N].  The host primitives the program calls
    (String.prototype.trim / endsWith / includes / split / replace,
    RegExp matching, DOM traversal, JSON.parse) are modelled by executable
    definitions following ECMA-262 and the DOM/HTML standards. *)

From Stdlib Require Import NArith Bool Ascii String List Lia.
From stdpp Require Import base option list gmap.
Import ListNotations.

Local Open Scope nat_scope.

(* ===================================================================== *)
(** ** JavaScript strings *)
(* ===================================================================== *)

Definition jsstring := list N.

(** An ASCII literal as a JavaScript string. *)
Definition js (s : string) : jsstring :=
  map N_of_ascii (list_ascii_of_string s).

(** "\n" *)
Definition nl : jsstring := [10%N].
(** The double quote character. *)
Definition dq : jsstring := [34%N].

Definition str_eqb (a b : jsstring) : bool := bool_decide (a = b).

(** WhiteSpace and LineTerminator code points of ECMA-262: the set that
    [String.prototype.trim] strips and that [\s] matches. *)
Definition is_ws (c : N) : bool :=
  ((9 <=? c) && (c <=? 13) || (c =? 32) || (c =? 160) || (c =? 5760)
   || (8192 <=? c) && (c <=? 8202) || (c =? 8232) || (c =? 8233)
   || (c =? 8239) || (c =? 8287) || (c =? 12288) || (c =? 65279))%N.

(** LineTerminator: what [.] refuses and what multiline [^] / [$] look at. *)
Definition is_line_terminator (c : N) : bool :=
  ((c =? 10) || (c =? 13) || (c =? 8232) || (c =? 8233))%N.

Fixpoint trimStart (s : jsstring) : jsstring :=
  match s with
  | c :: s' => if is_ws c then trimStart s' else s
  | [] => []
  end.

Definition trimEnd (s : jsstring) : jsstring := rev (trimStart (rev s)).

(** [s.trim()] *)
Definition trim (s : jsstring) : jsstring := trimEnd (trimStart s).

Fixpoint startsWith (s p : jsstring) {struct p} : bool :=
  match p, s with
  | [], _ => true
  | c :: p', d :: s' => (c =? d)%N && startsWith s' p'
  | _ :: _, [] => false
  end.

(** [s.endsWith(p)] *)
Definition endsWith (s p : jsstring) : bool :=
  (length p <=? length s) && str_eqb (skipn (length s - length p) s) p.

(** [s.includes(p)] *)
Fixpoint includes (s p : jsstring) : bool :=
  startsWith s p || match s with [] => false | _ :: s' => includes s' p end.

(** [s.substring(0, n)] for [n <= s.length] *)
Definition substring0 (s : jsstring) (n : nat) : jsstring := firstn n s.

(** [s.split('\n')]: always at least one piece. *)
Fixpoint split_nl (s : jsstring) : list jsstring :=
  match s with
  | [] => [[]]
  | c :: s' =>
      if (c =? 10)%N then [] :: split_nl s'
      else match split_nl s' with
           | l :: ls => (c :: l) :: ls
           | [] => [[c]]
           end
  end.

(** [a.join(sep)] *)
Fixpoint join (sep : jsstring) (a : list jsstring) : jsstring :=
  match a with
  | [] => []
  | [x] => x
  | x :: a' => x ++ sep ++ join sep a'
  end.

(* ===================================================================== *)
(** ** Regular expressions (ECMA-262 backtracking semantics) *)
(* ===================================================================== *)

Module Regex.

(** The constructs the program's patterns use.  A look-behind is only ever
    applied to a single character in the source (a negative look-behind on
    an asterisk or on an underscore), so the model carries a one-character
    look-behind. *)
Inductive regex : Type :=
| Eps
| Chr (p : N -> bool)
| Seq (a b : regex)
| Alt (a b : regex)
| Rep (greedy : bool) (min : nat) (max : option nat) (a : regex)
| Group (a : regex)
| LookAhead (positive : bool) (a : regex)
| LookBehind1 (positive : bool) (p : N -> bool)
| Bol (multiline : bool)
| Eol (multiline : bool).

(** A match state: the current index and the span of capture group 1. *)
Record mstate := MState { pos : nat; cap : option (nat * nat) }.

(** RepeatMatcher: [step] runs the quantified atom once.  An iteration
    that consumes nothing once the minimum is reached is rejected, so every
    recursive call lowers [min] or advances the position. *)
Fixpoint rep_loop (step : mstate -> list mstate) (fuel : nat)
    (greedy : bool) (min : nat) (max : option nat) (st : mstate)
    : list mstate :=
  match fuel with
  | 0 => []
  | S fuel' =>
      match max with
      | Some 0 => [st]
      | _ =>
          let iter :=
            flat_map (fun st' =>
                        if (min =? 0) && (pos st' =? pos st) then []
                        else rep_loop step fuel' greedy (pred min)
                               (pred <$> max) st')
                     (step st) in
          if negb (min =? 0) then iter
          else if greedy then iter ++ [st] else st :: iter
      end
  end.

Definition char_at (s : jsstring) (i : nat) : option N := nth_error s i.

(** All the ways [r] matches [s] from state [st], in the order the
    backtracking matcher of the standard tries them. *)
Fixpoint run (r : regex) (s : jsstring) (st : mstate) : list mstate :=
  match r with
  | Eps => [st]
  | Chr p =>
      match char_at s (pos st) with
      | Some c => if p c then [MState (S (pos st)) (cap st)] else []
      | None => []
      end
  | Seq a b => flat_map (run b s) (run a s st)
  | Alt a b => run a s st ++ run b s st
  | Rep g mn mx a =>
      rep_loop (run a s) (S (mn + length s)) g mn mx st
  | Group a =>
      map (fun st' => MState (pos st') (Some (pos st, pos st'))) (run a s st)
  | LookAhead true a =>
      match run a s st with
      | [] => []
      | st' :: _ => [MState (pos st) (cap st')]
      end
  | LookAhead false a =>
      match run a s st with
      | [] => [st]
      | _ :: _ => []
      end
  | LookBehind1 b p =>
      let seen :=
        match pos st with
        | 0 => false
        | S i => match char_at s i with Some c => p c | None => false end
        end in
      if Bool.eqb seen b then [st] else []
  | Bol ml =>
      match pos st with
      | 0 => [st]
      | S i =>
          match char_at s i with
          | Some c => if ml && is_line_terminator c then [st] else []
          | None => []
          end
      end
  | Eol ml =>
      match char_at s (pos st) with
      | None => [st]
      | Some c => if ml && is_line_terminator c then [st] else []
      end
  end.

(** The match found when the matcher is started at index [i]. *)
Definition match_at (r : regex) (s : jsstring) (i : nat) : option mstate :=
  head (run r s (MState i None)).

(** RegExpBuiltinExec: try index [i], then [i+1], ... up to [i+n]. *)
Fixpoint search (r : regex) (s : jsstring) (i n : nat)
    : option (nat * mstate) :=
  match match_at r s i with
  | Some st => Some (i, st)
  | None =>
      match n with
      | 0 => None
      | S n' => search r s (S i) n'
      end
  end.

(** [r.exec(s)] with [lastIndex = last]. *)
Definition exec_from (r : regex) (s : jsstring) (last : nat)
    : option (nat * mstate) :=
  if length s <? last then None else search r s last (length s - last).

Definition exec (r : regex) (s : jsstring) : option (nat * mstate) :=
  exec_from r s 0.

(** [r.test(s)] *)
Definition test (r : regex) (s : jsstring) : bool :=
  match exec r s with Some _ => true | None => false end.

(** Text of capture group 1 ([undefined] reads as the empty string in a
    replacement). *)
Definition group1 (s : jsstring) (st : mstate) : jsstring :=
  match cap st with
  | Some (a, b) => firstn (b - a) (skipn a s)
  | None => []
  end.

(** Replacement templates: literal text and [$1]. *)
Inductive rpiece := RLit (t : jsstring) | RGroup1.

Definition expand (repl : list rpiece) (s : jsstring) (st : mstate)
    : jsstring :=
  flat_map (fun p => match p with RLit t => t | RGroup1 => group1 s st end)
           repl.

(** [s.replace(r, repl)] for a pattern without the [g] flag. *)
Definition replace (r : regex) (repl : list rpiece) (s : jsstring)
    : jsstring :=
  match exec r s with
  | None => s
  | Some (i, st) => firstn i s ++ expand repl s st ++ skipn (pos st) s
  end.

(** The loop of [RegExp.prototype[Symbol.replace]] for a [g] pattern:
    [last] is [lastIndex], [copied] is nextSourcePosition. *)
Fixpoint replace_loop (r : regex) (repl : list rpiece) (s : jsstring)
    (fuel last copied : nat) (acc : jsstring) : jsstring :=
  match fuel with
  | 0 => acc ++ skipn copied s
  | S fuel' =>
      match exec_from r s last with
      | None => acc ++ skipn copied s
      | Some (i, st) =>
          let e := pos st in
          let last' := if e =? i then S e else e in
          if copied <=? i then
            replace_loop r repl s fuel' last' e
              (acc ++ firstn (i - copied) (skipn copied s) ++ expand repl s st)
          else
            replace_loop r repl s fuel' last' copied acc
      end
  end.

(** [s.replace(r, repl)] for a pattern with the [g] flag. *)
Definition replace_all (r : regex) (repl : list rpiece) (s : jsstring)
    : jsstring :=
  replace_loop r repl s (S (S (length s))) 0 0 [].

(** *** Pattern syntax *)

(** Canonicalize of a non-unicode, ignore-case pattern: the upper-case
    image of a single code unit.  It is exact on U+0000..U+00FF; code units
    above are left alone (none of them folds onto a Latin-1 character that
    Canonicalize would accept, and every character written in the
    program's patterns is Latin-1). *)
Definition canon (c : N) : N :=
  (if (97 <=? c) && (c <=? 122) then c - 32
   else if (224 <=? c) && (c <=? 254) && negb (c =? 247) then c - 32
   else if c =? 255 then 376
   else if c =? 181 then 924
   else c)%N.

Definition chr (c : N) : regex := Chr (N.eqb c).
Definition chri (c : N) : regex := Chr (fun x => (canon x =? canon c)%N).

(** A literal, and a literal under the [i] flag. *)
Definition lit (t : jsstring) : regex := fold_right (fun c r => Seq (chr c) r) Eps t.
Definition liti (t : jsstring) : regex := fold_right (fun c r => Seq (chri c) r) Eps t.

(** A character class given by its ranges; [clsi] is the class under [i]. *)
Definition in_ranges (l : list (N * N)) (x : N) : bool :=
  existsb (fun '(a, b) => (a <=? x) && (x <=? b))%N l.
Definition range_members (ab : N * N) : list N :=
  map (fun k => (fst ab + N.of_nat k)%N)
      (seq 0 (S (N.to_nat (snd ab - fst ab)))).
Definition in_ranges_i (l : list (N * N)) (x : N) : bool :=
  existsb (fun a => (canon a =? canon x)%N) (flat_map range_members l).
Definition cls (l : list (N * N)) : regex := Chr (in_ranges l).
Definition clsi (l : list (N * N)) : regex := Chr (in_ranges_i l).
Definition one (c : string) : N * N :=
  match c with
  | String a _ => (N_of_ascii a, N_of_ascii a)
  | EmptyString => (0%N, 0%N)
  end.
Definition rng (a b : string) : N * N := (fst (one a), fst (one b)).

(** [[\s\S]], [.], [\s], [\d] *)
Definition any : regex := Chr (fun _ => true).
Definition dot : regex := Chr (fun c => negb (is_line_terminator c)).
Definition ws : regex := Chr is_ws.
Definition digit : regex := cls [rng "0" "9"].

Definition star (a : regex) := Rep true 0 None a.
Definition plus (a : regex) := Rep true 1 None a.
Definition lazy_star (a : regex) := Rep false 0 None a.
Definition lazy_plus (a : regex) := Rep false 1 None a.
Definition at_least (n : nat) (a : regex) := Rep true n None a.
Definition between (n m : nat) (a : regex) := Rep true n (Some m) a.

Fixpoint seqs (l : list regex) : regex :=
  match l with
  | [] => Eps
  | [a] => a
  | a :: l' => Seq a (seqs l')
  end.

End Regex.
Import Regex.

(* ===================================================================== *)
(** ** Signature detector: [stripSignature] *)
(* ===================================================================== *)

(** One entry [/\nPHRASE[\s\S]*/i] of [signaturePatterns]. *)
Definition closing (phrase : jsstring) : regex :=
  Seq (liti (nl ++ phrase)) (star any).

(** [/\n--\s*\n[\s\S]*/] *)
Definition dashSeparator : regex :=
  seqs [lit (nl ++ js "--"); star ws; lit nl; star any].

Definition signaturePatterns : list regex :=
  [ dashSeparator;
    closing (js "Best regards,");
    closing (js "Kind regards,");
    closing (js "Regards,");
    closing (js "Sincerely,");
    closing (js "Thanks,");
    closing (js "Thank you,");
    closing (js "Cheers,");
    closing (js "Cordialement,");
    closing (js "Cdlt,");
    (* Mit freundlichen Gruessen, with u-umlaut (252) and sharp s (223) *)
    closing (js "Mit freundlichen Gr" ++ [252; 223]%N ++ js "en,");
    closing (js "MfG,");
    closing (js "Sent from my iPhone");
    closing (js "Sent from my Android");
    closing (js "Get Outlook for");
    (* Envoye de mon, with e-acute (233) *)
    closing (js "Envoy" ++ [233%N] ++ js " de mon");
    closing (js "Verzonden vanaf") ].

(** [/\+?[\d\s\-\(\).]{8,20}/] *)
Definition phonePattern : regex :=
  Seq (Rep true 0 (Some 1) (chr (fst (one "+"))))
      (between 8 20
         (Chr (fun c => in_ranges [rng "0" "9"; one "-"; one "("; one ")"; one "."] c
                        || is_ws c))).

(** [/[a-z0-9._%+-]+@[a-z0-9.-]+\.[a-z]{2,}/i] *)
Definition emailPattern : regex :=
  seqs [ plus (clsi [rng "a" "z"; rng "0" "9"; one "."; one "_"; one "%";
                     one "+"; one "-"]);
         chri (fst (one "@"));
         plus (clsi [rng "a" "z"; rng "0" "9"; one "."; one "-"]);
         chri (fst (one "."));
         at_least 2 (clsi [rng "a" "z"]) ].

(** [/www\.|http/i] *)
Definition urlPattern : regex := Alt (liti (js "www.")) (liti (js "http")).

Definition hasContactInfo (line : jsstring) : bool :=
  test phonePattern line || test emailPattern line || test urlPattern line.

(** Strategy 3: the indices [lines.length - 1] down to
    [max(0, lines.length - 8)]; the first one whose trimmed line carries
    contact information and satisfies [i > lines.length - 10] is the cut. *)
Definition structuralCut (lines : list jsstring) : option nat :=
  let len := length lines in
  let lo := len - 8 in
  find (fun i => hasContactInfo (trim (nth i lines []))
                 && (len <? i + 10))
       (rev (seq lo (len - lo))).

Definition stripSignature (text : jsstring) (template : option jsstring)
    : jsstring :=
  let result := trim text in
  let byTemplate :=
    match template with
    | Some t =>
        if negb (str_eqb t []) && (5 <? length t) && endsWith result t
        then Some (trim (substring0 result (length result - length t)))
        else None
    | None => None
    end in
  match byTemplate with
  | Some r => r
  | None =>
      match find (fun pattern => test pattern result) signaturePatterns with
      | Some pattern => trim (replace pattern [] result)
      | None =>
          let lines := split_nl result in
          if 3 <? length lines then
            match structuralCut lines with
            | Some i => trim (join nl (firstn i lines))
            | None => result
            end
          else result
      end
  end.

(* ===================================================================== *)
(** ** Thread text cleaner: [cleanThreadContent] *)
(* ===================================================================== *)

(** [/FIRST[\s\S]*?(?=NEXT)/gi], where FIRST is given as a pattern. *)
Definition rangeOf (first : regex) (next : jsstring) : regex :=
  seqs [first; lazy_star any; LookAhead true (liti next)].

(** [/LABEL\s*:/i] *)
Definition spacedLabel (label : jsstring) : regex :=
  seqs [liti label; star ws; chri (fst (one ":"))].

Definition e_acute : jsstring := [233%N].
Definition A_grave : jsstring := [192%N].

Definition rangePatterns : list (regex * jsstring) :=
  [ (rangeOf (liti (js "From:")) (js "Sent:"), js "From:" ++ nl);
    (rangeOf (liti (js "Sent:")) (js "To:"), js "Sent:" ++ nl);
    (rangeOf (liti (js "To:")) (js "Subject:"), js "To:" ++ nl);
    (rangeOf (spacedLabel (js "De")) (js "Envoy" ++ e_acute), js "De:" ++ nl);
    (rangeOf (spacedLabel (js "Envoy" ++ e_acute)) A_grave,
     js "Envoy" ++ e_acute ++ js ":" ++ nl);
    (rangeOf (spacedLabel A_grave) (js "Objet"), A_grave ++ js ":" ++ nl);
    (rangeOf (liti (js "Von:")) (js "Gesendet"), js "Von:" ++ nl);
    (rangeOf (liti (js "Gesendet:")) (js "An"), js "Gesendet:" ++ nl);
    (rangeOf (liti (js "An:")) (js "Betreff"), js "An:" ++ nl) ].

(** [/^LABEL.*$/gm] and [/^LABEL.*$/gim] *)
Definition headerLine (label : jsstring) : regex :=
  seqs [Bol true; lit label; star dot; Eol true].
Definition bannerLine (label : jsstring) : regex :=
  seqs [Bol true; liti label; star dot; Eol true].

(** [/^WORD\s+.*\s+VERB\s*:\s*$/gim]; for "wrote:" the colon follows the
    verb directly. *)
Definition attribution (word : jsstring) (verb : regex) : regex :=
  seqs [Bol true; liti word; plus ws; star dot; plus ws; verb; star ws;
        Eol true].

Definition alnum : list (N * N) := [rng "a" "z"; rng "A" "Z"; rng "0" "9"].

Definition headerPatterns : list regex :=
  [ headerLine (js "Cc:");
    headerLine (js "Bcc:");
    headerLine (js "Date:");
    headerLine (js "Importance:");
    (* /<[a-zA-Z0-9._%+-]+@[a-zA-Z0-9.-]+\.[a-zA-Z]{2,}>/g *)
    seqs [ chr (fst (one "<"));
           plus (cls (alnum ++ [one "."; one "_"; one "%"; one "+"; one "-"]));
           chr (fst (one "@"));
           plus (cls (alnum ++ [one "."; one "-"]));
           chr (fst (one "."));
           at_least 2 (cls [rng "a" "z"; rng "A" "Z"]);
           chr (fst (one ">")) ];
    attribution (js "On") (liti (js "wrote:"));
    attribution (js "Le")
      (seqs [liti (js "a " ++ e_acute ++ js "crit"); star ws;
             chri (fst (one ":"))]);
    attribution (js "Am")
      (seqs [liti (js "schrieb"); star ws; chri (fst (one ":"))]);
    (* /^[-_]{3,}.*$/gm *)
    seqs [Bol true; at_least 3 (cls [one "-"; one "_"]); star dot; Eol true];
    bannerLine (js "Original Message");
    bannerLine (js "Message d'origine");
    bannerLine (js "Forwarded message") ].

(** [/\n{3,}/g] *)
Definition blankRun : regex := at_least 3 (chr 10%N).

Definition cleanThreadContent (text : jsstring) : jsstring :=
  match text with
  | [] => []
  | _ =>
      let result :=
        fold_left (fun r '(pattern, replacement) =>
                     replace_all pattern [RLit replacement] r)
                  rangePatterns text in
      let result :=
        fold_left (fun r pattern => replace_all pattern [] r)
                  headerPatterns result in
      let result := replace_all blankRun [RLit (nl ++ nl)] result in
      let result := stripSignature result None in
      trim result
  end.

(* ===================================================================== *)
(** ** The compose document *)
(* ===================================================================== *)

(** The tree the host builds when the markup is assigned to
    [temp.innerHTML]: the functions below start from the children of
    [temp].  Element names are the lower-case names the HTML parser
    produces. *)
#[warnings="-register-all"] Inductive node : Type :=
| Text (data : jsstring)
| Comment (data : jsstring)
| Elem (tag : jsstring) (attrs : list (jsstring * jsstring))
       (children : list node).

(** The text a node contributes to its ancestors' [textContent]. *)
Fixpoint nodeText (n : node) : jsstring :=
  match n with
  | Text d => d
  | Comment _ => []
  | Elem _ _ cs => flat_map nodeText cs
  end.

(** [el.textContent] of an element with children [cs].  (The source's
    [x.textContent || x.innerText || ''] falls back to [innerText] only
    when the text content is empty, and a detached element with no text
    has an empty [innerText] too.) *)
Definition textContent (cs : list node) : jsstring := flat_map nodeText cs.

(** A node of the tree under [temp] is referred to by the child indices
    leading to it, nearest first: [i :: q] is child [i] of the node [q],
    and [[]] is [temp] itself. *)
Definition path := list nat.

Fixpoint elementsOf (p : path) (n : node) : list (path * node) :=
  match n with
  | Elem _ _ cs =>
      (p, n) ::
      (fix go (i : nat) (l : list node) : list (path * node) :=
         match l with
         | [] => []
         | c :: l' => elementsOf (i :: p) c ++ go (S i) l'
         end) 0 cs
  | _ => []
  end.

Fixpoint elementsIn (p : path) (i : nat) (l : list node)
    : list (path * node) :=
  match l with
  | [] => []
  | c :: l' => elementsOf (i :: p) c ++ elementsIn p (S i) l'
  end.

(** The element descendants of [temp], in document order. *)
Definition descendants (temp : list node) : list (path * node) :=
  elementsIn [] 0 temp.

(** The selectors the program uses: [#id], [.class], [tag],
    [tag[attr="value"]] and [[attr]]. *)
Inductive selector :=
| ById (id : jsstring)
| ByClass (name : jsstring)
| ByTag (tag : jsstring)
| ByTagAttr (tag attr value : jsstring)
| ByAttr (attr : jsstring).

Definition getAttribute (attrs : list (jsstring * jsstring)) (name : jsstring)
    : option jsstring :=
  snd <$> find (fun kv => str_eqb (fst kv) name) attrs.

Definition is_ascii_ws (c : N) : bool :=
  ((c =? 9) || (c =? 10) || (c =? 12) || (c =? 13) || (c =? 32))%N.

(** The tokens of a [class] attribute. *)
Fixpoint tokens (cur : jsstring) (s : jsstring) : list jsstring :=
  match s with
  | [] => match cur with [] => [] | _ => [rev cur] end
  | c :: s' =>
      if is_ascii_ws c
      then match cur with [] => tokens [] s' | _ => rev cur :: tokens [] s' end
      else tokens (c :: cur) s'
  end.

Definition matches (sel : selector) (n : node) : bool :=
  match n with
  | Elem tag attrs _ =>
      match sel with
      | ById id =>
          match getAttribute attrs (js "id") with
          | Some v => str_eqb v id
          | None => false
          end
      | ByClass name =>
          match getAttribute attrs (js "class") with
          | Some v => existsb (str_eqb name) (tokens [] v)
          | None => false
          end
      | ByTag t => str_eqb tag t
      | ByTagAttr t a v =>
          str_eqb tag t &&
          match getAttribute attrs a with
          | Some w => str_eqb w v
          | None => false
          end
      | ByAttr a =>
          match getAttribute attrs a with Some _ => true | None => false end
      end
  | _ => false
  end.

(** [temp.querySelectorAll('s1, s2, ...')] *)
Definition querySelectorAll (sels : list selector) (temp : list node)
    : list (path * node) :=
  List.filter (fun pn => existsb (fun sel => matches sel (snd pn)) sels)
              (descendants temp).

(** [temp.querySelector(sel)] *)
Definition querySelector (sel : selector) (temp : list node)
    : option (path * node) :=
  head (querySelectorAll [sel] temp).

(** *** Serialisation ([innerHTML]) *)

Definition voidTags : list jsstring :=
  map js ["area"; "base"; "basefont"; "bgsound"; "br"; "col"; "embed";
          "frame"; "hr"; "img"; "input"; "keygen"; "link"; "meta"; "param";
          "source"; "track"; "wbr"]%string.

Definition rawTextTags : list jsstring :=
  map js ["style"; "script"; "xmp"; "iframe"; "noembed"; "noframes";
          "plaintext"; "noscript"]%string.

Definition escapeText (s : jsstring) : jsstring :=
  flat_map (fun c =>
              if (c =? 38)%N then js "&amp;"
              else if (c =? 160)%N then js "&nbsp;"
              else if (c =? 60)%N then js "&lt;"
              else if (c =? 62)%N then js "&gt;"
              else [c]) s.

Definition escapeAttr (s : jsstring) : jsstring :=
  flat_map (fun c =>
              if (c =? 38)%N then js "&amp;"
              else if (c =? 160)%N then js "&nbsp;"
              else if (c =? 34)%N then js "&quot;"
              else [c]) s.

Definition serializeAttrs (attrs : list (jsstring * jsstring)) : jsstring :=
  flat_map (fun kv => js " " ++ fst kv ++ js "=" ++ dq ++ escapeAttr (snd kv) ++ dq)
           attrs.

Fixpoint serializeNode (raw : bool) (n : node) : jsstring :=
  match n with
  | Text d => if raw then d else escapeText d
  | Comment d => js "<!--" ++ d ++ js "-->"
  | Elem tag attrs cs =>
      js "<" ++ tag ++ serializeAttrs attrs ++ js ">" ++
      (if existsb (str_eqb tag) voidTags then []
       else flat_map (serializeNode (existsb (str_eqb tag) rawTextTags)) cs
            ++ js "</" ++ tag ++ js ">")
  end.

(** [el.innerHTML] of an element with children [cs]. *)
Definition innerHTML (cs : list node) : jsstring :=
  flat_map (serializeNode false) cs.

(* ===================================================================== *)
(** ** Thread boundary locator and region segmenter *)
(* ===================================================================== *)

Definition threadMarkers : list selector :=
  [ ById (js "divRplyFwdMsg");
    ById (js "x_divRplyFwdMsg");
    ByClass (js "gmail_quote");
    ById (js "appendonsend");
    ByTagAttr (js "hr") (js "tabindex") (js "-1");
    ByClass (js "ms-MessageBody");
    ByTag (js "blockquote") ].

(** [for (const selector of list) { el = temp.querySelector(selector);
    if (el) break; }] *)
Fixpoint firstSelected (sels : list selector) (temp : list node)
    : option (path * node) :=
  match sels with
  | [] => None
  | sel :: sels' =>
      match querySelector sel temp with
      | Some r => Some r
      | None => firstSelected sels' temp
      end
  end.

(** [/From:.*Sent:/i], [/De\s*:.*Envoye/i], [/Von:.*Gesendet/i] and
    [/---------- Original Message ----------/i] *)
Definition threadTextPatterns : list regex :=
  [ seqs [liti (js "From:"); star dot; liti (js "Sent:")];
    seqs [spacedLabel (js "De"); star dot; liti (js "Envoy" ++ e_acute)];
    seqs [liti (js "Von:"); star dot; liti (js "Gesendet")];
    liti (js "---------- Original Message ----------") ].

Definition looksLikeThreadStart (n : node) : bool :=
  existsb (fun pattern => test pattern (nodeText n)) threadTextPatterns.

(** The marker probe followed by the "From: ... Sent:" probe, shared by
    [parseEmailHtml] and [extractPreservedContent]. *)
Definition findThreadByMarkersOrText (temp : list node)
    : option (path * node) :=
  match firstSelected threadMarkers temp with
  | Some r => Some r
  | None =>
      find (fun pn => looksLikeThreadStart (snd pn))
           (querySelectorAll [ByTag (js "div"); ByTag (js "p");
                              ByTag (js "font")] temp)
  end.

(** [node.contains(threadElement) || node === threadElement] for the
    top-level child [i] of [temp]. *)
Definition containsOrIs (i : nat) (target : path) : bool :=
  match last target with
  | Some k => k =? i
  | None => false
  end.

(** The two loops of [parseEmailHtml]: the children cloned into
    [beforeThread], and the remaining ones cloned into [fullThread]. *)
Fixpoint splitBefore (i : nat) (cs : list node) (target : path)
    : list node * list node :=
  match cs with
  | [] => ([], [])
  | c :: cs' =>
      if containsOrIs i target then ([], cs)
      else let '(before, thread) := splitBefore (S i) cs' target in
           (c :: before, thread)
  end.

Record parsedEmail := ParsedEmail {
  currentMessage : jsstring;
  threadContent : jsstring
}.

Definition locateThreadStart (temp : list node) : option (path * node) :=
  match findThreadByMarkersOrText temp with
  | Some r => Some r
  | None => querySelector (ByTag (js "hr")) temp
  end.

Definition parseEmailHtml (temp : list node) : parsedEmail :=
  match locateThreadStart temp with
  | Some (threadElement, _) =>
      let '(beforeThread, fullThread) := splitBefore 0 temp threadElement in
      ParsedEmail (trim (textContent beforeThread))
                  (trim (textContent fullThread))
  | None => ParsedEmail (trim (textContent temp)) []
  end.

(* ===================================================================== *)
(** ** Session state and the periodic capture: [captureEmailBody] *)
(* ===================================================================== *)

(** The module-level variables of the task pane that the capture writes. *)
Record session := Session {
  currentEmailBody : jsstring;
  currentEmailBodyHtml : jsstring;
  currentThreadContent : jsstring;
  initialBodyTemplate : option jsstring   (* [None] is [null] *)
}.

Definition initialSession : session := Session [] [] [] None.

(** What one call of [body.getAsync] hands to the callback, together with
    the state of the thread toggle at that moment: [document] is the tree
    built from [value]. *)
Record bodyRead := BodyRead {
  succeeded : bool;
  value : jsstring;
  document : list node;
  includeThread : bool
}.

Definition captureEmailBody (st : session) (r : bodyRead) : session :=
  if succeeded r then
    let parsed := parseEmailHtml (document r) in
    let template :=
      match initialBodyTemplate st with
      | None => Some (trim (currentMessage parsed))
      | Some t => Some t
      end in
    Session (stripSignature (currentMessage parsed) template)
            (value r)
            (if includeThread r
             then cleanThreadContent (threadContent parsed)
             else [])
            template
  else st.

(** A session is a sequence of captures. *)
Definition runCaptures (st : session) (reads : list bodyRead) : session :=
  fold_left captureEmailBody reads st.

(* ===================================================================== *)
(** ** Preservable fragments: [extractPreservedContent] *)
(* ===================================================================== *)

(** The walk from the located element up to the child of [temp] that holds
    it:
    [while (n.parentElement && n.parentElement !== temp) {
       if (n.parentElement.parentElement === temp) { n = n.parentElement; break; }
       n = n.parentElement; }] *)
Fixpoint walkUp (p : path) : path :=
  match p with
  | [] => []                       (* [temp] itself: no parent element *)
  | [_] => p                       (* the parent is [temp] *)
  | _ :: (([_]) as q) => q         (* the parent's parent is [temp] *)
  | _ :: ((_ :: _ :: _) as q) => walkUp q
  end.

(** The children of the node at [rp], a path read from [temp] downwards. *)
Fixpoint childrenAlong (cs : list node) (rp : list nat) : list node :=
  match rp with
  | [] => cs
  | i :: rp' =>
      match nth_error cs i with
      | Some (Elem _ _ cs') => childrenAlong cs' rp'
      | _ => []
      end
  end.

(** [node] followed by [node.nextSibling], and so on. *)
Definition fromNodeOn (temp : list node) (p : path) : list node :=
  match p with
  | [] => []
  | i :: q => skipn i (childrenAlong temp (rev q))
  end.

(** The tree after [node.remove()] on the node at index [k] below [rp] and
    on each of its following siblings. *)
Fixpoint truncateAlong (cs : list node) (rp : list nat) (k : nat)
    : list node :=
  match rp with
  | [] => firstn k cs
  | i :: rp' =>
      match nth_error cs i with
      | Some (Elem t a cs') => <[i := Elem t a (truncateAlong cs' rp' k)]> cs
      | _ => cs
      end
  end.

Definition removeFromNodeOn (temp : list node) (p : path) : list node :=
  match p with
  | [] => temp
  | i :: q => truncateAlong temp (rev q) i
  end.

Definition signatureMarkers : list selector :=
  [ ById (js "Signature");
    ByClass (js "Signature");
    ById (js "ms-outlook-mobile-signature");
    ByAttr (js "data-signature") ].

(** [/^PHRASE/im] *)
Definition lineStart (phrase : jsstring) : regex :=
  Seq (Bol true) (liti phrase).

Definition signaturePhrases : list regex :=
  [ lineStart (js "Best regards");
    lineStart (js "Kind regards");
    lineStart (js "Regards");
    lineStart (js "Sincerely");
    lineStart (js "Thanks");
    lineStart (js "Thank you");
    lineStart (js "Cheers");
    lineStart (js "Cordialement");
    lineStart (js "Cdlt");
    lineStart (js "Mit freundlichen Gr" ++ [252; 223]%N ++ js "en");
    lineStart (js "MfG");
    (* /^--\s*$/m *)
    seqs [Bol true; lit (js "--"); star ws; Eol true] ].

(** The three probes for the start of the signature, on the tree that is
    left once the thread has been removed. *)
Definition findSignature (temp : list node) (template : option jsstring)
    : option (path * node) :=
  match firstSelected signatureMarkers temp with
  | Some r => Some r
  | None =>
      let byTemplate :=
        match template with
        | Some t =>
            if negb (str_eqb t []) && (5 <? length t) then
              find (fun pn =>
                      let elText := trim (nodeText (snd pn)) in
                      (5 <? length elText) && includes t elText)
                   (rev (querySelectorAll
                           [ByTag (js "div"); ByTag (js "p");
                            ByTag (js "table")] temp))
            else None
        | None => None
        end in
      match byTemplate with
      | Some r => Some r
      | None =>
          find (fun pn =>
                  existsb (fun phrase => test phrase (nodeText (snd pn)))
                          signaturePhrases)
               (querySelectorAll [ByTag (js "div"); ByTag (js "p")] temp)
      end
  end.

(** The nodes cloned into [threadContainer], and the tree left after they
    have been removed. *)
Definition extractThread (temp : list node) : list node * list node :=
  match findThreadByMarkersOrText temp with
  | Some (threadElement, _) =>
      let startNode := walkUp threadElement in
      (fromNodeOn temp startNode, removeFromNodeOn temp startNode)
  | None => ([], temp)
  end.

(** The nodes cloned into [sigContainer]. *)
Definition extractSignature (temp : list node) (template : option jsstring)
    : list node :=
  match findSignature temp template with
  | Some (signatureElement, _) => fromNodeOn temp (walkUp signatureElement)
  | None => []
  end.

Record preserved := Preserved {
  signatureHtml : jsstring;
  threadHtml : jsstring
}.

(** The nodes behind the two fragments: (signature nodes, thread nodes). *)
Definition extractPreservedNodes (temp : list node)
    (template : option jsstring) : list node * list node :=
  let '(threadNodes, rest) := extractThread temp in
  (extractSignature rest template, threadNodes).

Definition extractPreservedContent (temp : list node)
    (template : option jsstring) : preserved :=
  let '(signatureNodes, threadNodes) := extractPreservedNodes temp template in
  Preserved (innerHTML signatureNodes) (innerHTML threadNodes).

(* ===================================================================== *)
(** ** Draft reconstructor: [addOutlookStyles], [formatBodyForInsert] *)
(* ===================================================================== *)

Definition pStyled : jsstring :=
  js "<p style=" ++ dq ++ js "margin-top: 0; margin-bottom: 15px;" ++ dq ++ js ">".
Definition ulStyled : jsstring :=
  js "<ul style=" ++ dq ++ js "margin-bottom: 15px;" ++ dq ++ js ">".
Definition olStyled : jsstring :=
  js "<ol style=" ++ dq ++ js "margin-bottom: 15px;" ++ dq ++ js ">".

Definition addOutlookStyles (html : jsstring) : jsstring :=
  match html with
  | [] => html
  | _ =>
      let styledHtml := replace_all (liti (js "<p>")) [RLit pStyled] html in
      let styledHtml := replace_all (liti (js "<ul>")) [RLit ulStyled] styledHtml in
      replace_all (liti (js "<ol>")) [RLit olStyled] styledHtml
  end.

(** [/<[a-z][\s\S]*>/i] *)
Definition htmlTagPattern : regex :=
  seqs [chri (fst (one "<")); clsi [rng "a" "z"]; star any;
        chri (fst (one ">"))].

(** [/DD(.+?)DD/g] for a two-character delimiter [DD] *)
Definition boldPattern (delim : jsstring) : regex :=
  seqs [lit delim; Group (lazy_plus dot); lit delim].

(** [/(?<!D)D(?!D)(.+?)(?<!D)D(?!D)/g] for a delimiter character [D] *)
Definition italicPattern (d : N) : regex :=
  seqs [ LookBehind1 false (N.eqb d); chr d; LookAhead false (chr d);
         Group (lazy_plus dot);
         LookBehind1 false (N.eqb d); chr d; LookAhead false (chr d) ].

Definition asterisk : N := 42%N.
Definition underscore : N := 95%N.

Definition strongOf : list rpiece :=
  [RLit (js "<strong>"); RGroup1; RLit (js "</strong>")].
Definition emOf : list rpiece :=
  [RLit (js "<em>"); RGroup1; RLit (js "</em>")].

(** [/^[-*]\s+(.+)$/] and [/^\d+\.\s+(.+)$/] *)
Definition unorderedItem : regex :=
  seqs [Bol false; cls [one "-"; one "*"]; plus ws; Group (plus dot);
        Eol false].
Definition orderedItem : regex :=
  seqs [Bol false; plus digit; chr (fst (one ".")); plus ws;
        Group (plus dot); Eol false].

(** [line.match(r)]: the text of group 1 when the line matches. *)
Definition matchGroup1 (r : regex) (line : jsstring) : option jsstring :=
  match exec r line with
  | Some (_, st) => Some (group1 line st)
  | None => None
  end.

(** The variables of the line loop. *)
Record blocks := Blocks {
  processedLines : list jsstring;
  inUnorderedList : bool;
  inOrderedList : bool
}.

Definition push (l : list jsstring) (x : jsstring) : list jsstring := l ++ [x].

(** [l[l.length - 1]] and the assignment to it. *)
Definition lastLine (l : list jsstring) : jsstring := List.last l [].
Definition setLast (l : list jsstring) (x : jsstring) : list jsstring :=
  removelast l ++ [x].

Definition lastEndsWith (l : list jsstring) (suffix : string) : bool :=
  endsWith (lastLine l) (js suffix).

(** One iteration of [for (let i = 0; i < lines.length; i++)]. *)
Definition processLine (st : blocks) (raw : jsstring) : blocks :=
  let line := trim raw in
  let out := processedLines st in
  match matchGroup1 unorderedItem line with
  | Some item =>
      let out := if inOrderedList st then push out (js "</ol>") else out in
      let out := if inUnorderedList st then out else push out (js "<ul>") in
      Blocks (push out (js "<li>" ++ item ++ js "</li>")) true false
  | None =>
      match matchGroup1 orderedItem line with
      | Some item =>
          let out := if inUnorderedList st then push out (js "</ul>") else out in
          let out := if inOrderedList st then out else push out (js "<ol>") in
          Blocks (push out (js "<li>" ++ item ++ js "</li>")) false true
      | None =>
          let out := if inUnorderedList st then push out (js "</ul>") else out in
          let out := if inOrderedList st then push out (js "</ol>") else out in
          let out :=
            match line with
            | [] =>
                if (0 <? length out) && negb (lastEndsWith out "</p>")
                then push out (js "</p><p>")
                else out
            | _ =>
                if (length out =? 0) || lastEndsWith out "</p>"
                   || lastEndsWith out "</ul>" || lastEndsWith out "</ol>"
                then push out (js "<p>" ++ line)
                else if str_eqb (lastLine out) (js "</p><p>")
                then setLast out (js "</p><p>" ++ line)
                else
                  let out :=
                    if (0 <? length out) && negb (lastEndsWith out "</p>")
                       && negb (lastEndsWith out "</ul>")
                       && negb (lastEndsWith out "</ol>")
                    then setLast out (lastLine out ++ js "</p>")
                    else out in
                  push out (js "<p>" ++ line)
            end in
          Blocks out false false
      end
  end.

Definition formatBodyForInsert (body : jsstring) : jsstring :=
  if test htmlTagPattern body then addOutlookStyles body
  else
    let html := body in
    let html := replace_all (boldPattern (js "**")) strongOf html in
    let html := replace_all (italicPattern asterisk) emOf html in
    let html := replace_all (boldPattern (js "__")) strongOf html in
    let html := replace_all (italicPattern underscore) emOf html in
    let lines := split_nl html in
    let st := fold_left processLine lines (Blocks [] false false) in
    let out := processedLines st in
    let out := if inUnorderedList st then push out (js "</ul>") else out in
    let out := if inOrderedList st then push out (js "</ol>") else out in
    let result := join [] out in
    if includes result (js "<p>") && negb (endsWith result (js "</p>"))
       && negb (endsWith result (js "</ul>"))
       && negb (endsWith result (js "</ol>"))
    then result ++ js "</p>"
    else if negb (includes result (js "<p>"))
            && negb (includes result (js "<ul>"))
            && negb (includes result (js "ol>"))
    then addOutlookStyles (js "<p>" ++ result ++ js "</p>")
    else addOutlookStyles result.

(** [newBodyContent + signatureHtml + threadHtml] as [handleReplaceBody]
    assembles it (an empty fragment is skipped, which appends nothing). *)
Definition reconstructBody (body : jsstring) (p : preserved) : jsstring :=
  let reconstructedBody := formatBodyForInsert body in
  let reconstructedBody :=
    match signatureHtml p with
    | [] => reconstructedBody
    | sig => reconstructedBody ++ sig
    end in
  match threadHtml p with
  | [] => reconstructedBody
  | thread => reconstructedBody ++ thread
  end.

(* ===================================================================== *)
(** ** Completion result: [JSON.parse], [handleProcess] *)
(* ===================================================================== *)

Module Json.

(** A number keeps the text it was written with. *)
#[warnings="-register-all"] Inductive json : Type :=
| JNull
| JBool (b : bool)
| JNumber (literal : jsstring)
| JString (s : jsstring)
| JArray (items : list json)
| JObject (members : list (jsstring * json)).

Definition is_json_ws (c : N) : bool :=
  ((c =? 9) || (c =? 10) || (c =? 13) || (c =? 32))%N.

Fixpoint skip_ws (s : jsstring) : jsstring :=
  match s with
  | c :: s' => if is_json_ws c then skip_ws s' else s
  | [] => []
  end.

Definition is_digit (c : N) : bool := ((48 <=? c) && (c <=? 57))%N.

Definition hex_value (c : N) : option N :=
  (if (48 <=? c) && (c <=? 57) then Some (c - 48)
   else if (97 <=? c) && (c <=? 102) then Some (c - 87)
   else if (65 <=? c) && (c <=? 70) then Some (c - 55)
   else None)%N.

(** The characters of a string literal after its opening quote. *)
Fixpoint parse_chars (s : jsstring) (acc : jsstring)
    : option (jsstring * jsstring) :=
  match s with
  | [] => None
  | 34%N :: rest => Some (rev acc, rest)
  | 92%N :: e :: rest =>
      let simple (c : N) := parse_chars rest (c :: acc) in
      if (e =? 34)%N then simple 34%N
      else if (e =? 92)%N then simple 92%N
      else if (e =? 47)%N then simple 47%N
      else if (e =? 98)%N then simple 8%N
      else if (e =? 102)%N then simple 12%N
      else if (e =? 110)%N then simple 10%N
      else if (e =? 114)%N then simple 13%N
      else if (e =? 116)%N then simple 9%N
      else if (e =? 117)%N then
        match rest with
        | a :: b :: c :: d :: rest' =>
            match hex_value a, hex_value b, hex_value c, hex_value d with
            | Some x, Some y, Some z, Some w =>
                parse_chars rest' ((((x * 16 + y) * 16 + z) * 16 + w)%N :: acc)
            | _, _, _, _ => None
            end
        | _ => None
        end
      else None
  | c :: rest => if (c <? 32)%N then None else parse_chars rest (c :: acc)
  end.

Fixpoint span_digits (s : jsstring) : jsstring * jsstring :=
  match s with
  | c :: s' =>
      if is_digit c then let '(d, r) := span_digits s' in (c :: d, r)
      else ([], s)
  | [] => ([], [])
  end.

(** A JSON number: an optional minus sign, an integer part without a
    leading zero, an optional fraction and an optional exponent. *)
Definition parse_number (s : jsstring) : option (jsstring * jsstring) :=
  let '(sign, s1) :=
    match s with
    | 45%N :: r => ([45%N], r)
    | _ => ([], s)
    end in
  let int :=
    match s1 with
    | 48%N :: r => Some ([48%N], r)
    | _ => match span_digits s1 with
           | ([], _) => None
           | (d, r) => Some (d, r)
           end
    end in
  match int with
  | None => None
  | Some (i, s2) =>
      let frac :=
        match s2 with
        | 46%N :: r =>
            match span_digits r with
            | ([], _) => None
            | (d, r') => Some (46%N :: d, r')
            end
        | _ => Some ([], s2)
        end in
      match frac with
      | None => None
      | Some (f, s3) =>
          let exp :=
            match s3 with
            | e :: r =>
                if (e =? 101)%N || (e =? 69)%N then
                  let '(sg, r1) :=
                    match r with
                    | g :: r' =>
                        if (g =? 43)%N || (g =? 45)%N then ([g], r')
                        else ([], r)
                    | [] => ([], r)
                    end in
                  match span_digits r1 with
                  | ([], _) => None
                  | (d, r2) => Some (e :: sg ++ d, r2)
                  end
                else Some ([], s3)
            | [] => Some ([], s3)
            end in
          match exp with
          | None => None
          | Some (x, s4) => Some (sign ++ i ++ f ++ x, s4)
          end
      end
  end.

(** The grammar of JSON values.  Each call is made on a shorter input or
    right after one that was, so [2 * length s + 2] units of fuel are
    enough for an input [s]. *)
Fixpoint parse_value (fuel : nat) (s : jsstring)
    : option (json * jsstring) :=
  match fuel with
  | 0 => None
  | S fuel' =>
      match skip_ws s with
      | 34%N :: rest =>
          match parse_chars rest [] with
          | Some (str, rest') => Some (JString str, rest')
          | None => None
          end
      | 91%N :: rest =>
          match skip_ws rest with
          | 93%N :: rest' => Some (JArray [], rest')
          | _ =>
              match parse_elements fuel' rest [] with
              | Some (items, rest') => Some (JArray items, rest')
              | None => None
              end
          end
      | 123%N :: rest =>
          match skip_ws rest with
          | 125%N :: rest' => Some (JObject [], rest')
          | _ =>
              match parse_members fuel' rest [] with
              | Some (members, rest') => Some (JObject members, rest')
              | None => None
              end
          end
      | t =>
          if startsWith t (js "null") then Some (JNull, skipn 4 t)
          else if startsWith t (js "true") then Some (JBool true, skipn 4 t)
          else if startsWith t (js "false") then Some (JBool false, skipn 5 t)
          else match parse_number t with
               | Some (n, rest) => Some (JNumber n, rest)
               | None => None
               end
      end
  end
with parse_elements (fuel : nat) (s : jsstring) (acc : list json)
    : option (list json * jsstring) :=
  match fuel with
  | 0 => None
  | S fuel' =>
      match parse_value fuel' s with
      | Some (v, rest) =>
          match skip_ws rest with
          | 44%N :: rest' => parse_elements fuel' rest' (v :: acc)
          | 93%N :: rest' => Some (rev (v :: acc), rest')
          | _ => None
          end
      | None => None
      end
  end
with parse_members (fuel : nat) (s : jsstring)
    (acc : list (jsstring * json)) : option (list (jsstring * json) * jsstring) :=
  match fuel with
  | 0 => None
  | S fuel' =>
      match skip_ws s with
      | 34%N :: rest =>
          match parse_chars rest [] with
          | Some (key, rest1) =>
              match skip_ws rest1 with
              | 58%N :: rest2 =>
                  match parse_value fuel' rest2 with
                  | Some (v, rest3) =>
                      match skip_ws rest3 with
                      | 44%N :: rest4 =>
                          parse_members fuel' rest4 ((key, v) :: acc)
                      | 125%N :: rest4 => Some (rev ((key, v) :: acc), rest4)
                      | _ => None
                      end
                  | None => None
                  end
              | _ => None
              end
          | None => None
          end
      | _ => None
      end
  end.

(** [JSON.parse(text)]; [None] is the SyntaxError. *)
Definition parse (text : jsstring) : option json :=
  match parse_value (2 * length text + 2) text with
  | Some (v, rest) =>
      match skip_ws rest with
      | [] => Some v
      | _ => None
      end
  | None => None
  end.

(** [v.name] for one of the names [subject], [body]: [None] is the
    TypeError raised on [null], [Some None] is [undefined].  In an object
    the last member written with that key is the property. *)
Definition getProp (v : json) (name : jsstring) : option (option json) :=
  match v with
  | JNull => None
  | JObject members =>
      Some (snd <$> find (fun kv => str_eqb (fst kv) name) (rev members))
  | _ => Some None
  end.

(** The part of a number literal before its exponent. *)
Fixpoint mantissa (l : jsstring) : jsstring :=
  match l with
  | c :: l' => if (c =? 101)%N || (c =? 69)%N then [] else c :: mantissa l'
  | [] => []
  end.

(** ToBoolean; a number is zero when its mantissa has no digit 1..9
    (a literal so small that it rounds to zero is not told apart). *)
Definition truthy (v : json) : bool :=
  match v with
  | JNull => false
  | JBool b => b
  | JNumber literal =>
      existsb (fun c => (49 <=? c) && (c <=? 57))%N (mantissa literal)
  | JString s => negb (str_eqb s [])
  | JArray _ | JObject _ => true
  end.

End Json.
Import Json.

(** What the task pane shows at the end of [handleProcess]. *)
Inductive shown :=
| Results (subjectCard : option json) (bodyCard : option (json * bool))
| ProviderError (message : jsstring)
| TypeError.

(** [displayResults()]: the subject card shows a truthy subject; the body
    card shows a truthy body, as markup when [body.includes('<')]. *)
Definition displayResults (currentResult : json) : shown :=
  match getProp currentResult (js "subject") with
  | None => TypeError
  | Some subject =>
      let subjectCard :=
        match subject with
        | Some v => if truthy v then Some v else None
        | None => None
        end in
      match getProp currentResult (js "body") with
      | None => TypeError
      | Some None => Results subjectCard None
      | Some (Some body) =>
          if truthy body then
            match body with
            | JString s => Results subjectCard (Some (body, includes s (js "<")))
            | JArray items =>
                Results subjectCard
                  (Some (body, existsb (fun x => match x with
                                                 | JString t => str_eqb t (js "<")
                                                 | _ => false
                                                 end) items))
            | _ => TypeError      (* [body.includes] is not a function *)
            end
          else Results subjectCard None
      end
  end.

(** [{ subject: '', body: result }] *)
Definition bodyOnly (result : jsstring) : json :=
  JObject [(js "subject", JString []); (js "body", JString result)].

(** [handleProcess]: [completion] is what [await processText(...)] gives,
    the response text or the message of the error it throws.  The result
    is the new [currentResult] and what is shown. *)
Definition handleProcess (currentResult : json)
    (completion : jsstring + jsstring) : json * shown :=
  match completion with
  | inr message => (currentResult, ProviderError message)
  | inl result =>
      let currentResult :=
        match Json.parse result with
        | Some v => v
        | None => bodyOnly result
        end in
      (currentResult, displayResults currentResult)
  end.

(* ===================================================================== *)
(** ** Saved prompts: [storage], [promptManager] *)
(* ===================================================================== *)

Record prompt := Prompt {
  prompt_id : jsstring;
  prompt_name : jsstring;
  prompt_instruction : jsstring
}.

(** The [saved_prompts] entry of localStorage ([None]: no entry) and the
    values written to it so far, latest first. *)
Record store := Store {
  saved_prompts : option (list prompt);
  writes : list (list prompt)
}.

(** One entry of [providers], and the [provider_settings] value. *)
Record providerConfig := ProviderConfig {
  apiKey : jsstring;
  endpoint : jsstring;
  model : jsstring
}.

Record providerSettings := ProviderSettings {
  activeProvider : jsstring;
  providers : gmap jsstring providerConfig
}.

Module storage.

(** The settings returned when nothing is stored. *)
Definition defaultProviderSettings : providerSettings :=
  ProviderSettings (js "openai")
    (<[js "openai" := ProviderConfig [] (js "https://api.openai.com/v1")
                        (js "gpt-4o-mini")]>
     (<[js "claude" := ProviderConfig [] (js "https://api.anthropic.com")
                         (js "claude-3-5-sonnet-20241022")]>
      (<[js "gemini" := ProviderConfig []
                          (js "https://generativelanguage.googleapis.com")
                          (js "gemini-1.5-flash")]>
       (<[js "custom" := ProviderConfig [] [] []]> ∅)))).

(** [this.get('provider_settings') || { ...defaults }]; [stored] is the
    localStorage entry, [None] when there is none. *)
Definition getProviderSettings (stored : option providerSettings)
    : providerSettings :=
  match stored with
  | Some settings => settings
  | None => defaultProviderSettings
  end.

Definition setProviderSettings (stored : option providerSettings)
    (settings : providerSettings) : option providerSettings :=
  Some settings.

(** [this.get('saved_prompts') || []] *)
Definition getSavedPrompts (st : store) : list prompt :=
  match saved_prompts st with
  | Some prompts => prompts
  | None => []
  end.

Definition setSavedPrompts (st : store) (prompts : list prompt) : store :=
  Store (Some prompts) (prompts :: writes st).

End storage.

Module promptManager.

Definition getAll (st : store) : list prompt := storage.getSavedPrompts st.

Definition getById (st : store) (id : jsstring) : option prompt :=
  find (fun p => str_eqb (prompt_id p) id) (getAll st).

(** [id] is the identifier drawn by [generateId()]. *)
Definition add (st : store) (id name instruction : jsstring)
    : store * prompt :=
  let prompts := getAll st in
  let newPrompt := Prompt id (trim name) (trim instruction) in
  (storage.setSavedPrompts st (prompts ++ [newPrompt]), newPrompt).

Definition update (st : store) (id name instruction : jsstring)
    : store * bool :=
  let prompts := getAll st in
  match list_find (fun p => prompt_id p = id) prompts with
  | None => (st, false)
  | Some (index, old) =>
      (storage.setSavedPrompts st
         (<[index := Prompt (prompt_id old) (trim name) (trim instruction)]>
            prompts),
       true)
  end.

Definition delete (st : store) (id : jsstring) : store * bool :=
  let prompts := getAll st in
  let filtered :=
    List.filter (fun p => negb (str_eqb (prompt_id p) id)) prompts in
  if length filtered =? length prompts then (st, false)
  else (storage.setSavedPrompts st filtered, true).

(** [toString(16)] of a value below 16. *)
Definition hexDigit (v : N) : N := (if v <? 10 then 48 + v else 87 + v)%N.

(** [generateId()]: every [x] or [y] of the template is replaced in turn;
    [random k] is the value of [Math.random() * 16 | 0], a number below
    16, at the [k]-th replacement. *)
Fixpoint fillTemplate (t : jsstring) (random : nat -> N) (k : nat)
    : jsstring :=
  match t with
  | [] => []
  | c :: t' =>
      if (c =? 120)%N || (c =? 121)%N then
        let r := random k in
        let v := if (c =? 120)%N then r else N.lor (N.land r 3) 8 in
        hexDigit v :: fillTemplate t' random (S k)
      else c :: fillTemplate t' random k
  end.

Definition generateId (random : nat -> N) : jsstring :=
  fillTemplate (js "xxxxxxxx-xxxx-4xxx-yxxx-xxxxxxxxxxxx") random 0.

(** [initDefaults()]; [id1] ... [id5] are the identifiers drawn by the
    five calls of [add]. *)
Definition initDefaults (st : store) (id1 id2 id3 id4 id5 : jsstring)
    : store :=
  if length (getAll st) =? 0 then
    let st := fst (add st id1 (js "Fix Grammar")
      (js "Fix any grammatical errors in this text while maintaining the original meaning and tone.")) in
    let st := fst (add st id2 (js "Make Professional")
      (js "Rewrite this text to be more professional and formal while keeping the same message.")) in
    let st := fst (add st id3 (js "Summarize")
      (js "Provide a brief, concise summary of this text.")) in
    let st := fst (add st id4 (js "Translate to French")
      (js "Translate this text to French.")) in
    fst (add st id5 (js "Make Friendly")
      (js "Rewrite this text to be warmer and more friendly while keeping the same message."))
  else st.

End promptManager.

(* ===================================================================== *)
(** ** Provider settings: [saveSettings], [getProvider] *)
(* ===================================================================== *)

(** [saveSettings()] of the settings page: [checkedRadio] is the value of
    the checked provider radio, if any, and the three values are those of
    the form fields. *)
Definition saveSettings (stored : option providerSettings)
    (checkedRadio : option jsstring)
    (apiKeyValue endpointValue modelValue : jsstring)
    : option providerSettings :=
  match checkedRadio with
  | None => stored
  | Some selectedProvider =>
      let settings := storage.getProviderSettings stored in
      storage.setProviderSettings stored
        (ProviderSettings selectedProvider
           (<[selectedProvider :=
                ProviderConfig (trim apiKeyValue) (trim endpointValue)
                               (trim modelValue)]>
              (providers settings)))
  end.

(** The three adapters, each holding the configuration it was built with. *)
Inductive llmProvider :=
| OpenAIProvider (config : providerConfig)
| ClaudeProvider (config : providerConfig)
| GeminiProvider (config : providerConfig).

(** What [getProvider] throws: an [Error] with a message, or the
    TypeError of reading [apiKey] when the active provider has no entry. *)
Inductive providerFailure :=
| ConfigurationError (message : jsstring)
| MissingEntry.

(** [getProvider()] *)
Definition getProvider (stored : option providerSettings)
    : providerFailure + llmProvider :=
  let settings := storage.getProviderSettings stored in
  let active := activeProvider settings in
  match providers settings !! active with
  | None => inl MissingEntry
  | Some config =>
      if str_eqb (apiKey config) [] then
        inl (ConfigurationError
               (js "No API key configured for " ++ active
                ++ js ". Please configure in settings."))
      else if str_eqb active (js "openai") || str_eqb active (js "custom")
      then inr (OpenAIProvider config)
      else if str_eqb active (js "claude") then inr (ClaudeProvider config)
      else if str_eqb active (js "gemini") then inr (GeminiProvider config)
      else inl (ConfigurationError (js "Unknown provider: " ++ active))
  end.

(* ===================================================================== *)
(** ** Plain-text copy and HTML escaping *)
(* ===================================================================== *)

(** [/<[^>]*>/g] *)
Definition tagPattern : regex :=
  seqs [chr (fst (one "<")); star (Chr (fun c => negb (c =? 62)%N));
        chr (fst (one ">"))].

(** [body.replace(/<[^>]*>/g, '')], the plain text that
    [handleCopyToClipboard] puts beside the formatted body. *)
Definition plainTextOf (body : jsstring) : jsstring :=
  replace_all tagPattern [] body.

(** [escapeHtml(text)] of the settings page: the text is assigned to
    [div.textContent] (which creates one text node, or none for the empty
    string) and [div.innerHTML] is read back. *)
Definition escapeHtml (text : jsstring) : jsstring :=
  innerHTML (match text with [] => [] | _ => [Text text] end).

(* ===================================================================== *)
(** ** Notions used to state the properties *)
(* ===================================================================== *)

(** A match never moves backwards and never ends beyond the text. *)
Definition forward (s : jsstring) (step : mstate -> list mstate) : Prop :=
  forall st st', In st' (step st) ->
    pos st <= pos st' /\ pos st' <= Nat.max (pos st) (length s).

(** [p] occurs at the start of [s], letter case aside. *)
Fixpoint startsWithCI (s p : jsstring) {struct p} : bool :=
  match p, s with
  | [], _ => true
  | c :: p', d :: s' => (canon d =? canon c)%N && startsWithCI s' p'
  | _ :: _, [] => false
  end.

(** The index of the first occurrence of [p] in [s], letter case aside. *)
Fixpoint indexOfCI (s p : jsstring) : option nat :=
  if startsWithCI s p then Some 0
  else match s with
       | [] => None
       | _ :: s' => S <$> indexOfCI s' p
       end.

(** The tree of
    [<div>Hello world</div><hr tabindex="-1"><div>From: A Sent: B To: C Subject: D</div>]. *)
Definition roundTripDocument : list node :=
  [ Elem (js "div") [] [Text (js "Hello world")];
    Elem (js "hr") [(js "tabindex", js "-1")] [];
    Elem (js "div") [] [Text (js "From: A Sent: B To: C Subject: D")] ].

Definition roundTripMarkup : jsstring :=
  js "<div>Hello world</div><hr tabindex=" ++ dq ++ js "-1" ++ dq
  ++ js "><div>From: A Sent: B To: C Subject: D</div>".

(** [- item one\n- item two\n\nSecond paragraph] *)
Definition markdownList : jsstring :=
  js "- item one" ++ nl ++ js "- item two" ++ nl ++ nl ++ js "Second paragraph".

(** A pattern that ends in a greedy [[\s\S]*]: whatever it matches, the
    match runs to the end of the text. *)
Inductive tail_any : regex -> Prop :=
| tail_any_star : tail_any (star any)
| tail_any_seq (a r : regex) : tail_any r -> tail_any (Seq a r).

Definition isElement (n : node) : bool :=
  match n with
  | Elem _ _ _ => true
  | _ => false
  end.

(** What the capture keeps true of the session texts. *)
Definition textsTrimmed (st : session) : Prop :=
  trim (currentEmailBody st) = currentEmailBody st
  /\ trim (currentThreadContent st) = currentThreadContent st
  /\ forall t, initialBodyTemplate st = Some t -> trim t = t.

(** A lower-case hexadecimal digit or a dash. *)
Definition isHexOrDash (c : N) : bool :=
  ((48 <=? c) && (c <=? 57) || (97 <=? c) && (c <=? 102) || (c =? 45))%N.

(** [needs p r]: every match of [r] consumes a character that satisfies
    [p]. *)
Inductive needs (p : N -> bool) : regex -> Prop :=
| needs_chr (q : N -> bool) :
    (forall c, q c = true -> p c = true) -> needs p (Chr q)
| needs_seq_l (a b : regex) : needs p a -> needs p (Seq a b)
| needs_seq_r (a b : regex) : needs p b -> needs p (Seq a b)
| needs_alt (a b : regex) : needs p a -> needs p b -> needs p (Alt a b)
| needs_group (a : regex) : needs p a -> needs p (Group a)
| needs_rep (g : bool) (mn : nat) (a : regex) :
    needs p a -> needs p (Rep g (S mn) None a).

(** [starts q r]: every match of [r] begins by consuming a character that
    satisfies [q]. *)
Inductive starts (q : N -> bool) : regex -> Prop :=
| starts_chr (q' : N -> bool) :
    (forall c, q' c = true -> q c = true) -> starts q (Chr q')
| starts_seq (a b : regex) : starts q a -> starts q (Seq a b)
| starts_rep (g : bool) (mn : nat) (a : regex) :
    starts q a -> starts q (Rep g (S mn) None a).

(** Replacing, from left to right, each occurrence of [p] (letter case
    aside) by [r]; [skip] counts the characters of an occurrence that are
    still to be dropped. *)
Fixpoint substCI (p r : jsstring) (skip : nat) (s : jsstring) : jsstring :=
  match s with
  | [] => []
  | c :: s' =>
      match skip with
      | S k => substCI p r k s'
      | 0 =>
          if startsWithCI s p then r ++ substCI p r (length p - 1) s'
          else c :: substCI p r 0 s'
      end
  end.

(** [r] never opens an occurrence of [q], whatever follows it. *)
Definition inert (r q : jsstring) : Prop :=
  forall Z, indexOfCI (r ++ Z) q = (fun n => length r + n) <$> indexOfCI Z q.

(** What [/<[a-z][\s\S]*>/i] asks of the text at the place where it
    matches: a [<], a letter, and a [>] somewhere after them. *)
Definition tagOpens (s : jsstring) : bool :=
  match s with
  | a :: b :: t =>
      (canon a =? canon 60)%N && in_ranges_i [rng "a" "z"] b
      && existsb (fun d => (canon d =? canon 62)%N) t
  | _ => false
  end.

(** The configuration an adapter was built with. *)
Definition configOf (p : llmProvider) : providerConfig :=
  match p with
  | OpenAIProvider c | ClaudeProvider c | GeminiProvider c => c
  end.

(** A character that a JSON string literal holds as itself: not a control
    character, not the quote and not the backslash. *)
Definition plainChar (c : N) : bool :=
  ((32 <=? c) && negb (c =? 34) && negb (c =? 92))%N.

(** The reply format that the system prompt asks of the model: an object
    with the members [subject] and [body], both string literals, with
    the white space [w1] .. [w5] between the tokens. *)
Definition reply (w1 w2 w3 w4 w5 subject body : jsstring) : jsstring :=
  js "{" ++ w1 ++ dq ++ js "subject" ++ dq ++ js ":" ++ w2
  ++ dq ++ subject ++ dq ++ js "," ++ w3
  ++ dq ++ js "body" ++ dq ++ js ":" ++ w4
  ++ dq ++ body ++ dq ++ w5 ++ js "}".

(* ===================================================================== *)
(** * Properties *)
(* ===================================================================== *)

(** ** The matcher and its fuel *)

Lemma rep_loop_forward (s : jsstring) (step : mstate -> list mstate) :
  forward s step ->
  forall fuel greedy min max, forward s (rep_loop step fuel greedy min max).
Proof.
  intros Hstep. induction fuel as [|fuel IH]; intros greedy min max st st';
    [intros []|].
  cbn [rep_loop].
  assert (Hiter : In st' (flat_map
            (fun st'0 => if (min =? 0) && (pos st'0 =? pos st) then []
                         else rep_loop step fuel greedy (pred min)
                                (pred <$> max) st'0) (step st)) ->
          pos st <= pos st' /\ pos st' <= Nat.max (pos st) (length s)).
  { intros Hin. apply in_flat_map in Hin as (mid & Hmid & Hin).
    destruct ((min =? 0) && (pos mid =? pos st)); [destruct Hin|].
    apply Hstep in Hmid. apply IH in Hin. lia. }
  assert (Hself : st' = st ->
          pos st <= pos st' /\ pos st' <= Nat.max (pos st) (length s))
    by (intros ->; lia).
  destruct max as [[|m]|]; [intros [H|[]]; now apply Hself, eq_sym|..];
    (destruct (negb (min =? 0)); [exact Hiter|]);
    (destruct greedy;
     [ rewrite in_app_iff; intros [H|[H|[]]];
       [now apply Hiter | now apply Hself, eq_sym]
     | intros [H|H]; [now apply Hself, eq_sym | now apply Hiter] ]).
Qed.

Lemma run_forward (s : jsstring) (r : regex) : forward s (run r s).
Proof.
  induction r as [|p|a IHa b IHb|a IHa b IHb|g mn mx a IHa|a IHa
                 |[|] a IHa|b p|ml|ml]; intros st st'; cbn [run].
  - intros [<-|[]]. lia.
  - unfold char_at. destruct (nth_error s (pos st)) as [c|] eqn:Hc; [|intros []].
    destruct (p c); [|intros []]. intros [<-|[]]. cbn [pos].
    assert (pos st < length s) by (apply nth_error_Some; congruence). lia.
  - intros Hin. apply in_flat_map in Hin as (mid & Hmid & Hin).
    apply IHa in Hmid. apply IHb in Hin. lia.
  - rewrite in_app_iff. intros [H|H]; [now apply IHa|now apply IHb].
  - now apply rep_loop_forward.
  - intros Hin. apply in_map_iff in Hin as (mid & <- & Hmid).
    cbn [pos]. now apply IHa.
  - destruct (run a s st); [intros []|]. intros [<-|[]]. cbn [pos]. lia.
  - destruct (run a s st); [|intros []]. intros [<-|[]]. lia.
  - match goal with |- In _ (if ?c then _ else _) -> _ => destruct c end;
      [|intros []]. intros [<-|[]]. lia.
  - destruct (pos st) as [|i] eqn:Hi.
    + intros [<-|[]]. lia.
    + unfold char_at. destruct (nth_error s i); [|intros []].
      match goal with |- In _ (if ?c then _ else _) -> _ => destruct c end;
        [|intros []]. intros [<-|[]]. lia.
  - unfold char_at. destruct (nth_error s (pos st)).
    + match goal with |- In _ (if ?c then _ else _) -> _ => destruct c end;
        [|intros []]. intros [<-|[]]. lia.
    + intros [<-|[]]. lia.
Qed.

Lemma flat_map_agree {A B : Type} (f g : A -> list B) (l : list A) :
  (forall x, In x l -> f x = g x) -> flat_map f l = flat_map g l.
Proof.
  induction l as [|x l IH]; intros H; [reflexivity|].
  cbn [flat_map]. rewrite (H x) by now left.
  f_equal. apply IH. intros y Hy. apply H. now right.
Qed.

(** Once the fuel exceeds the minimum count plus the length of the text
    still ahead, the quantifier loop no longer depends on it: the fuel
    given by [run] is never exhausted. *)
Lemma rep_loop_enough_fuel (s : jsstring) (step : mstate -> list mstate) :
  forward s step ->
  forall (f1 f2 : nat) greedy min max st,
    min + (length s - pos st) < f1 ->
    min + (length s - pos st) < f2 ->
    rep_loop step f1 greedy min max st = rep_loop step f2 greedy min max st.
Proof.
  intros Hstep. induction f1 as [|f1 IH]; intros f2 greedy min max st H1 H2;
    [lia|].
  destruct f2 as [|f2]; [lia|]. cbn [rep_loop].
  assert (Hiter :
    flat_map (fun st' => if (min =? 0) && (pos st' =? pos st) then []
                         else rep_loop step f1 greedy (pred min) (pred <$> max) st')
             (step st)
    = flat_map (fun st' => if (min =? 0) && (pos st' =? pos st) then []
                           else rep_loop step f2 greedy (pred min) (pred <$> max) st')
               (step st)).
  { apply flat_map_agree. intros st' Hin. apply Hstep in Hin.
    destruct (min =? 0) eqn:Hmin; cbn [andb].
    - apply Nat.eqb_eq in Hmin. subst min.
      destruct (pos st' =? pos st) eqn:Hpos; [reflexivity|].
      apply Nat.eqb_neq in Hpos. apply IH; cbn [pred]; lia.
    - apply Nat.eqb_neq in Hmin. apply IH; lia. }
  now rewrite Hiter.
Qed.

Lemma run_Rep_fuel (s : jsstring) greedy min max a st (fuel : nat) :
  min + (length s - pos st) < fuel ->
  run (Rep greedy min max a) s st
  = rep_loop (run a s) fuel greedy min max st.
Proof.
  intros H. cbn [run].
  apply (rep_loop_enough_fuel s); [apply run_forward| lia |exact H].
Qed.

(** ** The thread round trip *)

Lemma roundTripDocument_markup : innerHTML roundTripDocument = roundTripMarkup.
Proof. vm_compute. reflexivity. Qed.

(** C3, as stated, fails: the cleaned thread text of the round-trip
    document does not contain the four labels each followed by a newline,
    because the value after [Subject:] is kept. *)
Lemma cleaned_thread_keeps_subject_value :
  includes
    (cleanThreadContent (threadContent (parseEmailHtml roundTripDocument)))
    (js "From:" ++ nl ++ js "Sent:" ++ nl ++ js "To:" ++ nl ++ js "Subject:" ++ nl)
  = false.
Proof. vm_compute. reflexivity. Qed.

(** C3, amended: on the round-trip document the thread boundary locator
    finds the [<hr>] (child 1 of the root), the current message text is
    "Hello world", and the cleaned thread text is exactly the labels
    [From:], [Sent:] and [To:], each followed by a newline with its value
    discarded, followed by [Subject: D] with its value kept. *)
Theorem round_trip_scenario :
  locateThreadStart roundTripDocument
    = Some ([1], Elem (js "hr") [(js "tabindex", js "-1")] [])
  /\ currentMessage (parseEmailHtml roundTripDocument) = js "Hello world"
  /\ cleanThreadContent (threadContent (parseEmailHtml roundTripDocument))
     = js "From:" ++ nl ++ js "Sent:" ++ nl ++ js "To:" ++ nl ++ js "Subject: D".
Proof. repeat split; vm_compute; reflexivity. Qed.

(** ** The formatter on concrete bodies *)

(** C4: on the markdown list scenario the formatter returns one [<ul>]
    with the two items and one paragraph holding "Second paragraph", but
    also a closing paragraph tag that nothing opened, right after [</ul>]. *)
Theorem markdown_list_has_stray_close :
  formatBodyForInsert markdownList
  = js "<ul><li>item one</li><li>item two</li></ul></p><p>Second paragraph</p>".
Proof. vm_compute. reflexivity. Qed.

(** The HTML example of the placeholder claim: the token survives. *)
Lemma placeholder_kept_in_html_example :
  formatBodyForInsert (js "<p>See [[TABLE_1]] below.</p>")
  = pStyled ++ js "See [[TABLE_1]] below.</p>".
Proof. vm_compute. reflexivity. Qed.

(** C1: a body without tags that names two placeholders on one line comes
    back with both tokens rewritten: the underscores of [[[TABLE_1]]] and
    [[[IMAGE_1]]] are read as an italic pair. *)
Theorem placeholders_rewritten_on_markdown_path :
  formatBodyForInsert (js "See [[TABLE_1]] and [[IMAGE_1]]")
    = js "<p>See [[TABLE<em>1]] and [[IMAGE</em>1]]</p>"
  /\ includes (formatBodyForInsert (js "See [[TABLE_1]] and [[IMAGE_1]]"))
              (js "[[TABLE_1]]") = false
  /\ includes (formatBodyForInsert (js "See [[TABLE_1]] and [[IMAGE_1]]"))
              (js "[[IMAGE_1]]") = false.
Proof. repeat split; vm_compute; reflexivity. Qed.

(** C8: formatting "Hello" gives an unstyled paragraph (the return that
    closes the last paragraph leaves out the style injection), and
    formatting that output again gives a different, styled, string. *)
Theorem second_format_changes_plain_paragraph :
  formatBodyForInsert (js "Hello") = js "<p>Hello</p>"
  /\ formatBodyForInsert (formatBodyForInsert (js "Hello"))
     = pStyled ++ js "Hello</p>"
  /\ formatBodyForInsert (formatBodyForInsert (js "Hello"))
     <> formatBodyForInsert (js "Hello").
Proof. repeat split; try (vm_compute; reflexivity). vm_compute; discriminate. Qed.

(** The replacement body is the formatted draft followed by the signature
    fragment and then the thread fragment. *)
Lemma reconstructBody_concat (body : jsstring) (p : preserved) :
  reconstructBody body p
  = formatBodyForInsert body ++ signatureHtml p ++ threadHtml p.
Proof.
  unfold reconstructBody.
  destruct (signatureHtml p), (threadHtml p); cbn [app];
    rewrite ?app_nil_r, <- ?app_assoc; reflexivity.
Qed.

(** ** Malformed completions *)

(** C9, as stated, fails: the response [{}] is JSON without the expected
    fields, and the result is the empty object, not the raw text as body. *)
Lemma empty_object_is_not_degraded :
  Json.parse (js "{}") = Some (JObject [])
  /\ getProp (JObject []) (js "subject") = Some None
  /\ getProp (JObject []) (js "body") = Some None
  /\ fst (handleProcess (bodyOnly []) (inl (js "{}"))) = JObject []
  /\ fst (handleProcess (bodyOnly []) (inl (js "{}"))) <> bodyOnly (js "{}").
Proof. repeat split; try (vm_compute; reflexivity). vm_compute; discriminate. Qed.

(** The response [null] parses, and reading its fields raises an error
    that the outer handler reports. *)
Lemma null_response_surfaces_an_error :
  handleProcess (bodyOnly []) (inl (js "null")) = (JNull, TypeError).
Proof. vm_compute. reflexivity. Qed.

(** C9, amended: for every response text that [JSON.parse] rejects, the
    result becomes the object with an empty subject and the whole text as
    body, and it is displayed (no subject card; a body card unless the
    text is empty) without any error being reported; a response that
    parses is taken as the result as it is. *)
Theorem unparseable_response_becomes_body (prev : json) (raw : jsstring) :
  (Json.parse raw = None ->
   handleProcess prev (inl raw)
   = (bodyOnly raw,
      Results None
        (if str_eqb raw [] then None
         else Some (JString raw, includes raw (js "<")))))
  /\ (forall v, Json.parse raw = Some v ->
        fst (handleProcess prev (inl raw)) = v).
Proof.
  split.
  - intros Hparse. unfold handleProcess. rewrite Hparse.
    unfold displayResults, bodyOnly.
    change (getProp (JObject [(js "subject", JString []); (js "body", JString raw)])
              (js "subject")) with (Some (Some (JString []))).
    change (getProp (JObject [(js "subject", JString []); (js "body", JString raw)])
              (js "body")) with (Some (Some (JString raw))).
    cbn [truthy]. change (str_eqb [] []) with true. cbn [negb].
    destruct (str_eqb raw []); reflexivity.
  - intros v Hparse. unfold handleProcess. now rewrite Hparse.
Qed.

Lemma unparseable_response_becomes_body_witness :
  Json.parse (js "Sorry, I can't help") = None
  /\ handleProcess JNull (inl (js "Sorry, I can't help"))
     = (bodyOnly (js "Sorry, I can't help"),
        Results None (Some (JString (js "Sorry, I can't help"), false))).
Proof.
  split; [vm_compute; reflexivity|].
  apply (proj1 (unparseable_response_becomes_body JNull (js "Sorry, I can't help"))).
  vm_compute. reflexivity.
Defined.

(** ** The session signature template *)

Lemma capture_keeps_template (st : session) (r : bodyRead) (t : jsstring) :
  initialBodyTemplate st = Some t ->
  initialBodyTemplate (captureEmailBody st r) = Some t.
Proof.
  intros Ht. unfold captureEmailBody.
  destruct (succeeded r); [|exact Ht].
  cbn [initialBodyTemplate]. rewrite Ht. reflexivity.
Qed.

Lemma captures_keep_template (reads : list bodyRead) :
  forall (st : session) (t : jsstring),
    initialBodyTemplate st = Some t ->
    initialBodyTemplate (runCaptures st reads) = Some t.
Proof.
  induction reads as [|r reads IH]; intros st t Ht; [exact Ht|].
  cbn [runCaptures fold_left]. apply IH. now apply capture_keeps_template.
Qed.

Lemma failed_reads_change_nothing (reads : list bodyRead) :
  forall st : session,
    Forall (fun r => succeeded r = false) reads ->
    runCaptures st reads = st.
Proof.
  induction reads as [|r reads IH]; intros st Hall; [reflexivity|].
  inversion Hall as [|? ? Hr Hrest]; subst.
  cbn [runCaptures fold_left]. unfold captureEmailBody at 2. rewrite Hr.
  now apply IH.
Qed.

Lemma runCaptures_app (st : session) (a b : list bodyRead) :
  runCaptures st (a ++ b) = runCaptures (runCaptures st a) b.
Proof. unfold runCaptures. apply fold_left_app. Qed.

(** C7: in a session whose template is still [null], let [first] be the
    first body read that succeeds.  From then on, whatever reads follow,
    the template is the trimmed current-message text of [first]; and a
    later successful read only consumes it, as the second argument of
    [stripSignature]. *)
Theorem template_captured_once
    (st : session) (failed : list bodyRead) (first : bodyRead)
    (later : list bodyRead) (next : bodyRead) :
  initialBodyTemplate st = None ->
  Forall (fun r => succeeded r = false) failed ->
  succeeded first = true ->
  let template := trim (currentMessage (parseEmailHtml (document first))) in
  initialBodyTemplate (runCaptures st (failed ++ first :: later))
    = Some template
  /\ initialBodyTemplate
       (captureEmailBody (runCaptures st (failed ++ first :: later)) next)
     = Some template
  /\ (succeeded next = true ->
      currentEmailBody
        (captureEmailBody (runCaptures st (failed ++ first :: later)) next)
      = stripSignature (currentMessage (parseEmailHtml (document next)))
                       (Some template)).
Proof.
  intros Hnull Hfailed Hfirst template.
  assert (Hset : initialBodyTemplate (runCaptures st (failed ++ first :: later))
                 = Some template).
  { rewrite runCaptures_app, (failed_reads_change_nothing failed st Hfailed).
    cbn [runCaptures fold_left]. apply captures_keep_template.
    unfold captureEmailBody. rewrite Hfirst, Hnull. reflexivity. }
  split; [exact Hset|]. split.
  - now apply capture_keeps_template.
  - intros Hnext. unfold captureEmailBody at 1. rewrite Hnext, Hset.
    reflexivity.
Qed.

Lemma template_captured_once_witness :
  let emptyDraft := BodyRead true roundTripMarkup roundTripDocument true in
  let typed :=
    BodyRead true []
      [Elem (js "div") [] [Text (js "Thanks a lot. Hello world")]] false in
  initialBodyTemplate
    (runCaptures initialSession
       ([BodyRead false [] [] true] ++ emptyDraft :: [typed; typed]))
    = Some (js "Hello world")
  /\ currentEmailBody
       (captureEmailBody
          (runCaptures initialSession
             ([BodyRead false [] [] true] ++ emptyDraft :: [typed; typed]))
          typed)
     = js "Thanks a lot.".
Proof.
  intros emptyDraft typed.
  destruct (template_captured_once initialSession [BodyRead false [] [] true]
              emptyDraft [typed; typed] typed) as (Hset & _ & Huse).
  - reflexivity.
  - repeat constructor.
  - reflexivity.
  - split.
    + exact Hset.
    + rewrite (Huse eq_refl). vm_compute. reflexivity.
Defined.

(** ** Saved prompts *)

Lemma filter_other_ids (id : jsstring) (prompts : list prompt) :
  ~ In id (map prompt_id prompts) ->
  List.filter (fun p => negb (str_eqb (prompt_id p) id)) prompts = prompts.
Proof.
  induction prompts as [|p prompts IH]; intros Hnot; [reflexivity|].
  cbn [List.filter]. unfold str_eqb at 1.
  rewrite bool_decide_eq_false_2.
  - cbn [negb]. f_equal. apply IH. intros Hin. apply Hnot. now right.
  - intros Heq. apply Hnot. left. exact Heq.
Qed.

Lemma list_find_absent (id : jsstring) (prompts : list prompt) :
  ~ In id (map prompt_id prompts) ->
  list_find (fun p => prompt_id p = id) prompts = None.
Proof.
  intros Hnot. apply list_find_None. apply Forall_forall.
  intros p Hp Heq. apply Hnot. apply in_map_iff. exists p. split; [exact Heq|].
  now apply list_elem_of_In.
Qed.

(** C10: when no saved prompt has the given id, [update] and [delete]
    return [false] and leave the store, its log of writes included, as it
    was.  When [old], at position [index], is the first saved prompt with
    that id, [update] returns [true] after one write of a list that has
    the same length, holds at [index] a prompt with the id of [old] and
    the trimmed name and instruction, and agrees with the saved list at
    every other position. *)
Theorem update_and_delete_by_id
    (st : store) (id name instruction : jsstring) :
  (~ In id (map prompt_id (promptManager.getAll st)) ->
   promptManager.update st id name instruction = (st, false)
   /\ promptManager.delete st id = (st, false))
  /\
  (forall (index : nat) (old : prompt),
     list_find (fun p => prompt_id p = id) (promptManager.getAll st)
       = Some (index, old) ->
     exists written : list prompt,
       promptManager.update st id name instruction
         = (Store (Some written) (written :: writes st), true)
       /\ length written = length (promptManager.getAll st)
       /\ written !! index
          = Some (Prompt (prompt_id old) (trim name) (trim instruction))
       /\ prompt_id old = id
       /\ forall j : nat, j <> index ->
            written !! j = promptManager.getAll st !! j).
Proof.
  split.
  - intros Hnot. split.
    + unfold promptManager.update. now rewrite (list_find_absent _ _ Hnot).
    + unfold promptManager.delete. rewrite (filter_other_ids _ _ Hnot).
      now rewrite Nat.eqb_refl.
  - intros index old Hfind.
    unfold promptManager.update. rewrite Hfind.
    apply list_find_Some in Hfind as (Hlookup & Hid & _).
    eexists. split; [reflexivity|]. repeat split.
    + apply length_insert.
    + apply list_lookup_insert_eq. now apply lookup_lt_Some in Hlookup.
    + exact Hid.
    + intros j Hj. apply list_lookup_insert_ne. congruence.
Qed.

Lemma update_and_delete_by_id_witness :
  let a := Prompt (js "id-a") (js "Fix Grammar") (js "Fix it.") in
  let b := Prompt (js "id-b") (js "Summarize") (js "Be brief.") in
  let st := Store (Some [a; b]) [] in
  promptManager.update st (js "id-c") (js "x") (js "y") = (st, false)
  /\ promptManager.delete st (js "id-c") = (st, false)
  /\ exists written,
       promptManager.update st (js "id-b") (js " Shorten ") (js " Cut it. ")
       = (Store (Some written) [written], true)
       /\ written !! 1 = Some (Prompt (js "id-b") (js "Shorten") (js "Cut it."))
       /\ written !! 0 = Some a.
Proof.
  intros a b st.
  destruct (update_and_delete_by_id st (js "id-c") (js "x") (js "y"))
    as [Habsent _].
  destruct (update_and_delete_by_id st (js "id-b") (js " Shorten ") (js " Cut it. "))
    as [_ Hpresent].
  destruct Habsent as [Hupdate Hdelete].
  { vm_compute. intros [H|[H|[]]]; discriminate H. }
  destruct (Hpresent 1 b) as (written & Hw & _ & Hat & _ & Hother).
  { vm_compute. reflexivity. }
  split; [exact Hupdate|]. split; [exact Hdelete|].
  exists written. split; [exact Hw|]. split.
  - rewrite Hat. vm_compute. reflexivity.
  - rewrite (Hother 0) by discriminate. reflexivity.
Defined.

(** ** The signature detector: template match *)

Lemma trimStart_split (s : jsstring) :
  exists w, s = w ++ trimStart s /\ forallb is_ws w = true.
Proof.
  induction s as [|c s IH]; [now exists []|].
  cbn [trimStart]. destruct (is_ws c) eqn:Hc.
  - destruct IH as (w & Hs & Hw). exists (c :: w). split.
    + cbn [app]. now f_equal.
    + cbn [forallb]. now rewrite Hc, Hw.
  - now exists [].
Qed.

Lemma trimStart_ws_app (w q : jsstring) :
  forallb is_ws w = true -> trimStart (w ++ q) = trimStart q.
Proof.
  induction w as [|c w IH]; intros Hw; [reflexivity|].
  cbn [forallb] in Hw. apply andb_true_iff in Hw as [Hc Hw].
  cbn [app trimStart]. rewrite Hc. now apply IH.
Qed.

Lemma trimStart_head (s r : jsstring) (c : N) :
  trimStart s = c :: r -> is_ws c = false.
Proof.
  induction s as [|d s IH]; [discriminate|].
  cbn [trimStart]. destruct (is_ws d) eqn:Hd; [exact IH|].
  intros [= -> _]. exact Hd.
Qed.

Lemma trimEnd_fixed (s : jsstring) (c : N) :
  is_ws c = false -> trimEnd (s ++ [c]) = s ++ [c].
Proof.
  intros Hc. unfold trimEnd. rewrite rev_unit. cbn [trimStart]. rewrite Hc.
  cbn [rev]. now rewrite rev_involutive.
Qed.

Lemma trimEnd_last (s r : jsstring) (c : N) :
  trimEnd s = r ++ [c] -> is_ws c = false.
Proof.
  unfold trimEnd. intros H.
  apply (f_equal (@rev N)) in H. rewrite rev_involutive, rev_unit in H.
  exact (trimStart_head _ _ _ H).
Qed.

Lemma endsWith_iff (s p : jsstring) :
  endsWith s p = true <-> exists q, s = q ++ p.
Proof.
  unfold endsWith, str_eqb. split.
  - intros H. apply andb_true_iff in H as [_ H].
    apply bool_decide_eq_true_1 in H.
    exists (firstn (length s - length p) s).
    rewrite <- (firstn_skipn (length s - length p) s) at 1. now rewrite H.
  - intros [q ->]. apply andb_true_iff. split.
    + apply Nat.leb_le. rewrite length_app. lia.
    + apply bool_decide_eq_true_2. rewrite length_app.
      replace (length q + length p - length p) with (length q) by lia.
      now rewrite skipn_app, skipn_all, Nat.sub_diag.
Qed.

(** Trimming a text whose last character is not white space only removes
    leading white space. *)
Lemma trim_nonws_last (x : jsstring) (c : N) :
  is_ws c = false ->
  exists w y, x = w ++ y /\ forallb is_ws w = true
              /\ trim (x ++ [c]) = y ++ [c].
Proof.
  intros Hc. unfold trim.
  induction x as [|d x IH].
  - exists [], []. repeat split. cbn [app trimStart]. rewrite Hc.
    apply (trimEnd_fixed [] c Hc).
  - cbn [app trimStart]. destruct (is_ws d) eqn:Hd.
    + destruct IH as (w & y & Hx & Hw & Htrim).
      exists (d :: w), y. repeat split.
      * cbn [app]. now f_equal.
      * cbn [forallb]. now rewrite Hd, Hw.
      * exact Htrim.
    + exists [], (d :: x). repeat split.
      apply (trimEnd_fixed (d :: x) c Hc).
Qed.

Lemma trim_ws_app (w q : jsstring) :
  forallb is_ws w = true -> trim (w ++ q) = trim q.
Proof. intros Hw. unfold trim. now rewrite trimStart_ws_app. Qed.

Lemma trim_last_not_ws (t r : jsstring) (c : N) :
  trim t = r ++ [c] -> is_ws c = false.
Proof. unfold trim. apply trimEnd_last. Qed.

(** C2, as stated, fails: a template that ends with white space is a
    suffix of the text but not of the trimmed text, so nothing is cut. *)
Lemma template_with_trailing_space_not_cut :
  let T := js "Hello Bob, Regards " in
  let S := js "Regards " in
  endsWith T S = true
  /\ 5 < length S
  /\ stripSignature T (Some S) = js "Hello Bob, Regards"
  /\ stripSignature T (Some S) <> trim (firstn (length T - length S) T).
Proof.
  intros T S.
  split; [vm_compute; reflexivity|]. split; [vm_compute; lia|].
  split; [vm_compute; reflexivity|]. vm_compute; discriminate.
Qed.

(** C2, amended: for all text [T] and template [S] longer than five code
    units, if [T] ends with [S] and the trimmed [T] still ends with [S],
    the signature detector returns [T] with the trailing [S] removed and
    the remaining prefix trimmed. *)
Theorem template_suffix_removed (T S : jsstring) :
  5 < length S ->
  endsWith T S = true ->
  endsWith (trim T) S = true ->
  stripSignature T (Some S) = trim (firstn (length T - length S) T).
Proof.
  intros Hlen HT Htrim.
  unfold stripSignature. rewrite Htrim.
  assert (HS : S <> []) by (destruct S; [cbn in Hlen; lia|discriminate]).
  replace (str_eqb S []) with false
    by (symmetry; now apply bool_decide_eq_false_2).
  replace (5 <? length S) with true by (symmetry; now apply Nat.ltb_lt).
  cbn [negb andb]. unfold substring0.
  apply endsWith_iff in HT as [P HP]. apply endsWith_iff in Htrim as [Q HQ].
  destruct (exists_last HS) as (S' & c & HSc).
  assert (Hc : is_ws c = false).
  { apply (trim_last_not_ws T (Q ++ S')). rewrite HQ, HSc.
    now rewrite <- app_assoc. }
  destruct (trim_nonws_last (P ++ S') c Hc) as (w & y & Hsplit & Hw & Hy).
  assert (HyQ : y = Q ++ S').
  { apply (app_inv_tail [c]). rewrite <- Hy, <- !app_assoc, <- HSc.
    rewrite <- HP. exact HQ. }
  assert (HPw : P = w ++ Q).
  { apply (app_inv_tail S'). rewrite Hsplit, HyQ. now rewrite app_assoc. }
  rewrite HQ at 1 2. rewrite HP.
  rewrite !length_app.
  replace (length Q + length S - length S) with (length Q) by lia.
  replace (length P + length S - length S) with (length P) by lia.
  rewrite !firstn_app, !firstn_all, !Nat.sub_diag, !firstn_O, !app_nil_r.
  rewrite HPw. symmetry. now apply trim_ws_app.
Qed.

Lemma trimEnd_split (x : jsstring) : exists w, x = trimEnd x ++ w.
Proof.
  destruct (trimStart_split (rev x)) as (w & Hx & _).
  exists (rev w). unfold trimEnd.
  rewrite <- rev_app_distr, <- Hx. now rewrite rev_involutive.
Qed.

Lemma trim_first_not_ws (s r : jsstring) (c : N) :
  trim s = c :: r -> is_ws c = false.
Proof.
  unfold trim. intros H.
  destruct (trimEnd_split (trimStart s)) as (w & Hw).
  rewrite H in Hw. exact (trimStart_head _ _ _ Hw).
Qed.

Lemma trimStart_keeps_suffix (p r : jsstring) (e : N) :
  is_ws e = false -> exists y, trimStart (p ++ e :: r) = y ++ e :: r.
Proof.
  intros He. induction p as [|d p IH].
  - exists []. cbn [app trimStart]. now rewrite He.
  - cbn [app trimStart]. destruct (is_ws d).
    + exact IH.
    + now exists (d :: p).
Qed.

(** A template free of leading and trailing white space, as the captured
    one is, is still a suffix after trimming. *)
Lemma trimmed_template_survives (T S : jsstring) :
  S <> [] -> trim S = S -> endsWith T S = true -> endsWith (trim T) S = true.
Proof.
  intros HS Htrim HT.
  apply endsWith_iff in HT as [P ->]. apply endsWith_iff.
  destruct S as [|e S1]; [congruence|].
  assert (He : is_ws e = false) by exact (trim_first_not_ws _ _ _ Htrim).
  destruct (exists_last HS) as (S' & c & HSc).
  assert (Hc : is_ws c = false).
  { apply (trim_last_not_ws (e :: S1) S'). now rewrite Htrim. }
  destruct (trimStart_keeps_suffix P S1 e He) as (y & Hy).
  exists y. unfold trim. rewrite Hy, HSc, app_assoc.
  now apply trimEnd_fixed.
Qed.

Lemma template_suffix_removed_witness :
  let T := js " Thanks a lot." ++ nl ++ js "John Smith" in
  let S := js "John Smith" in
  5 < length S
  /\ endsWith T S = true
  /\ endsWith (trim T) S = true
  /\ stripSignature T (Some S) = js "Thanks a lot.".
Proof.
  intros T S.
  assert (Hlen : 5 < length S) by (vm_compute; lia).
  assert (HT : endsWith T S = true) by (vm_compute; reflexivity).
  assert (Htrim : endsWith (trim T) S = true) by (vm_compute; reflexivity).
  split; [exact Hlen|]. split; [exact HT|]. split; [exact Htrim|].
  rewrite (template_suffix_removed T S Hlen HT Htrim).
  vm_compute. reflexivity.
Defined.

(** ** Preservable fragments *)

Section node_induction.
Variable P : node -> Prop.
Hypothesis HText : forall d, P (Text d).
Hypothesis HComment : forall d, P (Comment d).
Hypothesis HElem :
  forall tag attrs cs, Forall P cs -> P (Elem tag attrs cs).

Fixpoint node_induction (n : node) : P n :=
  match n with
  | Text d => HText d
  | Comment d => HComment d
  | Elem tag attrs cs =>
      HElem tag attrs cs
        ((fix all (l : list node) : Forall P l :=
            match l with
            | [] => @List.Forall_nil _ P
            | c :: l' => @List.Forall_cons _ P c l' (node_induction c) (all l')
            end) cs)
  end.
End node_induction.

Lemma elementsOf_Elem (p : path) tag attrs cs :
  elementsOf p (Elem tag attrs cs)
  = (p, Elem tag attrs cs) :: elementsIn p 0 cs.
Proof.
  cbn [elementsOf]. f_equal. generalize 0.
  induction cs as [|c cs IH]; intros i; [reflexivity|].
  cbn [elementsIn]. f_equal. apply IH.
Qed.

(** Every element listed below the node [p] has a path that extends [p]. *)
Lemma elementsOf_longer (n : node) :
  forall (p : path) (pn : path * node),
    In pn (elementsOf p n) -> length p <= length (fst pn).
Proof.
  induction n as [d|d|tag attrs cs IH] using node_induction; intros p pn.
  1, 2: intros [].
  rewrite elementsOf_Elem. intros [<-|Hin]; [cbn; lia|].
  revert Hin. generalize 0.
  induction IH as [|c cs Hc _ IHcs]; intros i; [intros []|].
  cbn [elementsIn]. rewrite in_app_iff. intros [Hin|Hin].
  - apply Hc in Hin. cbn [length] in Hin. lia.
  - now apply (IHcs (S i)).
Qed.

Lemma elementsIn_longer (l : list node) :
  forall (p : path) (i : nat) (pn : path * node),
    In pn (elementsIn p i l) -> length p < length (fst pn).
Proof.
  induction l as [|c l IH]; intros p i pn; [intros []|].
  cbn [elementsIn]. rewrite in_app_iff. intros [Hin|Hin].
  - apply elementsOf_longer in Hin. cbn [length] in Hin. lia.
  - now apply (IH p (S i)).
Qed.

(** A descendant of [temp] is never [temp] itself. *)
Lemma descendant_path_nonempty (temp : list node) (pn : path * node) :
  In pn (descendants temp) -> fst pn <> [].
Proof.
  intros Hin Hnil. apply elementsIn_longer in Hin.
  rewrite Hnil in Hin. cbn in Hin. lia.
Qed.

Lemma head_In {A : Type} (l : list A) (x : A) : head l = Some x -> In x l.
Proof. destruct l; [discriminate|]. intros [= ->]. now left. Qed.

Lemma querySelectorAll_descendants sels temp pn :
  In pn (querySelectorAll sels temp) -> In pn (descendants temp).
Proof. unfold querySelectorAll. intros H. now apply filter_In in H. Qed.

Lemma querySelector_descendant sel temp pn :
  querySelector sel temp = Some pn -> In pn (descendants temp).
Proof.
  intros H. apply head_In in H. now apply querySelectorAll_descendants in H.
Qed.

Lemma firstSelected_descendant sels temp pn :
  firstSelected sels temp = Some pn -> In pn (descendants temp).
Proof.
  induction sels as [|sel sels IH]; [discriminate|].
  cbn [firstSelected]. destruct (querySelector sel temp) eqn:Hq.
  - intros [= <-]. now apply querySelector_descendant in Hq.
  - exact IH.
Qed.

Lemma findThread_descendant temp pn :
  findThreadByMarkersOrText temp = Some pn -> In pn (descendants temp).
Proof.
  unfold findThreadByMarkersOrText.
  destruct (firstSelected threadMarkers temp) eqn:Hm.
  - intros [= <-]. now apply firstSelected_descendant in Hm.
  - intros H. apply find_some in H as [H _].
    now apply querySelectorAll_descendants in H.
Qed.

Lemma findSignature_descendant temp template pn :
  findSignature temp template = Some pn -> In pn (descendants temp).
Proof.
  unfold findSignature.
  destruct (firstSelected signatureMarkers temp) eqn:Hm.
  { intros [= <-]. now apply firstSelected_descendant in Hm. }
  match goal with
  | |- match ?byTemplate with _ => _ end = _ -> _ =>
      destruct byTemplate as [r|] eqn:Ht
  end.
  - intros [= <-]. destruct template as [t|]; [|discriminate].
    destruct (negb (str_eqb t []) && (5 <? length t)); [|discriminate].
    apply find_some in Ht as [Ht _]. apply in_rev in Ht.
    now apply querySelectorAll_descendants in Ht.
  - intros H. apply find_some in H as [H _].
    now apply querySelectorAll_descendants in H.
Qed.

(** The walk up ends on a child of [temp]. *)
Lemma walkUp_top (p : path) : p <> [] -> exists k, walkUp p = [k].
Proof.
  induction p as [|a p IH]; [congruence|]. intros _.
  destruct p as [|b p]; [now exists a|].
  destruct p as [|c p]; [now exists b|].
  cbn [walkUp]. apply IH. discriminate.
Qed.

Lemma skipn_min (k : nat) (l : list node) :
  skipn k l = skipn (Nat.min k (length l)) l.
Proof.
  destruct (Nat.le_gt_cases k (length l)) as [H|H].
  - now rewrite Nat.min_l.
  - rewrite Nat.min_r by lia. rewrite !skipn_all2 by lia. reflexivity.
Qed.

Lemma firstn_min (k : nat) (l : list node) :
  firstn k l = firstn (Nat.min k (length l)) l.
Proof.
  destruct (Nat.le_gt_cases k (length l)) as [H|H].
  - now rewrite Nat.min_l.
  - rewrite Nat.min_r by lia. rewrite !firstn_all2 by lia. reflexivity.
Qed.

(** The thread fragment is a tail of the children of [temp], and the tree
    searched for the signature is what precedes that tail. *)
Lemma extractThread_cut (temp : list node) :
  exists k, k <= length temp
            /\ extractThread temp = (skipn k temp, firstn k temp).
Proof.
  unfold extractThread.
  destruct (findThreadByMarkersOrText temp) as [[p n]|] eqn:Hfind.
  - apply findThread_descendant, descendant_path_nonempty in Hfind.
    destruct (walkUp_top p Hfind) as [k0 ->].
    exists (Nat.min k0 (length temp)). split; [lia|].
    cbn [fromNodeOn removeFromNodeOn rev childrenAlong truncateAlong].
    now rewrite <- skipn_min, <- firstn_min.
  - exists (length temp). split; [lia|].
    now rewrite skipn_all, firstn_all.
Qed.

(** The signature fragment is a tail of the tree it is searched in. *)
Lemma extractSignature_cut (rest : list node) (template : option jsstring) :
  exists j, j <= length rest
            /\ extractSignature rest template = skipn j rest.
Proof.
  unfold extractSignature.
  destruct (findSignature rest template) as [[q n]|] eqn:Hfind.
  - apply findSignature_descendant, descendant_path_nonempty in Hfind.
    destruct (walkUp_top q Hfind) as [j0 ->].
    exists (Nat.min j0 (length rest)). split; [lia|].
    cbn [fromNodeOn rev childrenAlong]. apply skipn_min.
  - exists (length rest). split; [lia|]. now rewrite skipn_all.
Qed.

(** C6: for every document and every session template there are
    positions [j <= k] among the children of the root such that the thread
    fragment is the children from [k] on, the tree in which the signature
    is searched is the children before [k], and the signature fragment is
    the children from [j] up to [k]: the document is the draft, then the
    signature nodes, then the thread nodes, and the two returned strings
    serialise node ranges that do not overlap. *)
Theorem preserved_fragments_disjoint
    (temp : list node) (template : option jsstring) :
  exists j k : nat,
    j <= k /\ k <= length temp
    /\ extractThread temp = (skipn k temp, firstn k temp)
    /\ extractSignature (firstn k temp) template
       = firstn (k - j) (skipn j temp)
    /\ extractPreservedContent temp template
       = Preserved (innerHTML (firstn (k - j) (skipn j temp)))
                   (innerHTML (skipn k temp))
    /\ temp = firstn j temp ++ firstn (k - j) (skipn j temp) ++ skipn k temp.
Proof.
  destruct (extractThread_cut temp) as (k & Hk & Hthread).
  destruct (extractSignature_cut (firstn k temp) template) as (j & Hj & Hsig).
  rewrite length_firstn, Nat.min_l in Hj by exact Hk.
  rewrite skipn_firstn_comm in Hsig.
  exists j, k. split; [exact Hj|]. split; [exact Hk|].
  split; [exact Hthread|]. split; [exact Hsig|]. split.
  - unfold extractPreservedContent, extractPreservedNodes.
    rewrite Hthread, Hsig. reflexivity.
  - rewrite <- (firstn_skipn j temp) at 1. f_equal.
    rewrite <- (firstn_skipn (k - j) (skipn j temp)) at 1. f_equal.
    rewrite skipn_skipn. f_equal. lia.
Qed.

(** ** The signature detector: closing phrases *)

Lemma indexOfCI_spec (p : jsstring) :
  forall (s : jsstring) (n : nat),
    indexOfCI s p = Some n <->
    startsWithCI (skipn n s) p = true
    /\ n <= length s
    /\ forall m, m < n -> startsWithCI (skipn m s) p = false.
Proof.
  induction s as [|d s IH]; intros n.
  - cbn [indexOfCI]. destruct (startsWithCI [] p) eqn:E; split.
    + intros [= <-]. cbn. split; [exact E|]. split; [lia|]. intros m Hm; lia.
    + intros (_ & Hn & _). cbn in Hn. f_equal; lia.
    + discriminate.
    + intros (H & Hn & _). cbn in Hn. replace n with 0 in H by lia.
      cbn [skipn] in H. congruence.
  - cbn [indexOfCI]. destruct (startsWithCI (d :: s) p) eqn:E; split.
    + intros [= <-]. split; [exact E|]. split; [cbn; lia|]. intros m Hm; lia.
    + intros (_ & _ & Hfirst). destruct n as [|n]; [reflexivity|].
      specialize (Hfirst 0 ltac:(lia)). cbn [skipn] in Hfirst. congruence.
    + destruct (indexOfCI s p) as [k|] eqn:Hk; [|discriminate].
      intros [= <-]. destruct (proj1 (IH k) eq_refl) as (H1 & H2 & H3).
      split; [exact H1|]. split; [cbn; lia|].
      intros [|m] Hm; [exact E|]. apply H3. lia.
    + intros (H1 & H2 & H3). destruct n as [|n].
      { cbn [skipn] in H1. congruence. }
      assert (Hk : indexOfCI s p = Some n).
      { apply IH. split; [exact H1|]. split; [cbn in H2; lia|].
        intros m Hm. apply (H3 (S m)). lia. }
      now rewrite Hk.
Qed.

Lemma startsWithCI_length (p : jsstring) :
  forall s, startsWithCI s p = true -> length p <= length s.
Proof.
  induction p as [|c p IH]; intros s; [cbn; lia|].
  destruct s as [|d s]; [discriminate|].
  cbn [startsWithCI]. intros H. apply andb_true_iff in H as [_ H].
  apply IH in H. cbn [length]. lia.
Qed.

Lemma skipn_nth_error_Some (s : jsstring) :
  forall (i : nat) (d : N),
    nth_error s i = Some d -> skipn i s = d :: skipn (S i) s.
Proof.
  induction s as [|c s IH]; intros [|i] d; try discriminate.
  - now intros [= ->].
  - cbn [nth_error]. intros H. now apply IH in H.
Qed.

Lemma skipn_nth_error_None (s : jsstring) (i : nat) :
  nth_error s i = None -> skipn i s = [].
Proof. intros H. apply skipn_all2. now apply nth_error_None. Qed.

(** A literal under [i] matches exactly where the text starts with it,
    letter case aside, and consumes it. *)
Lemma run_liti (s p : jsstring) :
  forall (i : nat) (c : option (nat * nat)),
    run (liti p) s (MState i c)
    = if startsWithCI (skipn i s) p then [MState (i + length p) c] else [].
Proof.
  induction p as [|a p IH]; intros i c.
  - cbn. now rewrite Nat.add_0_r.
  - change (liti (a :: p)) with (Seq (chri a) (liti p)).
    cbn [run chri pos cap]. unfold char_at.
    destruct (nth_error s i) as [d|] eqn:Hd.
    + rewrite (skipn_nth_error_Some s i d Hd). cbn [startsWithCI].
      destruct (canon d =? canon a)%N; cbn [flat_map andb]; [|reflexivity].
      rewrite IH, app_nil_r. cbn [length].
      now replace (S i + length p) with (i + S (length p)) by lia.
    + rewrite (skipn_nth_error_None s i Hd). reflexivity.
Qed.

Lemma head_app_Some {A : Type} (l1 l2 : list A) (x : A) :
  head l1 = Some x -> head (l1 ++ l2) = Some x.
Proof. destruct l1; [discriminate|]. now cbn. Qed.

(** The greedy [[\s\S]*] first runs to the end of the text. *)
Lemma rep_any_to_end (s : jsstring) (c : option (nat * nat)) :
  forall (fuel i : nat),
    length s - i < fuel -> i <= length s ->
    head (rep_loop (run any s) fuel true 0 None (MState i c))
    = Some (MState (length s) c).
Proof.
  induction fuel as [|fuel IH]; intros i Hfuel Hi; [lia|].
  cbn [rep_loop Nat.eqb negb andb]. cbn [run any pos cap]. unfold char_at.
  destruct (nth_error s i) as [d|] eqn:Hd.
  - assert (Hlt : i < length s) by (apply nth_error_Some; congruence).
    cbn [flat_map pos]. replace (S i =? i) with false
      by (symmetry; apply Nat.eqb_neq; lia).
    rewrite app_nil_r. apply head_app_Some. apply IH; lia.
  - apply nth_error_None in Hd. cbn [flat_map app head].
    f_equal. f_equal. lia.
Qed.

Lemma match_at_closing (s phrase : jsstring) (i : nat) :
  match_at (closing phrase) s i
  = if startsWithCI (skipn i s) (nl ++ phrase)
    then Some (MState (length s) None) else None.
Proof.
  unfold match_at, closing. cbn [run]. rewrite run_liti.
  destruct (startsWithCI (skipn i s) (nl ++ phrase)) eqn:E; [|reflexivity].
  cbn [flat_map]. rewrite app_nil_r.
  apply startsWithCI_length in E. rewrite length_skipn in E.
  change (nl ++ phrase) with (10%N :: phrase) in *. cbn [length] in E |- *.
  apply rep_any_to_end; cbn [Nat.add]; lia.
Qed.

Lemma search_closing (s phrase : jsstring) :
  forall (n i : nat),
    i + n = length s ->
    search (closing phrase) s i n
    = (fun j => (i + j, MState (length s) None))
        <$> indexOfCI (skipn i s) (nl ++ phrase).
Proof.
  induction n as [|n IH]; intros i Hi.
  - cbn [search]. rewrite match_at_closing.
    rewrite skipn_all2 by lia. cbn [indexOfCI].
    destruct (startsWithCI [] (nl ++ phrase)); cbn; [|reflexivity].
    now rewrite Nat.add_0_r.
  - cbn [search]. rewrite match_at_closing.
    destruct (nth_error s i) as [d|] eqn:Hd.
    2:{ apply nth_error_None in Hd. lia. }
    rewrite (skipn_nth_error_Some s i d Hd). cbn [indexOfCI].
    destruct (startsWithCI (d :: skipn (S i) s) (nl ++ phrase)).
    + cbn. now rewrite Nat.add_0_r.
    + rewrite IH by lia.
      destruct (indexOfCI (skipn (S i) s) (nl ++ phrase)); cbn; [|reflexivity].
      do 2 f_equal. lia.
Qed.

Lemma exec_closing (s phrase : jsstring) :
  exec (closing phrase) s
  = (fun j => (j, MState (length s) None)) <$> indexOfCI s (nl ++ phrase).
Proof.
  unfold exec, exec_from. cbn [Nat.ltb Nat.leb].
  rewrite search_closing by lia. reflexivity.
Qed.

(** Replacing a closing-phrase pattern by nothing keeps what precedes the
    first line that starts with the phrase. *)
Lemma replace_closing (s phrase : jsstring) (n : nat) :
  indexOfCI s (nl ++ phrase) = Some n ->
  test (closing phrase) s = true
  /\ replace (closing phrase) [] s = firstn n s.
Proof.
  intros Hn. unfold test, replace. rewrite exec_closing, Hn. cbn.
  split; [reflexivity|]. rewrite skipn_all. apply app_nil_r.
Qed.

(** C5, as stated, fails: when a [--] separator line follows the
    "Best regards," line, the separator pattern is tried first and the cut
    is made there; the "Best regards," line stays. *)
Lemma best_regards_line_kept_before_separator :
  let T := js "Hi" ++ nl ++ js "Best regards," ++ nl ++ js "Bob" ++ nl
           ++ js "-- " ++ nl ++ js "footer" in
  stripSignature T None = js "Hi" ++ nl ++ js "Best regards," ++ nl ++ js "Bob"
  /\ includes (stripSignature T None) (nl ++ js "Best regards,") = true.
Proof. split; vm_compute; reflexivity. Qed.

(** C5, amended: for every text [T], with no template, whose trimmed form
    has no "--" separator line (no match of the pattern tried first) and
    has its first line break followed by "Best regards," (letter case
    aside) at index [n], signature stripping returns the trimmed text
    before index [n], trimmed: that line and all that follows are gone. *)
Theorem best_regards_cut (T : jsstring) (n : nat) :
  test dashSeparator (trim T) = false ->
  indexOfCI (trim T) (nl ++ js "Best regards,") = Some n ->
  stripSignature T None = trim (firstn n (trim T)).
Proof.
  intros Hsep Hn.
  destruct (replace_closing (trim T) (js "Best regards,") n Hn) as [Htest Hcut].
  unfold stripSignature, signaturePatterns. cbn [find].
  rewrite Hsep, Htest, Hcut. reflexivity.
Qed.

Lemma best_regards_cut_witness :
  let T := js " Hello Ann," ++ nl ++ js "see you Monday." ++ nl
           ++ js "BEST REGARDS," ++ nl ++ js "Bob" ++ nl ++ js "+1 555 0100 " in
  test dashSeparator (trim T) = false
  /\ indexOfCI (trim T) (nl ++ js "Best regards,") = Some 26
  /\ stripSignature T None = js "Hello Ann," ++ nl ++ js "see you Monday.".
Proof.
  intros T.
  assert (Hsep : test dashSeparator (trim T) = false) by (vm_compute; reflexivity).
  assert (Hn : indexOfCI (trim T) (nl ++ js "Best regards,") = Some 26)
    by (vm_compute; reflexivity).
  split; [exact Hsep|]. split; [exact Hn|].
  rewrite (best_regards_cut T 26 Hsep Hn). vm_compute. reflexivity.
Defined.

(* ===================================================================== *)
(** * Further properties of the modelled code *)
(* ===================================================================== *)

(** ** Trimming *)

Lemma trim_idempotent (s : jsstring) : trim (trim s) = trim s.
Proof.
  destruct (trim s) as [|c r] eqn:E; [reflexivity|].
  assert (Hc : is_ws c = false) by exact (trim_first_not_ws _ _ _ E).
  assert (Hne : c :: r <> []) by discriminate.
  destruct (exists_last Hne) as (r' & d & Hr). rewrite Hr in E.
  assert (Hd : is_ws d = false) by exact (trim_last_not_ws _ _ _ E).
  unfold trim at 1. cbn [trimStart]. rewrite Hc, Hr.
  now apply trimEnd_fixed.
Qed.

Lemma trim_length (s : jsstring) : length (trim s) <= length s.
Proof.
  unfold trim.
  destruct (trimStart_split s) as (w & Hw & _).
  destruct (trimEnd_split (trimStart s)) as (w' & Hw').
  apply (f_equal (@length N)) in Hw, Hw'. rewrite length_app in Hw, Hw'. lia.
Qed.

(** ** The signature detector only cuts a tail *)

Lemma head_flat_map {A B : Type} (f : A -> list B) (l : list A) (y : B) :
  head (flat_map f l) = Some y -> exists x, In x l /\ head (f x) = Some y.
Proof.
  induction l as [|x l IH]; [discriminate|].
  cbn [flat_map]. destruct (f x) as [|z zs] eqn:E.
  - intros H. destruct (IH H) as (x' & Hin & Hx'). exists x'. split;
      [now right|exact Hx'].
  - cbn. intros [= <-]. exists x. split; [now left|]. now rewrite E.
Qed.

Lemma tail_any_reaches_end (r : regex) (s : jsstring) :
  tail_any r ->
  forall st st', pos st <= length s ->
    head (run r s st) = Some st' -> pos st' = length s.
Proof.
  induction 1 as [|a r Hr IH]; intros st st' Hpos Hhead.
  - destruct st as [i c]. cbn [pos] in Hpos.
    unfold star in Hhead. cbn [run] in Hhead.
    rewrite (rep_any_to_end s c (S (0 + length s)) i) in Hhead
      by (cbn [Nat.add]; lia).
    now injection Hhead as <-.
  - cbn [run] in Hhead. apply head_flat_map in Hhead as (mid & Hmid & Hhead).
    apply run_forward in Hmid. apply (IH mid st'); [lia|exact Hhead].
Qed.

Lemma search_found (r : regex) (s : jsstring) :
  forall (n i j : nat) (st : mstate),
    search r s i n = Some (j, st) ->
    i <= j <= i + n /\ match_at r s j = Some st.
Proof.
  induction n as [|n IH]; intros i j st; cbn [search];
    destruct (match_at r s i) as [st0|] eqn:E.
  - intros [= <- <-]. split; [lia|exact E].
  - discriminate.
  - intros [= <- <-]. split; [lia|exact E].
  - intros H. apply IH in H as [H1 H2]. split; [lia|exact H2].
Qed.

Lemma exec_found (r : regex) (s : jsstring) (j : nat) (st : mstate) :
  exec r s = Some (j, st) -> j <= length s /\ match_at r s j = Some st.
Proof.
  unfold exec, exec_from. cbn [Nat.ltb Nat.leb]. intros H.
  apply search_found in H as [H1 H2]. split; [lia|exact H2].
Qed.

(** Removing the match of such a pattern leaves a prefix of the text. *)
Lemma replace_tail_any (r : regex) (s : jsstring) :
  tail_any r -> exists n, replace r [] s = firstn n s.
Proof.
  intros Hr. unfold replace. destruct (exec r s) as [[j st]|] eqn:E.
  - exists j. apply exec_found in E as [Hj Hm]. unfold match_at in Hm.
    rewrite (tail_any_reaches_end r s Hr (MState j None) st Hj Hm).
    cbn [expand flat_map app]. rewrite skipn_all. apply app_nil_r.
  - exists (length s). now rewrite firstn_all.
Qed.

Lemma signaturePatterns_tail_any : Forall tail_any signaturePatterns.
Proof.
  unfold signaturePatterns, closing, dashSeparator. cbn [seqs].
  repeat (apply List.Forall_cons; [repeat constructor|]).
  apply List.Forall_nil.
Qed.

Lemma split_nl_nonempty (s : jsstring) : split_nl s <> [].
Proof.
  destruct s as [|c s]; cbn [split_nl]; [discriminate|].
  destruct (c =? 10)%N; [discriminate|]. destruct (split_nl s); discriminate.
Qed.

(** The first lines of a text, joined again, are a prefix of the text. *)
Lemma join_lines_prefix (s : jsstring) :
  forall i, exists n, join nl (firstn i (split_nl s)) = firstn n s.
Proof.
  induction s as [|c s IH]; intros [|i]; try (now exists 0).
  - exists 0. destruct i; reflexivity.
  - cbn [split_nl]. destruct (c =? 10)%N eqn:Hc.
    + apply N.eqb_eq in Hc. subst c. cbn [firstn].
      destruct (IH i) as (n & Hn).
      destruct (firstn i (split_nl s)) as [|l ls] eqn:E.
      * now exists 0.
      * exists (S n). cbn [join firstn]. cbn [join] in Hn.
        change (nl ++ ?x) with (10%N :: x). now rewrite <- Hn.
    + destruct (IH (S i)) as (n & Hn).
      destruct (split_nl s) as [|l ls] eqn:E;
        [now destruct (split_nl_nonempty s)|].
      cbn [firstn] in Hn |- *. exists (S n). cbn [firstn]. rewrite <- Hn.
      destruct (firstn i ls); reflexivity.
Qed.

Lemma stripSignature_prefix (text : jsstring) (template : option jsstring) :
  exists n, stripSignature text template = trim (firstn n (trim text)).
Proof.
  { unfold stripSignature.
    match goal with
    | |- exists n, match ?byTemplate with _ => _ end = _ =>
        destruct byTemplate as [r|] eqn:Ht
    end.
    { destruct template as [t|]; [|discriminate].
      destruct (negb (str_eqb t []) && (5 <? length t) && endsWith (trim text) t);
        [|discriminate].
      injection Ht as <-. eexists. reflexivity. }
    destruct (find (fun pattern => test pattern (trim text)) signaturePatterns)
      as [pattern|] eqn:Hfind.
    { apply find_some in Hfind as [Hin _].
      pose proof signaturePatterns_tail_any as Hall.
      rewrite List.Forall_forall in Hall.
      destruct (replace_tail_any pattern (trim text) (Hall _ Hin)) as (n & ->).
      now exists n. }
    destruct (3 <? length (split_nl (trim text))).
    - destruct (structuralCut (split_nl (trim text))) as [i|].
      + destruct (join_lines_prefix (trim text) i) as (n & ->). now exists n.
      + exists (length (trim text)).
        now rewrite firstn_all, trim_idempotent.
    - exists (length (trim text)). now rewrite firstn_all, trim_idempotent. }
Qed.

Lemma stripSignature_trimmed (text : jsstring) (template : option jsstring) :
  trim (stripSignature text template) = stripSignature text template.
Proof.
  destruct (stripSignature_prefix text template) as (n & ->).
  apply trim_idempotent.
Qed.

(** X1: whatever the text and the template, [stripSignature] returns the
    trimmed form of a prefix of the trimmed text: it only ever drops a
    tail.  Its result is therefore free of leading and trailing white
    space and never longer than the text. *)
Theorem stripSignature_cuts_a_tail (text : jsstring) (template : option jsstring) :
  (exists n, stripSignature text template = trim (firstn n (trim text)))
  /\ trim (stripSignature text template) = stripSignature text template
  /\ length (stripSignature text template) <= length text.
Proof.
  split; [apply stripSignature_prefix|].
  split; [apply stripSignature_trimmed|].
  destruct (stripSignature_prefix text template) as (n & ->).
  etransitivity; [apply trim_length|]. rewrite length_firstn.
  pose proof (trim_length text). lia.
Qed.

(** ** The session texts *)

Lemma cleanThreadContent_trimmed (text : jsstring) :
  trim (cleanThreadContent text) = cleanThreadContent text.
Proof.
  unfold cleanThreadContent. destruct text; [reflexivity|].
  apply trim_idempotent.
Qed.

Lemma parseEmailHtml_trimmed (temp : list node) :
  trim (currentMessage (parseEmailHtml temp)) = currentMessage (parseEmailHtml temp)
  /\ trim (threadContent (parseEmailHtml temp)) = threadContent (parseEmailHtml temp).
Proof.
  unfold parseEmailHtml. destruct (locateThreadStart temp) as [[q n]|].
  - destruct (splitBefore 0 temp q) as [before thread].
    cbn [currentMessage threadContent]. split; apply trim_idempotent.
  - cbn [currentMessage threadContent]. split;
      [apply trim_idempotent|reflexivity].
Qed.

Lemma capture_keeps_textsTrimmed (st : session) (r : bodyRead) :
  textsTrimmed st -> textsTrimmed (captureEmailBody st r).
Proof.
  intros (Hb & Ht & Htpl). unfold captureEmailBody.
  destruct (succeeded r); [|now repeat split].
  split; [|split]; cbn [currentEmailBody currentThreadContent initialBodyTemplate].
  - apply stripSignature_trimmed.
  - destruct (includeThread r); [apply cleanThreadContent_trimmed|reflexivity].
  - intros t. destruct (initialBodyTemplate st) as [t0|] eqn:E.
    + intros [= <-]. now apply Htpl.
    + intros [= <-]. apply trim_idempotent.
Qed.

(** X2: along any sequence of body reads, starting from the state the
    task pane opens with, the captured body, the captured thread text and
    the signature template (once there is one) are free of leading and
    trailing white space. *)
Theorem session_texts_stay_trimmed (reads : list bodyRead) :
  textsTrimmed (runCaptures initialSession reads).
Proof.
  assert (Hgen : forall st, textsTrimmed st -> textsTrimmed (runCaptures st reads)).
  { induction reads as [|r reads IH]; intros st Hst; [exact Hst|].
    cbn [runCaptures fold_left]. apply IH. now apply capture_keeps_textsTrimmed. }
  apply Hgen. repeat split. intros t. discriminate.
Qed.

(** X3: the periodic capture is idempotent: reading the same body twice in
    a row leaves the session as the first read left it. *)
Theorem capture_idempotent (st : session) (r : bodyRead) :
  captureEmailBody (captureEmailBody st r) r = captureEmailBody st r.
Proof.
  unfold captureEmailBody at 2 3.
  destruct (succeeded r) eqn:Hs.
  - unfold captureEmailBody. rewrite Hs. cbn [initialBodyTemplate].
    destruct (initialBodyTemplate st); reflexivity.
  - unfold captureEmailBody. now rewrite Hs.
Qed.

Lemma endsWith_refl (s : jsstring) : endsWith s s = true.
Proof. apply endsWith_iff. now exists []. Qed.

(** X4: on the read that captures the template, a current-message text
    longer than five code units is taken whole as the signature: the
    captured draft body is empty. *)
Theorem first_capture_takes_text_as_signature (st : session) (r : bodyRead) :
  initialBodyTemplate st = None ->
  succeeded r = true ->
  5 < length (currentMessage (parseEmailHtml (document r))) ->
  currentEmailBody (captureEmailBody st r) = []
  /\ initialBodyTemplate (captureEmailBody st r)
     = Some (currentMessage (parseEmailHtml (document r))).
Proof.
  intros Hnull Hok Hlen. unfold captureEmailBody. rewrite Hok, Hnull.
  cbn [currentEmailBody initialBodyTemplate].
  destruct (parseEmailHtml_trimmed (document r)) as [Htrim _].
  rewrite Htrim. split; [|reflexivity].
  unfold stripSignature. rewrite Htrim, endsWith_refl.
  replace (str_eqb (currentMessage (parseEmailHtml (document r))) []) with false.
  2:{ symmetry. apply bool_decide_eq_false_2. intros E. rewrite E in Hlen.
      cbn in Hlen. lia. }
  replace (5 <? length (currentMessage (parseEmailHtml (document r)))) with true
    by (symmetry; now apply Nat.ltb_lt).
  cbn [negb andb]. unfold substring0. now rewrite Nat.sub_diag.
Qed.

Lemma first_capture_takes_text_as_signature_witness :
  let r := BodyRead true roundTripMarkup roundTripDocument true in
  5 < length (currentMessage (parseEmailHtml (document r)))
  /\ currentEmailBody (captureEmailBody initialSession r) = []
  /\ initialBodyTemplate (captureEmailBody initialSession r)
     = Some (js "Hello world").
Proof.
  intros r.
  assert (Hlen : 5 < length (currentMessage (parseEmailHtml (document r))))
    by (vm_compute; lia).
  destruct (first_capture_takes_text_as_signature initialSession r
              eq_refl eq_refl Hlen) as [Hbody Htpl].
  split; [exact Hlen|]. split; [exact Hbody|].
  rewrite Htpl. vm_compute. reflexivity.
Defined.

(** ** The regions of the compose document *)

(** An element listed below a node has a path that extends the node's. *)
Lemma elementsOf_extends (c : node) :
  forall (p : path) (pn : path * node),
    In pn (elementsOf p c) ->
    isElement c = true /\ exists ext, fst pn = ext ++ p.
Proof.
  induction c as [d|d|tag attrs cs IH] using node_induction; intros p pn.
  1, 2: intros [].
  rewrite elementsOf_Elem. intros Hin. split; [reflexivity|].
  destruct Hin as [<-|Hin]; [now exists []|].
  revert Hin. generalize 0.
  induction IH as [|c cs Hc _ IHcs]; intros i; [intros []|].
  cbn [elementsIn]. rewrite in_app_iff. intros [Hin|Hin].
  - apply Hc in Hin as (_ & ext & ->). exists (ext ++ [i]).
    now rewrite <- app_assoc.
  - now apply (IHcs (S i)).
Qed.

(** A descendant of [temp] lies in one of its children, an element, whose
    index closes the path. *)
Lemma elementsIn_top (l : list node) :
  forall (p : path) (i0 : nat) (pn : path * node),
    In pn (elementsIn p i0 l) ->
    exists ext k c, fst pn = ext ++ k :: p /\ i0 <= k
                    /\ nth_error l (k - i0) = Some c /\ isElement c = true.
Proof.
  induction l as [|c l IH]; intros p i0 pn; [intros []|].
  cbn [elementsIn]. rewrite in_app_iff. intros [Hin|Hin].
  - apply elementsOf_extends in Hin as (Hc & ext & ->).
    exists ext, i0, c. rewrite Nat.sub_diag. now repeat split.
  - apply IH in Hin as (ext & k & c' & -> & Hk & Hnth & Hc').
    exists ext, k, c'. repeat split; [lia| |exact Hc'].
    replace (k - i0) with (S (k - S i0)) by lia. exact Hnth.
Qed.

Lemma descendant_top (temp : list node) (pn : path * node) :
  In pn (descendants temp) ->
  exists k c, last (fst pn) = Some k /\ nth_error temp k = Some c
              /\ isElement c = true.
Proof.
  intros Hin. apply elementsIn_top in Hin as (ext & k & c & -> & _ & Hnth & Hc).
  exists k, c. rewrite Nat.sub_0_r in Hnth. repeat split; [|exact Hnth|exact Hc].
  apply last_snoc.
Qed.

Lemma walkUp_last (p : path) (k : nat) :
  last p = Some k -> walkUp p = [k].
Proof.
  intros Hlast.
  assert (Hne : p <> []) by (intros ->; discriminate).
  destruct (walkUp_top p Hne) as [k' Hk'].
  assert (Hkeep : forall q, last (walkUp q) = last q).
  { induction q as [|a q IHq]; [reflexivity|].
    destruct q as [|b q]; [reflexivity|].
    destruct q as [|c q]; [reflexivity|].
    change (walkUp (a :: b :: c :: q)) with (walkUp (b :: c :: q)).
    rewrite IHq. reflexivity. }
  specialize (Hkeep p). rewrite Hk', Hlast in Hkeep.
  cbn in Hkeep. injection Hkeep as ->. exact Hk'.
Qed.

Lemma splitBefore_at (target : path) (k : nat) :
  last target = Some k ->
  forall (cs : list node) (i : nat),
    i <= k -> k - i < length cs ->
    splitBefore i cs target = (firstn (k - i) cs, skipn (k - i) cs).
Proof.
  intros Hlast. induction cs as [|c cs IH]; intros i Hi Hlen;
    [cbn in Hlen; lia|].
  cbn [splitBefore]. unfold containsOrIs. rewrite Hlast.
  destruct (k =? i) eqn:E.
  - apply Nat.eqb_eq in E. subst i. now rewrite Nat.sub_diag.
  - apply Nat.eqb_neq in E. rewrite (IH (S i)) by (cbn in Hlen; lia).
    replace (k - i) with (S (k - S i)) by lia. reflexivity.
Qed.

Lemma locateThreadStart_descendant temp pn :
  locateThreadStart temp = Some pn -> In pn (descendants temp).
Proof.
  unfold locateThreadStart.
  destruct (findThreadByMarkersOrText temp) eqn:E.
  - intros [= <-]. now apply findThread_descendant.
  - apply querySelector_descendant.
Qed.

Lemma textContent_app (a b : list node) :
  textContent (a ++ b) = textContent a ++ textContent b.
Proof. unfold textContent. apply flat_map_app. Qed.

(** X5: [parseEmailHtml] cuts the children of the root at one index [k]:
    the current message is the trimmed text of the children before [k],
    the thread text is the trimmed text of the children from [k] on, and
    the two texts together are the text of the document.  With no thread
    start, [k] is the number of children and the thread text is empty;
    otherwise child [k] exists, is an element, and is or contains the
    located node. *)
Theorem parseEmailHtml_partitions (temp : list node) :
  exists k,
    k <= length temp
    /\ parseEmailHtml temp
       = ParsedEmail (trim (textContent (firstn k temp)))
                     (trim (textContent (skipn k temp)))
    /\ textContent temp
       = textContent (firstn k temp) ++ textContent (skipn k temp)
    /\ match locateThreadStart temp with
       | None => k = length temp
       | Some (threadElement, _) =>
           last threadElement = Some k
           /\ exists c, nth_error temp k = Some c /\ isElement c = true
       end.
Proof.
  unfold parseEmailHtml.
  destruct (locateThreadStart temp) as [[q n]|] eqn:Hloc.
  - apply locateThreadStart_descendant, descendant_top in Hloc
      as (k & c & Hlast & Hnth & Hc). cbn [fst] in Hlast.
    assert (Hk : k < length temp) by (apply nth_error_Some; congruence).
    exists k. split; [lia|].
    rewrite (splitBefore_at q k Hlast temp 0) by lia.
    rewrite Nat.sub_0_r. split; [reflexivity|]. split.
    + now rewrite <- textContent_app, firstn_skipn.
    + split; [exact Hlast|]. now exists c.
  - exists (length temp). split; [lia|].
    rewrite firstn_all, skipn_all. split; [reflexivity|]. split.
    + cbn. now rewrite app_nil_r.
    + reflexivity.
Qed.

Lemma skipn_nth_error_Some' {A : Type} (l : list A) :
  forall (i : nat) (x : A),
    nth_error l i = Some x -> skipn i l = x :: skipn (S i) l.
Proof.
  induction l as [|y l IH]; intros [|i] x; try discriminate.
  - now intros [= ->].
  - cbn [nth_error]. intros H. now apply IH in H.
Qed.

Lemma innerHTML_app (a b : list node) :
  innerHTML (a ++ b) = innerHTML a ++ innerHTML b.
Proof. unfold innerHTML. apply flat_map_app. Qed.

(** X6: the markup of the document is the markup of its draft region (the
    children that precede both fragments) followed by [signatureHtml] and
    then [threadHtml]: appending the two fragments to the serialised draft
    gives the document back. *)
Theorem fragments_reassemble (temp : list node) (template : option jsstring) :
  exists j,
    innerHTML temp
    = innerHTML (firstn j temp)
      ++ signatureHtml (extractPreservedContent temp template)
      ++ threadHtml (extractPreservedContent temp template).
Proof.
  destruct (extractThread_cut temp) as (k & Hk & Hthread).
  destruct (extractSignature_cut (firstn k temp) template) as (j & Hj & Hsig).
  exists j. unfold extractPreservedContent, extractPreservedNodes.
  rewrite Hthread, Hsig. cbn [signatureHtml threadHtml].
  rewrite <- !innerHTML_app. f_equal.
  rewrite length_firstn, Nat.min_l in Hj by exact Hk.
  transitivity (firstn k temp ++ skipn k temp);
    [symmetry; apply firstn_skipn|].
  rewrite app_assoc. f_equal.
  transitivity (firstn j (firstn k temp) ++ skipn j (firstn k temp));
    [symmetry; apply firstn_skipn|].
  f_equal. rewrite firstn_firstn. f_equal. lia.
Qed.

(** X7: when a thread marker or a "From: ... Sent:" block is found, the
    thread fragment starts with the child of the root that is or contains
    it, an element, so [threadHtml] is not empty, and that child is no
    longer in the tree searched for the signature. *)
Theorem found_thread_is_preserved
    (temp : list node) (template : option jsstring)
    (threadElement : path) (n : node) :
  findThreadByMarkersOrText temp = Some (threadElement, n) ->
  exists k tag attrs cs,
    last threadElement = Some k
    /\ nth_error temp k = Some (Elem tag attrs cs)
    /\ extractThread temp = (skipn k temp, firstn k temp)
    /\ threadHtml (extractPreservedContent temp template) <> [].
Proof.
  intros Hfind.
  pose proof (findThread_descendant _ _ Hfind) as Hin.
  apply descendant_top in Hin as (k & c & Hlast & Hnth & Hc).
  cbn [fst] in Hlast.
  destruct c as [d|d|tag attrs cs]; try discriminate.
  exists k, tag, attrs, cs. split; [exact Hlast|]. split; [exact Hnth|].
  assert (Hthread : extractThread temp = (skipn k temp, firstn k temp)).
  { unfold extractThread. rewrite Hfind, (walkUp_last _ _ Hlast). reflexivity. }
  split; [exact Hthread|].
  unfold extractPreservedContent, extractPreservedNodes. rewrite Hthread.
  cbn [threadHtml]. rewrite (skipn_nth_error_Some' temp k _ Hnth).
  discriminate.
Qed.

(** X7 at the round-trip document. *)
Lemma found_thread_is_preserved_witness :
  findThreadByMarkersOrText roundTripDocument
    = Some ([1], Elem (js "hr") [(js "tabindex", js "-1")] [])
  /\ exists k tag attrs cs,
       last [1] = Some k
       /\ nth_error roundTripDocument k = Some (Elem tag attrs cs)
       /\ extractThread roundTripDocument
          = (skipn k roundTripDocument, firstn k roundTripDocument)
       /\ threadHtml (extractPreservedContent roundTripDocument None) <> [].
Proof.
  assert (H : findThreadByMarkersOrText roundTripDocument
              = Some ([1], Elem (js "hr") [(js "tabindex", js "-1")] []))
    by (vm_compute; reflexivity).
  split; [exact H|].
  exact (found_thread_is_preserved roundTripDocument None [1] _ H).
Defined.

(** ** The saved prompt list *)

Lemma find_app_none {A : Type} (f : A -> bool) (l1 l2 : list A) :
  find f l1 = None -> find f (l1 ++ l2) = find f l2.
Proof.
  induction l1 as [|x l1 IH]; [reflexivity|].
  cbn [find app]. destruct (f x); [discriminate|exact IH].
Qed.

Lemma find_app_some {A : Type} (f : A -> bool) (l1 l2 : list A) (x : A) :
  find f l1 = Some x -> find f (l1 ++ l2) = Some x.
Proof.
  induction l1 as [|y l1 IH]; [discriminate|].
  cbn [find app]. destruct (f y); [trivial|exact IH].
Qed.

Lemma getById_absent (prompts : list prompt) (id : jsstring) :
  ~ In id (map prompt_id prompts) ->
  find (fun p => str_eqb (prompt_id p) id) prompts = None.
Proof.
  induction prompts as [|p prompts IH]; intros Hnot; [reflexivity|].
  cbn [find]. unfold str_eqb at 1. rewrite bool_decide_eq_false_2.
  - apply IH. intros Hin. apply Hnot. now right.
  - intros Heq. apply Hnot. now left.
Qed.

(** X8: [add] appends one prompt, with trimmed name and instruction, in a
    single write; when the identifier is not yet in use, [getById] finds
    exactly the new prompt under it, and every other identifier resolves
    as before. *)
Theorem add_then_getById (st : store) (id name instruction : jsstring) :
  let new := Prompt id (trim name) (trim instruction) in
  let st' := fst (promptManager.add st id name instruction) in
  promptManager.getAll st' = promptManager.getAll st ++ [new]
  /\ writes st' = promptManager.getAll st' :: writes st
  /\ (~ In id (map prompt_id (promptManager.getAll st)) ->
      promptManager.getById st' id = Some new)
  /\ (forall other, other <> id ->
      promptManager.getById st' other = promptManager.getById st other).
Proof.
  intros new st'. split; [reflexivity|]. split; [reflexivity|]. split.
  - intros Hfresh. unfold promptManager.getById.
    change (promptManager.getAll st') with (promptManager.getAll st ++ [new]).
    rewrite find_app_none by now apply getById_absent.
    cbn [find prompt_id new]. unfold str_eqb.
    now rewrite bool_decide_eq_true_2.
  - intros other Hother. unfold promptManager.getById.
    change (promptManager.getAll st') with (promptManager.getAll st ++ [new]).
    destruct (find (fun p => str_eqb (prompt_id p) other)
                   (promptManager.getAll st)) as [p|] eqn:E.
    + now apply find_app_some.
    + rewrite find_app_none by exact E. cbn [find prompt_id new].
      unfold str_eqb. rewrite bool_decide_eq_false_2 by congruence.
      reflexivity.
Qed.

Lemma add_then_getById_witness :
  let st := Store (Some [Prompt (js "id-a") (js "A") (js "a")]) [] in
  ~ In (js "id-b") (map prompt_id (promptManager.getAll st))
  /\ promptManager.getById
       (fst (promptManager.add st (js "id-b") (js " B ") (js " b ")))
       (js "id-b")
     = Some (Prompt (js "id-b") (js "B") (js "b")).
Proof.
  intros st.
  assert (Hfresh : ~ In (js "id-b") (map prompt_id (promptManager.getAll st))).
  { vm_compute. intros [H|[]]. discriminate H. }
  split; [exact Hfresh|].
  destruct (add_then_getById st (js "id-b") (js " B ") (js " b "))
    as (_ & _ & Hget & _).
  rewrite (Hget Hfresh). vm_compute. reflexivity.
Defined.

Lemma filter_drops_id (id : jsstring) (prompts : list prompt) :
  In id (map prompt_id prompts) ->
  length (List.filter (fun p => negb (str_eqb (prompt_id p) id)) prompts)
  < length prompts.
Proof.
  induction prompts as [|p prompts IH]; [intros []|].
  cbn [List.filter map length]. intros Hin.
  pose proof (filter_length_le (fun p => negb (str_eqb (prompt_id p) id)) prompts)
    as Hle.
  unfold str_eqb at 1. destruct (decide (prompt_id p = id)) as [E|E].
  - rewrite bool_decide_eq_true_2 by exact E. cbn [negb]. lia.
  - rewrite bool_decide_eq_false_2 by exact E. cbn [negb length].
    destruct Hin as [Hin|Hin]; [congruence|]. apply IH in Hin. lia.
Qed.

Lemma delete_present (st : store) (id : jsstring) :
  In id (map prompt_id (promptManager.getAll st)) ->
  let kept := List.filter (fun p => negb (str_eqb (prompt_id p) id))
                          (promptManager.getAll st) in
  promptManager.delete st id = (Store (Some kept) (kept :: writes st), true).
Proof.
  intros Hin kept. unfold promptManager.delete. fold kept.
  pose proof (filter_drops_id id _ Hin) as Hlt. fold kept in Hlt.
  replace (length kept =? length (promptManager.getAll st)) with false
    by (symmetry; apply Nat.eqb_neq; lia).
  reflexivity.
Qed.

(** X9: when some saved prompt has the given id, [delete] returns [true]
    after one write of the list without the prompts of that id: the other
    prompts are kept, in order, and [getById] no longer finds the id. *)
Theorem delete_removes_id (st : store) (id : jsstring) :
  In id (map prompt_id (promptManager.getAll st)) ->
  let kept := List.filter (fun p => negb (str_eqb (prompt_id p) id))
                          (promptManager.getAll st) in
  promptManager.delete st id = (Store (Some kept) (kept :: writes st), true)
  /\ promptManager.getById (fst (promptManager.delete st id)) id = None
  /\ (forall p, In p kept <-> In p (promptManager.getAll st) /\ prompt_id p <> id).
Proof.
  intros Hin kept.
  pose proof (delete_present st id Hin) as Hdel. fold kept in Hdel.
  split; [exact Hdel|]. split.
  - rewrite Hdel. unfold promptManager.getById. cbn.
    apply getById_absent. intros Hid. apply in_map_iff in Hid as (p & Hp & Hk).
    apply filter_In in Hk as [_ Hk]. unfold str_eqb in Hk.
    rewrite bool_decide_eq_true_2 in Hk by exact Hp. discriminate.
  - intros p. unfold kept. rewrite filter_In. unfold str_eqb. split.
    + intros [H1 H2]. split; [exact H1|]. intros E.
      rewrite bool_decide_eq_true_2 in H2 by exact E. discriminate.
    + intros [H1 H2]. split; [exact H1|].
      now rewrite bool_decide_eq_false_2.
Qed.

Lemma delete_removes_id_witness :
  let a := Prompt (js "id-a") (js "A") (js "a") in
  let b := Prompt (js "id-b") (js "B") (js "b") in
  let st := Store (Some [a; b; a]) [] in
  In (js "id-a") (map prompt_id (promptManager.getAll st))
  /\ promptManager.delete st (js "id-a") = (Store (Some [b]) [[b]], true).
Proof.
  intros a b st.
  assert (Hin : In (js "id-a") (map prompt_id (promptManager.getAll st)))
    by (left; reflexivity).
  split; [exact Hin|].
  destruct (delete_removes_id st (js "id-a") Hin) as (Hdel & _).
  rewrite Hdel. vm_compute. reflexivity.
Defined.

Lemma find_insert_first (f : prompt -> bool) (x : prompt) :
  f x = true ->
  forall (l : list prompt) (i : nat),
    i < length l ->
    (forall j y, l !! j = Some y -> j < i -> f y = false) ->
    find f (<[i := x]> l) = Some x.
Proof.
  intros Hx. induction l as [|y l IH]; intros i Hi Hbefore;
    [cbn in Hi; lia|].
  destruct i as [|i].
  - change (<[0 := x]> (y :: l)) with (x :: l). cbn [find]. now rewrite Hx.
  - change (<[S i := x]> (y :: l)) with (y :: <[i := x]> l). cbn [find].
    rewrite (Hbefore 0 y eq_refl) by lia.
    apply IH; [cbn in Hi; lia|].
    intros j z Hz Hj. apply (Hbefore (S j) z Hz). lia.
Qed.

(** X10: after an [update] under an id that some saved prompt has,
    [getById] returns that id with the new name and instruction, both
    trimmed. *)
Theorem update_then_getById (st : store) (id name instruction : jsstring) :
  In id (map prompt_id (promptManager.getAll st)) ->
  snd (promptManager.update st id name instruction) = true
  /\ promptManager.getById (fst (promptManager.update st id name instruction)) id
     = Some (Prompt id (trim name) (trim instruction)).
Proof.
  intros Hin. unfold promptManager.update.
  destruct (list_find (fun p => prompt_id p = id) (promptManager.getAll st))
    as [[index old]|] eqn:Hfind.
  - apply list_find_Some in Hfind as (Hlookup & Hid & Hfirst).
    split; [reflexivity|]. cbn [fst]. unfold promptManager.getById.
    change (promptManager.getAll
              (storage.setSavedPrompts st
                 (<[index := Prompt (prompt_id old) (trim name) (trim instruction)]>
                    (promptManager.getAll st))))
      with (<[index := Prompt (prompt_id old) (trim name) (trim instruction)]>
              (promptManager.getAll st)).
    rewrite Hid. apply find_insert_first.
    + cbn [prompt_id]. unfold str_eqb. now apply bool_decide_eq_true_2.
    + now apply lookup_lt_Some in Hlookup.
    + intros j y Hy Hj. unfold str_eqb. apply bool_decide_eq_false_2.
      exact (Hfirst j y Hy Hj).
  - exfalso. apply list_find_None in Hfind.
    apply in_map_iff in Hin as (p & Hp & Hin).
    rewrite List.Forall_forall in Hfind. exact (Hfind p Hin Hp).
Qed.

Lemma update_then_getById_witness :
  let st := Store (Some [Prompt (js "id-a") (js "A") (js "a");
                         Prompt (js "id-b") (js "B") (js "b")]) [] in
  In (js "id-b") (map prompt_id (promptManager.getAll st))
  /\ promptManager.getById
       (fst (promptManager.update st (js "id-b") (js " New ") (js " text ")))
       (js "id-b")
     = Some (Prompt (js "id-b") (js "New") (js "text")).
Proof.
  intros st.
  assert (Hin : In (js "id-b") (map prompt_id (promptManager.getAll st)))
    by (right; left; reflexivity).
  split; [exact Hin|].
  destruct (update_then_getById st (js "id-b") (js " New ") (js " text ") Hin)
    as [_ Hget].
  rewrite Hget. vm_compute. reflexivity.
Defined.

(** X11: adding a prompt under an unused id and deleting that id again
    gives back the saved list as it was. *)
Theorem add_then_delete (st : store) (id name instruction : jsstring) :
  ~ In id (map prompt_id (promptManager.getAll st)) ->
  let st' := fst (promptManager.add st id name instruction) in
  snd (promptManager.delete st' id) = true
  /\ promptManager.getAll (fst (promptManager.delete st' id))
     = promptManager.getAll st.
Proof.
  intros Hfresh st'.
  assert (Hin : In id (map prompt_id (promptManager.getAll st'))).
  { change (promptManager.getAll st')
      with (promptManager.getAll st
            ++ [Prompt id (trim name) (trim instruction)]).
    rewrite map_app, in_app_iff. right. now left. }
  rewrite (delete_present st' id Hin). split; [reflexivity|]. cbn.
  change (promptManager.getAll st')
    with (promptManager.getAll st ++ [Prompt id (trim name) (trim instruction)]).
  rewrite List.filter_app, (filter_other_ids id _ Hfresh).
  cbn [List.filter prompt_id]. unfold str_eqb.
  rewrite bool_decide_eq_true_2 by reflexivity. cbn [negb]. apply app_nil_r.
Qed.

Lemma add_then_delete_witness :
  let st := Store (Some [Prompt (js "id-a") (js "A") (js "a")]) [] in
  ~ In (js "id-b") (map prompt_id (promptManager.getAll st))
  /\ promptManager.getAll
       (fst (promptManager.delete
               (fst (promptManager.add st (js "id-b") (js "B") (js "b")))
               (js "id-b")))
     = [Prompt (js "id-a") (js "A") (js "a")].
Proof.
  intros st.
  assert (Hfresh : ~ In (js "id-b") (map prompt_id (promptManager.getAll st))).
  { vm_compute. intros [H|[]]. discriminate H. }
  split; [exact Hfresh|].
  destruct (add_then_delete st (js "id-b") (js "B") (js "b") Hfresh) as [_ Hall].
  rewrite Hall. reflexivity.
Defined.

Lemma add_getAll (st : store) (id name instruction : jsstring) :
  promptManager.getAll (fst (promptManager.add st id name instruction))
  = promptManager.getAll st ++ [Prompt id (trim name) (trim instruction)].
Proof. reflexivity. Qed.

(** X12: [initDefaults] leaves a store that already has prompts untouched;
    on a store without prompts it saves the five default prompts, in
    order, under the identifiers drawn; and calling it a second time
    changes nothing, whatever identifiers the second call would draw. *)
Theorem initDefaults_once
    (st : store) (id1 id2 id3 id4 id5 id6 id7 id8 id9 id10 : jsstring) :
  let st' := promptManager.initDefaults st id1 id2 id3 id4 id5 in
  (promptManager.getAll st <> [] -> st' = st)
  /\ (promptManager.getAll st = [] ->
      promptManager.getAll st'
      = [ Prompt id1 (js "Fix Grammar")
            (js "Fix any grammatical errors in this text while maintaining the original meaning and tone.");
          Prompt id2 (js "Make Professional")
            (js "Rewrite this text to be more professional and formal while keeping the same message.");
          Prompt id3 (js "Summarize")
            (js "Provide a brief, concise summary of this text.");
          Prompt id4 (js "Translate to French")
            (js "Translate this text to French.");
          Prompt id5 (js "Make Friendly")
            (js "Rewrite this text to be warmer and more friendly while keeping the same message.") ])
  /\ promptManager.initDefaults st' id6 id7 id8 id9 id10 = st'.
Proof.
  intros st'.
  assert (Hkeep : forall s a b c d e,
            promptManager.getAll s <> [] ->
            promptManager.initDefaults s a b c d e = s).
  { intros s a b c d e Hne. unfold promptManager.initDefaults.
    destruct (promptManager.getAll s); [congruence|reflexivity]. }
  assert (Hfill : promptManager.getAll st = [] ->
            promptManager.getAll st'
            = [ Prompt id1 (js "Fix Grammar")
                  (js "Fix any grammatical errors in this text while maintaining the original meaning and tone.");
                Prompt id2 (js "Make Professional")
                  (js "Rewrite this text to be more professional and formal while keeping the same message.");
                Prompt id3 (js "Summarize")
                  (js "Provide a brief, concise summary of this text.");
                Prompt id4 (js "Translate to French")
                  (js "Translate this text to French.");
                Prompt id5 (js "Make Friendly")
                  (js "Rewrite this text to be warmer and more friendly while keeping the same message.") ]).
  { intros Hempty. unfold st', promptManager.initDefaults.
    rewrite Hempty. cbn [length Nat.eqb].
    rewrite !add_getAll, Hempty. cbn [app].
    repeat (f_equal; try (vm_compute; reflexivity)). }
  split; [now apply Hkeep|]. split; [exact Hfill|].
  apply Hkeep.
  destruct (promptManager.getAll st) as [|p l] eqn:E.
  - rewrite (Hfill eq_refl). discriminate.
  - unfold st'. rewrite Hkeep by (rewrite E; discriminate).
    rewrite E. discriminate.
Qed.

Lemma initDefaults_once_witness :
  promptManager.getAll (Store None []) = []
  /\ map prompt_name
       (promptManager.getAll
          (promptManager.initDefaults (Store None [])
             (js "1") (js "2") (js "3") (js "4") (js "5")))
     = [js "Fix Grammar"; js "Make Professional"; js "Summarize";
        js "Translate to French"; js "Make Friendly"].
Proof.
  split; [reflexivity|].
  rewrite (proj1 (proj2 (initDefaults_once (Store None [])
                           (js "1") (js "2") (js "3") (js "4") (js "5")
                           (js "6") (js "7") (js "8") (js "9") (js "10")))
             eq_refl).
  reflexivity.
Defined.

Lemma hexDigit_is_hex (v : N) :
  (v < 16)%N -> isHexOrDash (promptManager.hexDigit v) = true.
Proof.
  intros Hv. rewrite <- (N2Nat.id v).
  assert (Hn : N.to_nat v < 16) by lia.
  remember (N.to_nat v) as n eqn:En. clear En Hv.
  do 16 (destruct n as [|n]; [vm_compute; reflexivity|]). lia.
Qed.

Lemma variant_digit (r : N) :
  (r < 16)%N ->
  (N.lor (N.land r 3) 8 < 16)%N
  /\ In (promptManager.hexDigit (N.lor (N.land r 3) 8)) [56; 57; 97; 98]%N.
Proof.
  intros Hr. rewrite <- (N2Nat.id r).
  assert (Hn : N.to_nat r < 16) by lia.
  remember (N.to_nat r) as n eqn:En. clear En Hr.
  do 16 (destruct n as [|n]; [vm_compute; split; [reflexivity|tauto]|]). lia.
Qed.

Lemma fillTemplate_shape (random : nat -> N) :
  (forall k, (random k < 16)%N) ->
  forall (t : jsstring) (k : nat),
    Forall (fun c => (c =? 120)%N || (c =? 121)%N || isHexOrDash c = true) t ->
    length (promptManager.fillTemplate t random k) = length t
    /\ Forall (fun c => isHexOrDash c = true)
              (promptManager.fillTemplate t random k).
Proof.
  intros Hr. induction t as [|c t IH]; intros k Hall; [now split|].
  pose proof (List.Forall_inv Hall) as Hc.
  pose proof (List.Forall_inv_tail Hall) as Ht. cbv beta in Hc.
  destruct (IH (S k) Ht) as [Hlen1 Hall1].
  destruct (IH k Ht) as [Hlen2 Hall2].
  cbn [promptManager.fillTemplate].
  destruct ((c =? 120)%N || (c =? 121)%N) eqn:Exy.
  - split; [cbn [length]; now rewrite Hlen1|].
    apply List.Forall_cons; [|exact Hall1].
    apply hexDigit_is_hex. destruct (c =? 120)%N; [apply Hr|].
    now apply variant_digit.
  - split; [cbn [length]; now rewrite Hlen2|].
    apply List.Forall_cons; [|exact Hall2].
    exact Hc.
Qed.

(** X13: whatever values below 16 the random source gives, [generateId]
    returns 36 characters, each a lower-case hexadecimal digit or a dash,
    with dashes at positions 8, 13, 18 and 23, the digit 4 at position 14
    and one of 8, 9, a, b at position 19. *)
Theorem generateId_shape (random : nat -> N) :
  (forall k, (random k < 16)%N) ->
  let id := promptManager.generateId random in
  length id = 36
  /\ Forall (fun c => isHexOrDash c = true) id
  /\ nth_error id 8 = Some 45%N /\ nth_error id 13 = Some 45%N
  /\ nth_error id 18 = Some 45%N /\ nth_error id 23 = Some 45%N
  /\ nth_error id 14 = Some 52%N
  /\ exists c, nth_error id 19 = Some c /\ In c [56; 57; 97; 98]%N.
Proof.
  intros Hr id.
  destruct (fillTemplate_shape random Hr
              (js "xxxxxxxx-xxxx-4xxx-yxxx-xxxxxxxxxxxx") 0) as [Hlen Hall].
  { vm_compute. repeat constructor. }
  split; [exact Hlen|]. split; [exact Hall|].
  unfold id, promptManager.generateId.
  let t := eval vm_compute in (js "xxxxxxxx-xxxx-4xxx-yxxx-xxxxxxxxxxxx") in
  change (js "xxxxxxxx-xxxx-4xxx-yxxx-xxxxxxxxxxxx") with t.
  cbn [promptManager.fillTemplate N.eqb Pos.eqb orb nth_error].
  repeat (split; [reflexivity|]).
  eexists. split; [reflexivity|]. now apply variant_digit.
Qed.

Lemma generateId_shape_witness :
  (forall k, ((fun k => N.of_nat (k mod 16)) k < 16)%N)
  /\ length (promptManager.generateId (fun k => N.of_nat (k mod 16))) = 36
  /\ promptManager.generateId (fun k => N.of_nat (k mod 16))
     = js "01234567-89ab-4cde-b012-3456789abcde".
Proof.
  assert (Hr : forall k, (N.of_nat (k mod 16) < 16)%N).
  { intros k. pose proof (Nat.mod_upper_bound k 16). lia. }
  split; [exact Hr|]. split.
  - exact (proj1 (generateId_shape (fun k => N.of_nat (k mod 16)) Hr)).
  - vm_compute. reflexivity.
Defined.

(** ** Patterns that cannot match *)

Lemma flat_map_all_nil {A B : Type} (f : A -> list B) (l : list A) :
  (forall x, f x = []) -> flat_map f l = [].
Proof.
  intros H. induction l as [|x l IH]; [reflexivity|].
  cbn [flat_map]. now rewrite H, IH.
Qed.

Lemma needs_no_match (p : N -> bool) (s : jsstring) (r : regex) :
  (forall c, In c s -> p c = false) ->
  needs p r -> forall st, run r s st = [].
Proof.
  intros Hs. induction 1 as [q Hq|a b _ IH|a b _ IH|a b _ IHa _ IHb|a _ IH
                            |g mn a _ IH]; intros st; cbn [run].
  - unfold char_at. destruct (nth_error s (pos st)) as [c|] eqn:Hc;
      [|reflexivity].
    apply nth_error_In in Hc. apply Hs in Hc.
    destruct (q c) eqn:E; [|reflexivity]. apply Hq in E. congruence.
  - now rewrite IH.
  - now apply flat_map_all_nil.
  - now rewrite IHa, IHb.
  - now rewrite IH.
  - cbn [rep_loop Nat.eqb negb]. now rewrite IH.
Qed.

Lemma search_none (r : regex) (s : jsstring) :
  (forall i, match_at r s i = None) -> forall n i, search r s i n = None.
Proof.
  intros H. induction n as [|n IH]; intros i; cbn [search]; rewrite H;
    [reflexivity|apply IH].
Qed.

Lemma no_match_exec (r : regex) (s : jsstring) :
  (forall st, run r s st = []) -> forall last, exec_from r s last = None.
Proof.
  intros H last. unfold exec_from. destruct (length s <? last); [reflexivity|].
  apply search_none. intros i. unfold match_at. now rewrite H.
Qed.

(** Without a match, [test] is false and both forms of [replace] return
    the text as it is. *)
Lemma no_match_effects (r : regex) (s : jsstring) (repl : list rpiece) :
  (forall st, run r s st = []) ->
  test r s = false /\ replace r repl s = s /\ replace_all r repl s = s.
Proof.
  intros H. pose proof (no_match_exec r s H) as Hexec.
  unfold test, replace, replace_all, exec. cbn [replace_loop].
  rewrite !Hexec. now repeat split.
Qed.

Lemma starts_no_match (q : N -> bool) (s : jsstring) (r : regex) :
  starts q r ->
  forall st,
    (forall c, nth_error s (pos st) = Some c -> q c = false) ->
    run r s st = [].
Proof.
  induction 1 as [q' Hq|a b _ IH|g mn a _ IH]; intros st Hst; cbn [run].
  - unfold char_at. destruct (nth_error s (pos st)) as [c|] eqn:Hc;
      [|reflexivity].
    destruct (q' c) eqn:E; [|reflexivity].
    apply Hq in E. rewrite (Hst c eq_refl) in E. discriminate.
  - now rewrite IH.
  - cbn [rep_loop Nat.eqb negb]. now rewrite IH.
Qed.

(** A pattern anchored at the start of the text, [/^.../], whose first
    character is not the one the text starts with, has no match. *)
Lemma anchored_no_match (q : N -> bool) (s : jsstring) (r : regex) :
  starts q r ->
  (forall c, head s = Some c -> q c = false) ->
  exec (Seq (Bol false) r) s = None.
Proof.
  intros Hr Hs. apply no_match_exec. intros st. cbn [run].
  destruct (pos st) as [|i] eqn:Hi.
  - cbn [flat_map]. rewrite (starts_no_match q s r Hr); [reflexivity|].
    rewrite Hi. intros c Hc. apply Hs. destruct s; [discriminate|exact Hc].
  - unfold char_at. destruct (nth_error s i); reflexivity.
Qed.

(** Under the [i] flag, a character of the pattern that is not a letter
    matches only itself. *)
Lemma canon_nonletter (t c : N) :
  (t < 65 \/ 90 < t < 97)%N -> (canon c =? canon t)%N = true -> c = t.
Proof.
  intros Ht H. apply N.eqb_eq in H. unfold canon in H.
  repeat match type of H with
         | context [if ?b then _ else _] => destruct b eqn:?
         end;
  repeat match goal with
         | E : (_ && _) = true |- _ => apply andb_true_iff in E as [? ?]
         | E : negb _ = true |- _ => apply negb_true_iff in E
         | E : (_ <=? _)%N = true |- _ => apply N.leb_le in E
         | E : (_ =? _)%N = true |- _ => apply N.eqb_eq in E
         end; try lia.
  all: repeat match goal with
         | E : (_ && _) = false |- _ => apply andb_false_iff in E as [E|E]
         | E : negb _ = false |- _ => apply negb_false_iff in E
         | E : (_ <=? _)%N = false |- _ => apply N.leb_gt in E
         | E : (_ =? _)%N = false |- _ => apply N.eqb_neq in E
         | E : (_ =? _)%N = true |- _ => apply N.eqb_eq in E
         end; try lia.
Qed.

Lemma needs_chri_nonletter (t : N) :
  (t < 65 \/ 90 < t < 97)%N -> needs (fun c => (c =? t)%N) (chri t).
Proof.
  intros Ht. apply needs_chr. intros c Hc. apply N.eqb_eq.
  now apply canon_nonletter.
Qed.

Lemma needs_chr_same (t : N) : needs (fun c => (c =? t)%N) (chr t).
Proof.
  apply needs_chr. intros c Hc. apply N.eqb_eq in Hc. now apply N.eqb_eq.
Qed.

Lemma find_all_false {A : Type} (f : A -> bool) (l : list A) :
  Forall (fun x => f x = false) l -> find f l = None.
Proof.
  induction 1 as [|x l Hx _ IH]; [reflexivity|]. cbn [find]. now rewrite Hx.
Qed.

Lemma signaturePatterns_need_newline :
  Forall (needs (fun c => (c =? 10)%N)) signaturePatterns.
Proof.
  assert (Hnl : needs (fun c => (c =? 10)%N) (chri 10))
    by (apply needs_chri_nonletter; lia).
  assert (Hclosing : forall phrase,
            needs (fun c => (c =? 10)%N) (closing phrase)).
  { intros phrase. unfold closing. apply needs_seq_l.
    change (liti (nl ++ phrase)) with (Seq (chri 10) (liti phrase)).
    now apply needs_seq_l. }
  unfold signaturePatterns.
  repeat (apply List.Forall_cons; [first [apply Hclosing|idtac]|]);
    [|apply List.Forall_nil].
  unfold dashSeparator. cbn [seqs]. apply needs_seq_l.
  change (lit (nl ++ js "--")) with (Seq (chr 10) (lit (js "--"))).
  apply needs_seq_l, needs_chr_same.
Qed.

Lemma split_nl_single (s : jsstring) : ~ In 10%N s -> split_nl s = [s].
Proof.
  induction s as [|c s IH]; intros Hs; [reflexivity|].
  cbn [split_nl]. destruct (c =? 10)%N eqn:E.
  - apply N.eqb_eq in E. subst c. destruct Hs. now left.
  - rewrite IH; [reflexivity|]. intros H. apply Hs. now right.
Qed.

(** X14: with no template, a text whose trimmed form has no line break is
    returned trimmed and otherwise untouched: every closing-phrase pattern
    needs a line break before the phrase, and the contact-line fallback
    needs more than three lines. *)
Theorem stripSignature_single_line (text : jsstring) :
  ~ In 10%N (trim text) -> stripSignature text None = trim text.
Proof.
  intros Hnl. unfold stripSignature.
  rewrite find_all_false.
  - now rewrite (split_nl_single _ Hnl).
  - pose proof signaturePatterns_need_newline as Hall.
    induction Hall as [|pattern l Hp _ IH]; constructor; [|exact IH].
    apply no_match_effects; [exact []|].
    apply (needs_no_match (fun c => (c =? 10)%N)); [|exact Hp].
    intros c Hc. apply N.eqb_neq. intros ->. now apply Hnl.
Qed.

Lemma stripSignature_single_line_witness :
  ~ In 10%N (trim (js " Best regards, Bob "))
  /\ stripSignature (js " Best regards, Bob ") None = js "Best regards, Bob".
Proof.
  assert (H : ~ In 10%N (trim (js " Best regards, Bob "))).
  { vm_compute. intros H.
    repeat (destruct H as [H|H]; [discriminate H|]). exact H. }
  split; [exact H|].
  rewrite (stripSignature_single_line _ H). vm_compute. reflexivity.
Defined.

(** ** Plain paragraphs *)

Lemma trimStart_In (s : jsstring) (c : N) : In c (trimStart s) -> In c s.
Proof.
  destruct (trimStart_split s) as (w & Hs & _). intros H.
  rewrite Hs. apply in_or_app. now right.
Qed.

Lemma trim_In (s : jsstring) (c : N) : In c (trim s) -> In c s.
Proof.
  unfold trim. intros H. apply trimStart_In.
  destruct (trimEnd_split (trimStart s)) as (w & Hw).
  rewrite Hw. apply in_or_app. now left.
Qed.

(** A text that opens with its only [<] does not end with a different
    text that opens with [<]. *)
Lemma endsWith_single_open (t p' : jsstring) :
  ~ In 60%N t -> t <> p' -> endsWith (60%N :: t) (60%N :: p') = false.
Proof.
  intros Ht Hne. destruct (endsWith (60%N :: t) (60%N :: p')) eqn:E;
    [|reflexivity].
  apply endsWith_iff in E as [q Hq]. destruct q as [|c q].
  - cbn [app] in Hq. injection Hq as Hq. contradiction.
  - cbn [app] in Hq. injection Hq as _ Hq. exfalso. apply Ht.
    rewrite Hq. apply in_or_app. right. now left.
Qed.

(** X15: a body of one line that has none of the characters [<], [*],
    [_] and whose trimmed text starts with neither a dash nor a digit is
    returned as a single paragraph, [<p>] text [</p>], and without the
    inline styles: this return of the markdown path does not go through
    [addOutlookStyles]. *)
Theorem plain_line_becomes_unstyled_paragraph
    (body : jsstring) (c0 : N) (rest : jsstring) :
  (forall c, In c body -> c <> 60 /\ c <> 42 /\ c <> 95 /\ c <> 10)%N ->
  trim body = c0 :: rest ->
  c0 <> 45%N -> (c0 < 48 \/ 57 < c0)%N ->
  formatBodyForInsert body = js "<p>" ++ trim body ++ js "</p>".
Proof.
  intros Hchars Htrim Hdash Hdigit.
  assert (Hno : forall t : N, (t = 60 \/ t = 42 \/ t = 95 \/ t = 10)%N ->
                forall c, In c body -> (c =? t)%N = false).
  { intros t Ht c Hc. apply N.eqb_neq. specialize (Hchars c Hc). lia. }
  unfold formatBodyForInsert.
  (* no tag, no bold, no italic *)
  destruct (no_match_effects htmlTagPattern body []) as (-> & _).
  { apply (needs_no_match (fun c => (c =? 60)%N)); [apply Hno; lia|].
    unfold htmlTagPattern. cbn [seqs]. apply needs_seq_l.
    apply needs_chri_nonletter. cbn. lia. }
  destruct (no_match_effects (boldPattern (js "**")) body strongOf)
    as (_ & _ & ->).
  { apply (needs_no_match (fun c => (c =? 42)%N)); [apply Hno; lia|].
    unfold boldPattern. cbn [seqs]. do 2 apply needs_seq_l.
    apply needs_chr_same. }
  destruct (no_match_effects (italicPattern asterisk) body emOf)
    as (_ & _ & ->).
  { apply (needs_no_match (fun c => (c =? 42)%N)); [apply Hno; lia|].
    unfold italicPattern. cbn [seqs]. apply needs_seq_r, needs_seq_l.
    apply needs_chr_same. }
  destruct (no_match_effects (boldPattern (js "__")) body strongOf)
    as (_ & _ & ->).
  { apply (needs_no_match (fun c => (c =? 95)%N)); [apply Hno; lia|].
    unfold boldPattern. cbn [seqs]. do 2 apply needs_seq_l.
    apply needs_chr_same. }
  destruct (no_match_effects (italicPattern underscore) body emOf)
    as (_ & _ & ->).
  { apply (needs_no_match (fun c => (c =? 95)%N)); [apply Hno; lia|].
    unfold italicPattern. cbn [seqs]. apply needs_seq_r, needs_seq_l.
    apply needs_chr_same. }
  (* one line, neither a list item nor empty *)
  rewrite split_nl_single
    by (intros H; specialize (Hchars _ H); lia).
  assert (Hstep : processLine (Blocks [] false false) body
                  = Blocks [js "<p>" ++ c0 :: rest] false false).
  { unfold processLine, matchGroup1, unorderedItem, orderedItem. cbn [seqs].
    rewrite (anchored_no_match (in_ranges [one "-"; one "*"]) (trim body)).
    2:{ apply starts_seq, starts_chr. trivial. }
    2:{ rewrite Htrim. intros c [= <-].
        assert (c0 <> 42)%N.
        { intros ->. assert (Hin : In 42%N body)
            by (apply trim_In; rewrite Htrim; now left).
          specialize (Hchars _ Hin). lia. }
        unfold in_ranges. change (one "-") with (45%N, 45%N).
        change (one "*") with (42%N, 42%N). cbn [existsb].
        apply orb_false_iff; split; [|apply orb_false_iff; split; [|reflexivity]];
          apply andb_false_iff; rewrite !N.leb_gt; lia. }
    rewrite (anchored_no_match (in_ranges [rng "0" "9"]) (trim body)).
    2:{ apply starts_seq. unfold plus. apply starts_rep, starts_chr. trivial. }
    2:{ rewrite Htrim. intros c [= <-].
        unfold in_ranges. change (rng "0" "9") with (48%N, 57%N). cbn [existsb].
        apply orb_false_iff; split; [|reflexivity].
        apply andb_false_iff; rewrite !N.leb_gt; lia. }
    cbn [processedLines inUnorderedList inOrderedList].
    rewrite Htrim. reflexivity. }
  cbn [fold_left]. rewrite Hstep.
  cbn [processedLines inUnorderedList inOrderedList join]. rewrite Htrim.
  assert (Hline : ~ In 60%N (c0 :: rest)).
  { intros H. rewrite <- Htrim in H. apply trim_In in H.
    specialize (Hchars _ H). lia. }
  change (js "<p>" ++ c0 :: rest) with (60%N :: 112%N :: 62%N :: c0 :: rest).
  assert (Ht : ~ In 60%N (112%N :: 62%N :: c0 :: rest)).
  { intros [H|[H|H]]; [discriminate H|discriminate H|now apply Hline]. }
  change (js "</p>") with (60%N :: [47; 112; 62]%N).
  change (js "</ul>") with (60%N :: [47; 117; 108; 62]%N).
  change (js "</ol>") with (60%N :: [47; 111; 108; 62]%N).
  rewrite !(endsWith_single_open _ _ Ht) by discriminate.
  change (js "<p>") with [60; 112; 62]%N.
  cbn [includes startsWith N.eqb Pos.eqb andb orb negb app].
  reflexivity.
Qed.

Lemma plain_line_becomes_unstyled_paragraph_witness :
  (forall c, In c (js " Thank you for the update. ") ->
     c <> 60 /\ c <> 42 /\ c <> 95 /\ c <> 10)%N
  /\ formatBodyForInsert (js " Thank you for the update. ")
     = js "<p>Thank you for the update.</p>".
Proof.
  assert (H : forall c, In c (js " Thank you for the update. ") ->
                (c <> 60 /\ c <> 42 /\ c <> 95 /\ c <> 10)%N).
  { intros c Hc. vm_compute in Hc.
    repeat (destruct Hc as [Hc|Hc]; [subst c; repeat split; discriminate|]).
    destruct Hc. }
  split; [exact H|].
  rewrite (plain_line_becomes_unstyled_paragraph
             (js " Thank you for the update. ") 84%N
             (js "hank you for the update.") H).
  - vm_compute. reflexivity.
  - vm_compute. reflexivity.
  - discriminate.
  - right. reflexivity.
Defined.

(** ** Global replacement of a literal *)

Lemma match_at_liti (s p : jsstring) (i : nat) :
  match_at (liti p) s i
  = if startsWithCI (skipn i s) p
    then Some (MState (i + length p) None) else None.
Proof.
  unfold match_at. rewrite run_liti.
  now destruct (startsWithCI (skipn i s) p).
Qed.

Lemma search_liti (s p : jsstring) :
  forall (n i : nat),
    i + n = length s ->
    search (liti p) s i n
    = (fun j => (i + j, MState (i + j + length p) None))
        <$> indexOfCI (skipn i s) p.
Proof.
  induction n as [|n IH]; intros i Hi.
  - cbn [search]. rewrite match_at_liti.
    rewrite skipn_all2 by lia. cbn [indexOfCI].
    destruct (startsWithCI [] p); cbn; [|reflexivity].
    now rewrite Nat.add_0_r.
  - cbn [search]. rewrite match_at_liti.
    destruct (nth_error s i) as [d|] eqn:Hd.
    2:{ apply nth_error_None in Hd. lia. }
    rewrite (skipn_nth_error_Some s i d Hd). cbn [indexOfCI].
    destruct (startsWithCI (d :: skipn (S i) s) p).
    + cbn. now rewrite Nat.add_0_r.
    + rewrite IH by lia.
      destruct (indexOfCI (skipn (S i) s) p); cbn; [|reflexivity].
      repeat f_equal; lia.
Qed.

Lemma substCI_skip (p r : jsstring) :
  forall (s : jsstring) (k : nat),
    substCI p r k s = substCI p r 0 (skipn k s).
Proof.
  induction s as [|c s IH]; intros [|k]; try reflexivity.
  cbn [substCI skipn]. apply IH.
Qed.

Lemma substCI_no_occurrence (p r : jsstring) :
  forall s, indexOfCI s p = None -> substCI p r 0 s = s.
Proof.
  induction s as [|c s IH]; [reflexivity|].
  cbn [indexOfCI substCI]. destruct (startsWithCI (c :: s) p); [discriminate|].
  destruct (indexOfCI s p); [discriminate|]. intros _. f_equal. now apply IH.
Qed.

Lemma substCI_first_occurrence (p r : jsstring) :
  p <> [] ->
  forall (j : nat) (s : jsstring),
    indexOfCI s p = Some j ->
    substCI p r 0 s = firstn j s ++ r ++ substCI p r 0 (skipn (j + length p) s).
Proof.
  intros Hp. induction j as [|j IH]; intros s Hj.
  - destruct s as [|c s].
    + cbn [indexOfCI] in Hj. destruct p; [congruence|discriminate].
    + cbn [indexOfCI] in Hj. cbn [substCI].
      destruct (startsWithCI (c :: s) p) eqn:E.
      * cbn [firstn app]. f_equal. rewrite substCI_skip.
        destruct p as [|d p]; [congruence|]. cbn [length].
        replace (S (length p) - 1) with (length p) by lia. reflexivity.
      * destruct (indexOfCI s p); discriminate.
  - destruct s as [|c s].
    + cbn [indexOfCI] in Hj. destruct (startsWithCI [] p); discriminate.
    + cbn [indexOfCI] in Hj. cbn [substCI].
      destruct (startsWithCI (c :: s) p); [discriminate|].
      destruct (indexOfCI s p) as [j'|] eqn:E; [|discriminate].
      injection Hj as ->. rewrite (IH s E). reflexivity.
Qed.

Lemma replace_loop_liti (s p r : jsstring) :
  p <> [] ->
  forall (fuel last : nat) (acc : jsstring),
    last <= length s -> length s - last + 2 <= fuel ->
    replace_loop (liti p) [RLit r] s fuel last last acc
    = acc ++ substCI p r 0 (skipn last s).
Proof.
  intros Hp. induction fuel as [|fuel IH]; intros last acc Hlast Hfuel; [lia|].
  cbn [replace_loop]. unfold exec_from.
  replace (length s <? last) with false by (symmetry; apply Nat.ltb_ge; lia).
  rewrite search_liti by lia.
  destruct (indexOfCI (skipn last s) p) as [j|] eqn:Hj; cbn [fmap option_fmap option_map].
  - pose proof (proj1 (indexOfCI_spec p (skipn last s) j) Hj) as (Hstart & _ & _).
    apply startsWithCI_length in Hstart.
    rewrite !length_skipn in Hstart.
    assert (Hplen : 0 < length p) by (destruct p; [congruence|cbn; lia]).
    cbn [pos].
    replace (last + j + length p =? last + j) with false
      by (symmetry; apply Nat.eqb_neq; lia).
    replace (last <=? last + j) with true by (symmetry; apply Nat.leb_le; lia).
    rewrite IH by lia.
    rewrite (substCI_first_occurrence p r Hp j _ Hj).
    cbn [expand flat_map]. rewrite app_nil_r, skipn_skipn.
    replace (last + j - last) with j by lia.
    replace (j + length p + last) with (last + j + length p) by lia.
    now rewrite <- !app_assoc.
  - now rewrite (substCI_no_occurrence p r _ Hj).
Qed.

(** [s.replace(/p/gi, r)] for a literal [p]. *)
Lemma replace_all_liti (s p r : jsstring) :
  p <> [] -> replace_all (liti p) [RLit r] s = substCI p r 0 s.
Proof.
  intros Hp. unfold replace_all.
  rewrite (replace_loop_liti s p r Hp) by lia. reflexivity.
Qed.

(** ** Style injection is idempotent *)

Lemma indexOfCI_nowhere (q : jsstring) :
  q <> [] ->
  forall s, indexOfCI s q = None ->
  forall n, startsWithCI (skipn n s) q = false.
Proof.
  intros Hq. induction s as [|c s IH]; intros Hnone n.
  - rewrite skipn_nil. destruct q; [congruence|reflexivity].
  - cbn [indexOfCI] in Hnone.
    destruct (startsWithCI (c :: s) q) eqn:E; [discriminate|].
    destruct (indexOfCI s q) eqn:E'; [discriminate|].
    destruct n as [|n]; [exact E|]. cbn [skipn]. now apply IH.
Qed.

(** What follows a character other than the first one of [r] in the
    output was copied from the input. *)
Lemma substCI_prefix_reflect (p r : jsstring) (r0 : N) (r' : jsstring) :
  r = r0 :: r' ->
  forall q',
    Forall (fun d => (canon r0 =? canon d)%N = false) q' ->
    forall s, startsWithCI (substCI p r 0 s) q' = true ->
              startsWithCI s q' = true.
Proof.
  intros Hr. induction q' as [|d q' IH]; intros Hq s; [reflexivity|].
  pose proof (List.Forall_inv Hq) as Hd. cbv beta in Hd.
  pose proof (List.Forall_inv_tail Hq) as Hq'.
  destruct s as [|c s]; [discriminate|].
  cbn [substCI]. destruct (startsWithCI (c :: s) p).
  - rewrite Hr. cbn [app startsWithCI]. rewrite Hd. discriminate.
  - cbn [startsWithCI]. intros H. apply andb_true_iff in H as [H1 H2].
    rewrite H1. cbn [andb]. now apply IH.
Qed.

Lemma substCI_no_new_occurrence (p r q : jsstring) (r0 q0 : N) (r' q' : jsstring) :
  r = r0 :: r' -> q = q0 :: q' ->
  Forall (fun d => (canon r0 =? canon d)%N = false) q' ->
  inert r q ->
  forall s,
    (forall n, startsWithCI (skipn n s) q = true ->
               startsWithCI (skipn n s) p = true) ->
    forall k, indexOfCI (substCI p r k s) q = None.
Proof.
  intros Hr Hq Hq' Hinert.
  induction s as [|c s IH]; intros Hs k.
  - cbn [substCI indexOfCI]. rewrite Hq. reflexivity.
  - assert (Hs' : forall n, startsWithCI (skipn n s) q = true ->
                            startsWithCI (skipn n s) p = true)
      by (intros n; exact (Hs (S n))).
    destruct k as [|k]; cbn [substCI]; [|now apply IH].
    destruct (startsWithCI (c :: s) p) eqn:E.
    + rewrite Hinert, IH by exact Hs'. reflexivity.
    + cbn [indexOfCI]. rewrite IH by exact Hs'. cbn.
      destruct (startsWithCI (c :: substCI p r 0 s) q) eqn:E'; [|reflexivity].
      exfalso. rewrite Hq in E'. cbn [startsWithCI] in E'.
      apply andb_true_iff in E' as [E1 E2].
      apply (substCI_prefix_reflect p r r0 r' Hr q' Hq') in E2.
      specialize (Hs 0). cbn [skipn] in Hs. rewrite Hq in Hs.
      cbn [startsWithCI] in Hs. rewrite E1, E2 in Hs.
      rewrite (Hs eq_refl) in E. discriminate.
Qed.

Lemma indexOfCI_cons_false (c : N) (t q : jsstring) :
  startsWithCI (c :: t) q = false ->
  indexOfCI (c :: t) q = S <$> indexOfCI t q.
Proof. intros H. cbn [indexOfCI]. now rewrite H. Qed.

Ltac prove_inert r q :=
  unfold inert; intros Z;
  let r' := eval vm_compute in r in change r with r';
  let q' := eval vm_compute in q in change q with q';
  cbn [app length];
  repeat (rewrite indexOfCI_cons_false by reflexivity);
  destruct (indexOfCI Z _); reflexivity.

Lemma pStyled_inert : inert pStyled (js "<p>").
Proof. prove_inert pStyled (js "<p>"). Qed.

Lemma ulStyled_inert :
  inert ulStyled (js "<ul>") /\ inert ulStyled (js "<p>").
Proof.
  split; [prove_inert ulStyled (js "<ul>")|prove_inert ulStyled (js "<p>")].
Qed.

Lemma olStyled_inert :
  inert olStyled (js "<ol>") /\ inert olStyled (js "<ul>")
  /\ inert olStyled (js "<p>").
Proof.
  split; [prove_inert olStyled (js "<ol>")|].
  split; [prove_inert olStyled (js "<ul>")|prove_inert olStyled (js "<p>")].
Qed.

(** The three replacements of [addOutlookStyles], one after the other. *)
Lemma addOutlookStyles_subst (html : jsstring) :
  addOutlookStyles html
  = substCI (js "<ol>") olStyled 0
      (substCI (js "<ul>") ulStyled 0 (substCI (js "<p>") pStyled 0 html)).
Proof.
  unfold addOutlookStyles. destruct html as [|c html]; [reflexivity|].
  rewrite !replace_all_liti by discriminate. reflexivity.
Qed.

Lemma tag_tail_not_open (q' : jsstring) :
  forallb (fun d => negb (canon 60 =? canon d)%N) q' = true ->
  Forall (fun d => (canon 60 =? canon d)%N = false) q'.
Proof.
  induction q' as [|d q' IH]; [constructor|]. cbn [forallb].
  intros H. apply andb_true_iff in H as [H1 H2]. constructor; [|now apply IH].
  now apply negb_true_iff.
Qed.

Lemma addOutlookStyles_no_bare_tags (html : jsstring) :
  indexOfCI (addOutlookStyles html) (js "<p>") = None
  /\ indexOfCI (addOutlookStyles html) (js "<ul>") = None
  /\ indexOfCI (addOutlookStyles html) (js "<ol>") = None.
Proof.
  rewrite (addOutlookStyles_subst html).
  set (s1 := substCI (js "<p>") pStyled 0 html).
  set (s2 := substCI (js "<ul>") ulStyled 0 s1).
  set (s3 := substCI (js "<ol>") olStyled 0 s2).
  destruct ulStyled_inert as [Hul_ul Hul_p].
  destruct olStyled_inert as (Hol_ol & Hol_ul & Hol_p).
  assert (H1p : indexOfCI s1 (js "<p>") = None).
  { apply (substCI_no_new_occurrence (js "<p>") pStyled (js "<p>")
             60%N 60%N (tl pStyled) (js "p>"));
      [reflexivity|reflexivity|now apply tag_tail_not_open
      |exact pStyled_inert|trivial]. }
  assert (H2ul : indexOfCI s2 (js "<ul>") = None).
  { apply (substCI_no_new_occurrence (js "<ul>") ulStyled (js "<ul>")
             60%N 60%N (tl ulStyled) (js "ul>"));
      [reflexivity|reflexivity|now apply tag_tail_not_open
      |exact Hul_ul|trivial]. }
  assert (H2p : indexOfCI s2 (js "<p>") = None).
  { apply (substCI_no_new_occurrence (js "<ul>") ulStyled (js "<p>")
             60%N 60%N (tl ulStyled) (js "p>"));
      [reflexivity|reflexivity|now apply tag_tail_not_open|exact Hul_p|].
    intros n Hn.
    rewrite (indexOfCI_nowhere (js "<p>") ltac:(discriminate) s1 H1p n) in Hn.
    discriminate. }
  assert (H3ol : indexOfCI s3 (js "<ol>") = None).
  { apply (substCI_no_new_occurrence (js "<ol>") olStyled (js "<ol>")
             60%N 60%N (tl olStyled) (js "ol>"));
      [reflexivity|reflexivity|now apply tag_tail_not_open
      |exact Hol_ol|trivial]. }
  assert (H3ul : indexOfCI s3 (js "<ul>") = None).
  { apply (substCI_no_new_occurrence (js "<ol>") olStyled (js "<ul>")
             60%N 60%N (tl olStyled) (js "ul>"));
      [reflexivity|reflexivity|now apply tag_tail_not_open|exact Hol_ul|].
    intros n Hn.
    rewrite (indexOfCI_nowhere (js "<ul>") ltac:(discriminate) s2 H2ul n) in Hn.
    discriminate. }
  assert (H3p : indexOfCI s3 (js "<p>") = None).
  { apply (substCI_no_new_occurrence (js "<ol>") olStyled (js "<p>")
             60%N 60%N (tl olStyled) (js "p>"));
      [reflexivity|reflexivity|now apply tag_tail_not_open|exact Hol_p|].
    intros n Hn.
    rewrite (indexOfCI_nowhere (js "<p>") ltac:(discriminate) s2 H2p n) in Hn.
    discriminate. }
  now repeat split.
Qed.

Lemma addOutlookStyles_idempotent_eq (html : jsstring) :
  addOutlookStyles (addOutlookStyles html) = addOutlookStyles html.
Proof.
  destruct (addOutlookStyles_no_bare_tags html) as (Hp & Hul & Hol).
  rewrite (addOutlookStyles_subst (addOutlookStyles html)).
  rewrite (substCI_no_occurrence _ _ _ Hp).
  rewrite (substCI_no_occurrence _ _ _ Hul).
  now rewrite (substCI_no_occurrence _ _ _ Hol).
Qed.

(** X16: [addOutlookStyles] is idempotent, and its output has no bare
    [<p>], [<ul>] or [<ol>] left, in either letter case: styling an
    already styled body changes nothing. *)
Theorem addOutlookStyles_idempotent (html : jsstring) :
  addOutlookStyles (addOutlookStyles html) = addOutlookStyles html
  /\ indexOfCI (addOutlookStyles html) (js "<p>") = None
  /\ indexOfCI (addOutlookStyles html) (js "<ul>") = None
  /\ indexOfCI (addOutlookStyles html) (js "<ol>") = None.
Proof.
  split; [apply addOutlookStyles_idempotent_eq
         |apply addOutlookStyles_no_bare_tags].
Qed.

(** ** Tokens that the style injection cannot touch *)

Lemma startsWith_iff (s p : jsstring) :
  startsWith s p = true <-> exists rest, s = p ++ rest.
Proof.
  revert s. induction p as [|c p IH]; intros s.
  - split; [now exists s|reflexivity].
  - destruct s as [|d s]; cbn [startsWith].
    + split; [discriminate|]. intros [rest H]. discriminate H.
    + rewrite andb_true_iff, N.eqb_eq, IH. split.
      * intros [-> [rest ->]]. now exists rest.
      * intros [rest H]. injection H as -> ->. split; [reflexivity|].
        now exists rest.
Qed.

Lemma includes_iff (s p : jsstring) :
  includes s p = true <-> exists a b, s = a ++ p ++ b.
Proof.
  induction s as [|c s IH]; cbn [includes]; rewrite orb_true_iff, startsWith_iff.
  - split.
    + intros [[rest H]|H]; [|discriminate]. now exists [], rest.
    + intros (a & b & H). left. destruct a; [|discriminate].
      now exists b.
  - rewrite IH. split.
    + intros [[rest H]|(a & b & H)].
      * now exists [], rest.
      * exists (c :: a), b. now rewrite H.
    + intros (a & b & H). destruct a as [|d a].
      * left. now exists b.
      * right. injection H as -> ->. now exists a, b.
Qed.

(** An occurrence of [p] that starts in [t] does not reach a character
    that is foreign to [p]. *)
Lemma occurrence_stops_before (p : jsstring) (c0 : N) :
  Forall (fun d => (canon c0 =? canon d)%N = false) p ->
  forall t rest,
    startsWithCI (t ++ c0 :: rest) p = true -> length p <= length t.
Proof.
  induction p as [|d p IH]; intros Hp t rest; [cbn; lia|].
  pose proof (List.Forall_inv Hp) as Hd. cbv beta in Hd.
  pose proof (List.Forall_inv_tail Hp) as Hp'.
  destruct t as [|a t]; cbn [app startsWithCI].
  - rewrite Hd. discriminate.
  - intros H. apply andb_true_iff in H as [_ H].
    apply (IH Hp') in H. cbn [length]. lia.
Qed.

Lemma substCI_copies_token (p r : jsstring) (p0 : N) (p' : jsstring) :
  p = p0 :: p' ->
  forall tok,
    Forall (fun c => (canon c =? canon p0)%N = false) tok ->
    forall b, substCI p r 0 (tok ++ b) = tok ++ substCI p r 0 b.
Proof.
  intros Hp. induction tok as [|c tok IH]; intros Htok b; [reflexivity|].
  pose proof (List.Forall_inv Htok) as Hc. cbv beta in Hc.
  pose proof (List.Forall_inv_tail Htok) as Htok'.
  cbn [app substCI]. rewrite Hp at 1. cbn [startsWithCI]. rewrite Hc.
  cbn [andb]. f_equal. now apply IH.
Qed.

(** The replacement leaves in place a token that starts with a character
    foreign to the pattern and that has no character equal to the one the
    pattern starts with. *)
Lemma substCI_keeps_token (p r : jsstring) (p0 : N) (p' : jsstring)
    (c0 : N) (tok' : jsstring) :
  p = p0 :: p' ->
  Forall (fun d => (canon c0 =? canon d)%N = false) p ->
  Forall (fun c => (canon c =? canon p0)%N = false) (c0 :: tok') ->
  forall a b k, k <= length a ->
    exists a', substCI p r k (a ++ (c0 :: tok') ++ b)
               = a' ++ (c0 :: tok') ++ substCI p r 0 b.
Proof.
  intros Hp Hc0 Htok.
  induction a as [|x a IH]; intros b k Hk.
  - exists []. cbn [length] in Hk. replace k with 0 by lia.
    cbn [app]. apply (substCI_copies_token p r p0 p' Hp (c0 :: tok') Htok).
  - destruct k as [|k].
    + change (substCI p r 0 ((x :: a) ++ (c0 :: tok') ++ b))
        with (if startsWithCI (x :: a ++ (c0 :: tok') ++ b) p
              then r ++ substCI p r (length p - 1) (a ++ (c0 :: tok') ++ b)
              else x :: substCI p r 0 (a ++ (c0 :: tok') ++ b)).
      destruct (startsWithCI (x :: a ++ (c0 :: tok') ++ b) p) eqn:E.
      * apply (occurrence_stops_before p c0 Hc0 (x :: a) (tok' ++ b)) in E.
        cbn [length] in E.
        destruct (IH b (length p - 1) ltac:(lia)) as (a' & ->).
        exists (r ++ a'). now rewrite <- app_assoc.
      * destruct (IH b 0 ltac:(lia)) as (a' & ->).
        now exists (x :: a').
    + cbn [app substCI]. apply IH. cbn [length] in Hk. lia.
Qed.

(** X17: tokens such as [[[TABLE_1]]] survive the HTML path: when the
    body matches the HTML-tag pattern, a token that occurs in it, that
    starts with a character other than [<], [>] and the letters p, u, l,
    o (in either case), and that has no [<] in it, occurs in the
    formatted body as well. *)
Theorem html_path_keeps_tokens (body : jsstring) (c0 : N) (tok' : jsstring) :
  test htmlTagPattern body = true ->
  forallb (fun d => negb (canon c0 =? canon d)%N) (js "<>pulo") = true ->
  (forall c, In c (c0 :: tok') -> c <> 60%N) ->
  includes body (c0 :: tok') = true ->
  includes (formatBodyForInsert body) (c0 :: tok') = true.
Proof.
  intros Hhtml Hc0 Htok Hin.
  unfold formatBodyForInsert. rewrite Hhtml, addOutlookStyles_subst.
  assert (Hfirst : Forall (fun c => (canon c =? canon 60)%N = false) (c0 :: tok')).
  { apply List.Forall_forall. intros c Hc. apply Htok in Hc.
    destruct (canon c =? canon 60)%N eqn:E; [|reflexivity].
    apply canon_nonletter in E; [congruence|lia]. }
  assert (Hforeign : forall p, incl p (js "<>pulo") ->
            Forall (fun d => (canon c0 =? canon d)%N = false) p).
  { intros p Hp. apply List.Forall_forall. intros d Hd. apply Hp in Hd.
    rewrite forallb_forall in Hc0. apply Hc0 in Hd.
    now apply negb_true_iff. }
  assert (Hstep : forall p r s,
            (exists p', p = 60%N :: p') -> incl p (js "<>pulo") ->
            includes s (c0 :: tok') = true ->
            includes (substCI p r 0 s) (c0 :: tok') = true).
  { intros p r s [p' Hp] Hincl Hs. apply includes_iff in Hs as (a & b & ->).
    destruct (substCI_keeps_token p r 60%N p' c0 tok' Hp (Hforeign p Hincl)
                Hfirst a b 0 ltac:(lia)) as (a' & ->).
    apply includes_iff. eauto. }
  apply Hstep; [now exists (js "ol>")|vm_compute; tauto|].
  apply Hstep; [now exists (js "ul>")|vm_compute; tauto|].
  apply Hstep; [now exists (js "p>")|vm_compute; tauto|].
  exact Hin.
Qed.

Lemma html_path_keeps_tokens_witness :
  test htmlTagPattern (js "<p>See [[TABLE_1]] and [[IMAGE_1]].</p>") = true
  /\ includes (formatBodyForInsert (js "<p>See [[TABLE_1]] and [[IMAGE_1]].</p>"))
              (js "[[IMAGE_1]]") = true.
Proof.
  assert (H : test htmlTagPattern (js "<p>See [[TABLE_1]] and [[IMAGE_1]].</p>")
              = true) by (vm_compute; reflexivity).
  split; [exact H|].
  apply (html_path_keeps_tokens _ 91%N (js "[IMAGE_1]]") H).
  - vm_compute. reflexivity.
  - intros c Hc. vm_compute in Hc.
    repeat (destruct Hc as [Hc|Hc]; [subst c; discriminate|]). destruct Hc.
  - vm_compute. reflexivity.
Defined.

(** ** The HTML path is stable *)

(** The greedy [[\s\S]*] offers every position from the current one to
    the end of the text. *)
Lemma rep_any_all (s : jsstring) (c : option (nat * nat)) :
  forall (fuel i j : nat),
    length s - i < fuel -> i <= j <= length s ->
    In (MState j c) (rep_loop (run any s) fuel true 0 None (MState i c)).
Proof.
  induction fuel as [|fuel IH]; intros i j Hfuel Hj; [lia|].
  cbn [rep_loop Nat.eqb negb andb]. apply in_or_app.
  destruct (Nat.eq_dec j i) as [->|Hne]; [right; now left|left].
  cbn [run any pos cap]. unfold char_at.
  destruct (nth_error s i) as [d|] eqn:Hd.
  2:{ apply nth_error_None in Hd. lia. }
  cbn [flat_map pos]. replace (S i =? i) with false
    by (symmetry; apply Nat.eqb_neq; lia).
  rewrite app_nil_r. apply IH; lia.
Qed.

Lemma nth_error_skipn {A : Type} (l : list A) :
  forall k m, nth_error (skipn k l) m = nth_error l (k + m).
Proof.
  induction l as [|x l IH]; intros [|k] m; try reflexivity.
  - now destruct m.
  - cbn [skipn Nat.add nth_error]. apply IH.
Qed.

Lemma star_then_gt (s : jsstring) (k : nat) (cap0 : option (nat * nat)) :
  k <= length s ->
  match head (flat_map (run (chri 62) s)
                (run (star any) s (MState k cap0))) with
  | Some _ => true
  | None => false
  end
  = existsb (fun d => (canon d =? canon 62)%N) (skipn k s).
Proof.
  intros Hk.
  destruct (existsb (fun d => (canon d =? canon 62)%N) (skipn k s)) eqn:E.
  - apply existsb_exists in E as (d & Hin & Hd).
    apply In_nth_error in Hin as (m & Hm). rewrite nth_error_skipn in Hm.
    assert (Hlt : k + m < length s) by (apply nth_error_Some; congruence).
    assert (Hstar : In (MState (k + m) cap0) (run (star any) s (MState k cap0))).
    { unfold star. cbn [run]. apply rep_any_all; cbn [Nat.add]; lia. }
    assert (Hin : In (MState (S (k + m)) cap0)
                     (flat_map (run (chri 62) s)
                        (run (star any) s (MState k cap0)))).
    { apply in_flat_map. exists (MState (k + m) cap0). split; [exact Hstar|].
      unfold chri. cbn [run pos cap]. unfold char_at. rewrite Hm, Hd.
      now left. }
    destruct (flat_map (run (chri 62) s) (run (star any) s (MState k cap0)));
      [destruct Hin|reflexivity].
  - destruct (head (flat_map (run (chri 62) s)
                      (run (star any) s (MState k cap0)))) as [y|] eqn:Hy;
      [|reflexivity].
    exfalso. apply head_flat_map in Hy as (x & Hx & Hy).
    apply run_forward in Hx. cbn [pos] in Hx.
    unfold chri in Hy. cbn [run] in Hy. unfold char_at in Hy.
    destruct (nth_error s (pos x)) as [d|] eqn:Hd; [|discriminate].
    destruct (canon d =? canon 62)%N eqn:Hc; [|discriminate].
    assert (Hex : existsb (fun d => (canon d =? canon 62)%N) (skipn k s) = true).
    { apply existsb_exists. exists d. split; [|exact Hc].
      apply (nth_error_In _ (pos x - k)). rewrite nth_error_skipn.
      replace (k + (pos x - k)) with (pos x) by lia. exact Hd. }
    congruence.
Qed.

Lemma run_chri_eq (s : jsstring) (c : N) (st : mstate) :
  run (chri c) s st
  = match nth_error s (pos st) with
    | Some d => if (canon d =? canon c)%N
                then [MState (S (pos st)) (cap st)] else []
    | None => []
    end.
Proof. reflexivity. Qed.

Lemma run_clsi_eq (s : jsstring) (l : list (N * N)) (st : mstate) :
  run (clsi l) s st
  = match nth_error s (pos st) with
    | Some d => if in_ranges_i l d
                then [MState (S (pos st)) (cap st)] else []
    | None => []
    end.
Proof. reflexivity. Qed.

Lemma run_Seq_eq (a b : regex) (s : jsstring) (st : mstate) :
  run (Seq a b) s st = flat_map (run b s) (run a s st).
Proof. reflexivity. Qed.

Lemma htmlTag_match_at (s : jsstring) (i : nat) :
  match match_at htmlTagPattern s i with Some _ => true | None => false end
  = tagOpens (skipn i s).
Proof.
  unfold match_at, htmlTagPattern. cbn [seqs].
  change (fst (one "<")) with 60%N. change (fst (one ">")) with 62%N.
  rewrite run_Seq_eq, run_chri_eq. cbn [pos cap].
  destruct (nth_error s i) as [a|] eqn:Ha.
  2:{ rewrite (skipn_nth_error_None s i Ha). reflexivity. }
  rewrite (skipn_nth_error_Some s i a Ha).
  destruct (canon a =? canon 60)%N eqn:Ea.
  2:{ cbn [flat_map head]. destruct (skipn (S i) s); cbn [tagOpens];
        rewrite ?Ea; reflexivity. }
  cbn [flat_map]. rewrite app_nil_r, run_Seq_eq, run_clsi_eq. cbn [pos cap].
  destruct (nth_error s (S i)) as [b|] eqn:Hb.
  2:{ rewrite (skipn_nth_error_None s (S i) Hb). reflexivity. }
  rewrite (skipn_nth_error_Some s (S i) b Hb). cbn [tagOpens]. rewrite Ea.
  destruct (in_ranges_i [rng "a" "z"] b); [|reflexivity].
  cbn [flat_map andb]. rewrite app_nil_r, run_Seq_eq.
  apply star_then_gt.
  assert (S i < length s) by (apply nth_error_Some; congruence). lia.
Qed.

Lemma search_complete (r : regex) (s : jsstring) :
  forall (n i j : nat),
    i <= j <= i + n -> match_at r s j <> None -> search r s i n <> None.
Proof.
  induction n as [|n IH]; intros i j Hj Hm; cbn [search];
    destruct (match_at r s i) eqn:E; try discriminate.
  - replace j with i in Hm by lia. congruence.
  - apply (IH (S i) j); [|exact Hm].
    destruct (Nat.eq_dec j i) as [->|]; [congruence|lia].
Qed.

(** [test] of the HTML-tag pattern says whether a tag opens somewhere. *)
Lemma htmlTag_test (s : jsstring) :
  test htmlTagPattern s = true <-> exists n, tagOpens (skipn n s) = true.
Proof.
  unfold test. split.
  - destruct (exec htmlTagPattern s) as [[j st]|] eqn:E; [|discriminate].
    intros _. apply exec_found in E as [_ E]. exists j.
    rewrite <- htmlTag_match_at, E. reflexivity.
  - intros [n Hn]. rewrite <- htmlTag_match_at in Hn.
    assert (Hle : n <= length s).
    { destruct (Nat.le_gt_cases n (length s)) as [H|H]; [exact H|].
      rewrite htmlTag_match_at, skipn_all2 in Hn by lia. discriminate. }
    destruct (exec htmlTagPattern s) eqn:E; [reflexivity|].
    exfalso. unfold exec, exec_from in E. cbn [Nat.ltb Nat.leb] in E.
    apply (search_complete htmlTagPattern s (length s - 0) 0 n); [lia| |exact E].
    destruct (match_at htmlTagPattern s n); [discriminate|discriminate Hn].
Qed.

Lemma range_members_bounds (lo hi a : N) :
  In a (range_members (lo, hi)) -> (lo <= a)%N /\ (lo <= hi -> a <= hi)%N.
Proof.
  unfold range_members. cbn [fst snd]. intros H.
  apply in_map_iff in H as (k & <- & Hk). apply in_seq in Hk. lia.
Qed.

Lemma letter_not_open (b : N) :
  in_ranges_i [rng "a" "z"] b = true -> (canon b =? canon 60)%N = false.
Proof.
  unfold in_ranges_i. intros H. apply existsb_exists in H as (a & Ha & Hab).
  change (rng "a" "z") with (97%N, 122%N) in Ha.
  cbn [flat_map] in Ha. rewrite app_nil_r in Ha.
  apply range_members_bounds in Ha as [H1 H2].
  specialize (H2 ltac:(lia)).
  apply N.eqb_eq in Hab. apply N.eqb_neq. rewrite <- Hab.
  unfold canon at 1.
  replace ((97 <=? a)%N && (a <=? 122)%N) with true.
  - change (canon 60) with 60%N. lia.
  - symmetry. apply andb_true_iff. split; apply N.leb_le; lia.
Qed.

(** An occurrence of a pattern whose later characters are not [<] does
    not reach over a [<]. *)
Lemma occurrence_stops_before_open (p0 : N) (p' : jsstring) :
  Forall (fun d => (canon 60 =? canon d)%N = false) p' ->
  forall x t rest,
    startsWithCI ((x :: t) ++ 60%N :: rest) (p0 :: p') = true ->
    length (p0 :: p') <= length (x :: t).
Proof.
  intros Hp' x t rest H. cbn [app startsWithCI] in H.
  apply andb_true_iff in H as [_ H].
  apply (occurrence_stops_before p' 60%N Hp') in H. cbn [length]. lia.
Qed.

Lemma substCI_reaches_open (p r : jsstring) (p0 : N) (p' : jsstring) :
  p = p0 :: p' ->
  Forall (fun d => (canon 60 =? canon d)%N = false) p' ->
  forall a rest k, k <= length a ->
    exists a', substCI p r k (a ++ 60%N :: rest)
               = a' ++ substCI p r 0 (60%N :: rest).
Proof.
  intros Hp Hp'. induction a as [|x a IH]; intros rest k Hk.
  - exists []. cbn [length] in Hk. now replace k with 0 by lia.
  - destruct k as [|k].
    + change (substCI p r 0 ((x :: a) ++ 60%N :: rest))
        with (if startsWithCI ((x :: a) ++ 60%N :: rest) p
              then r ++ substCI p r (length p - 1) (a ++ 60%N :: rest)
              else x :: substCI p r 0 (a ++ 60%N :: rest)).
      destruct (startsWithCI ((x :: a) ++ 60%N :: rest) p) eqn:E.
      * rewrite Hp in E.
        apply (occurrence_stops_before_open p0 p' Hp') in E.
        rewrite <- Hp in E. cbn [length] in E.
        destruct (IH rest (length p - 1) ltac:(lia)) as (a' & ->).
        exists (r ++ a'). now rewrite <- app_assoc.
      * destruct (IH rest 0 ltac:(lia)) as (a' & ->). now exists (x :: a').
    + cbn [app substCI]. apply IH. cbn [length] in Hk. lia.
Qed.

Lemma substCI_keeps_gt (p r : jsstring) :
  existsb (fun d => (canon d =? canon 62)%N) r = true ->
  forall t k,
    existsb (fun d => (canon d =? canon 62)%N) (skipn k t) = true ->
    existsb (fun d => (canon d =? canon 62)%N) (substCI p r k t) = true.
Proof.
  intros Hr. induction t as [|c t IH]; intros k Hk.
  - rewrite skipn_nil in Hk. discriminate.
  - destruct k as [|k]; cbn [substCI]; [|now apply IH].
    cbn [skipn existsb] in Hk.
    destruct (startsWithCI (c :: t) p).
    + rewrite existsb_app, Hr. reflexivity.
    + cbn [existsb]. apply orb_true_iff in Hk as [Hk|Hk].
      * now rewrite Hk.
      * rewrite (IH 0 Hk). apply orb_true_r.
Qed.

(** One replacement of [addOutlookStyles] keeps a body on the HTML path. *)
Lemma substCI_keeps_tag (p r : jsstring) (p' r' : jsstring) (rb : N) :
  p = 60%N :: p' ->
  Forall (fun d => (canon 60 =? canon d)%N = false) p' ->
  r = 60%N :: rb :: r' ->
  in_ranges_i [rng "a" "z"] rb = true ->
  existsb (fun d => (canon d =? canon 62)%N) r' = true ->
  forall s,
    (exists n, tagOpens (skipn n s) = true) ->
    exists m, tagOpens (skipn m (substCI p r 0 s)) = true.
Proof.
  intros Hp Hp' Hr Hrb Hr' s [n Hn].
  assert (Hsplit : s = firstn n s ++ skipn n s) by (symmetry; apply firstn_skipn).
  destruct (skipn n s) as [|a [|b t]]; try discriminate.
  cbn [tagOpens] in Hn.
  apply andb_true_iff in Hn as [Hn Hgt]. apply andb_true_iff in Hn as [Ha Hb].
  apply canon_nonletter in Ha; [|lia]. subst a.
  destruct (substCI_reaches_open p r 60%N p' Hp Hp' (firstn n s) (b :: t) 0
              ltac:(lia)) as (a' & Ha').
  rewrite Hsplit, Ha'. exists (length a').
  rewrite skipn_app, skipn_all, Nat.sub_diag, skipn_O. cbn [app].
  change (substCI p r 0 (60%N :: b :: t))
    with (if startsWithCI (60%N :: b :: t) p
          then r ++ substCI p r (length p - 1) (b :: t)
          else 60%N :: substCI p r 0 (b :: t)).
  destruct (startsWithCI (60%N :: b :: t) p).
  - rewrite Hr at 1. cbn [app tagOpens].
    rewrite Hrb, existsb_app, Hr'. reflexivity.
  - assert (Hb' : startsWithCI (b :: t) p = false).
    { rewrite Hp. cbn [startsWithCI]. now rewrite (letter_not_open b Hb). }
    change (substCI p r 0 (b :: t))
      with (if startsWithCI (b :: t) p
            then r ++ substCI p r (length p - 1) t
            else b :: substCI p r 0 t).
    rewrite Hb'. cbn [tagOpens]. rewrite Hb.
    rewrite (substCI_keeps_gt p r); [reflexivity| |exact Hgt].
    rewrite Hr. cbn [existsb]. rewrite Hr'. now rewrite !orb_true_r.
Qed.

Lemma addOutlookStyles_keeps_tag (html : jsstring) :
  test htmlTagPattern html = true ->
  test htmlTagPattern (addOutlookStyles html) = true.
Proof.
  rewrite !htmlTag_test, addOutlookStyles_subst. intros H.
  apply (substCI_keeps_tag (js "<ol>") olStyled (js "ol>") (skipn 2 olStyled) 111%N);
    [reflexivity|now apply tag_tail_not_open|reflexivity
    |vm_compute; reflexivity|vm_compute; reflexivity|].
  apply (substCI_keeps_tag (js "<ul>") ulStyled (js "ul>") (skipn 2 ulStyled) 117%N);
    [reflexivity|now apply tag_tail_not_open|reflexivity
    |vm_compute; reflexivity|vm_compute; reflexivity|].
  apply (substCI_keeps_tag (js "<p>") pStyled (js "p>") (skipn 2 pStyled) 112%N);
    [reflexivity|now apply tag_tail_not_open|reflexivity
    |vm_compute; reflexivity|vm_compute; reflexivity|].
  exact H.
Qed.

(** X18: on the HTML path [formatBodyForInsert] is idempotent: a body
    that matches the HTML-tag pattern is formatted into a body that still
    matches it and that a second formatting returns unchanged. *)
Theorem html_path_idempotent (body : jsstring) :
  test htmlTagPattern body = true ->
  test htmlTagPattern (formatBodyForInsert body) = true
  /\ formatBodyForInsert (formatBodyForInsert body) = formatBodyForInsert body.
Proof.
  intros Hhtml.
  assert (Hfmt : formatBodyForInsert body = addOutlookStyles body)
    by (unfold formatBodyForInsert; now rewrite Hhtml).
  pose proof (addOutlookStyles_keeps_tag body Hhtml) as Hkeep.
  rewrite Hfmt. split; [exact Hkeep|].
  unfold formatBodyForInsert at 1. rewrite Hkeep.
  apply addOutlookStyles_idempotent_eq.
Qed.

Lemma html_path_idempotent_witness :
  test htmlTagPattern (js "<P>Hi</P><ul><li>a</li></ul>") = true
  /\ formatBodyForInsert (formatBodyForInsert (js "<P>Hi</P><ul><li>a</li></ul>"))
     = formatBodyForInsert (js "<P>Hi</P><ul><li>a</li></ul>").
Proof.
  assert (H : test htmlTagPattern (js "<P>Hi</P><ul><li>a</li></ul>") = true)
    by (vm_compute; reflexivity).
  split; [exact H|]. exact (proj2 (html_path_idempotent _ H)).
Defined.

(** ** Text without tags *)

(** X19: a body without any [<] goes through the style injection and
    through the plain-text copy unchanged. *)
Theorem tag_free_text_unchanged (body : jsstring) :
  ~ In 60%N body ->
  addOutlookStyles body = body /\ plainTextOf body = body.
Proof.
  intros Hno.
  assert (Hrun : forall r, needs (fun c => (c =? 60)%N) r ->
                           forall st, run r body st = []).
  { intros r Hr. apply (needs_no_match (fun c => (c =? 60)%N)); [|exact Hr].
    intros c Hc. apply N.eqb_neq. intros ->. now apply Hno. }
  assert (Hopen : needs (fun c => (c =? 60)%N) (chri 60))
    by (apply needs_chri_nonletter; lia).
  split.
  - transitivity
      (replace_all (liti (js "<ol>")) [RLit olStyled]
         (replace_all (liti (js "<ul>")) [RLit ulStyled]
            (replace_all (liti (js "<p>")) [RLit pStyled] body)));
      [destruct body; reflexivity|].
    destruct (no_match_effects (liti (js "<p>")) body [RLit pStyled])
      as (_ & _ & ->).
    { apply Hrun. change (liti (js "<p>")) with (Seq (chri 60) (liti (js "p>"))).
      now apply needs_seq_l. }
    destruct (no_match_effects (liti (js "<ul>")) body [RLit ulStyled])
      as (_ & _ & ->).
    { apply Hrun. change (liti (js "<ul>")) with (Seq (chri 60) (liti (js "ul>"))).
      now apply needs_seq_l. }
    destruct (no_match_effects (liti (js "<ol>")) body [RLit olStyled])
      as (_ & _ & ->).
    { apply Hrun. change (liti (js "<ol>")) with (Seq (chri 60) (liti (js "ol>"))).
      now apply needs_seq_l. }
    reflexivity.
  - unfold plainTextOf. apply no_match_effects. apply Hrun.
    unfold tagPattern. cbn [seqs]. apply needs_seq_l.
    change (fst (one "<")) with 60%N. apply needs_chr_same.
Qed.

Lemma tag_free_text_unchanged_witness :
  ~ In 60%N (js "a > b")
  /\ addOutlookStyles (js "a > b") = js "a > b"
  /\ plainTextOf (js "a > b") = js "a > b".
Proof.
  assert (H : ~ In 60%N (js "a > b")).
  { vm_compute. intros H.
    repeat (destruct H as [H|H]; [discriminate H|]). exact H. }
  split; [exact H|]. exact (tag_free_text_unchanged _ H).
Defined.

(** ** Escaping for the prompt list *)

Lemma escapeHtml_escapeText (text : jsstring) :
  escapeHtml text = escapeText text.
Proof.
  unfold escapeHtml, innerHTML. destruct text; [reflexivity|].
  cbn [flat_map serializeNode]. apply app_nil_r.
Qed.

(** X20: [escapeHtml] never outputs [<] or [>], so a prompt name or
    instruction cannot open or close a tag in the rendered list; and a
    text without [&], [<], [>] and no-break space is returned as it is. *)
Theorem escapeHtml_has_no_angle_brackets (text : jsstring) :
  ~ In 60%N (escapeHtml text)
  /\ ~ In 62%N (escapeHtml text)
  /\ ((forall c, In c text -> c <> 38 /\ c <> 60 /\ c <> 62 /\ c <> 160)%N ->
      escapeHtml text = text).
Proof.
  rewrite escapeHtml_escapeText. unfold escapeText.
  assert (Hout : forall b, (b = 60 \/ b = 62)%N ->
            ~ In b (flat_map
                      (fun c => if (c =? 38)%N then js "&amp;"
                                else if (c =? 160)%N then js "&nbsp;"
                                else if (c =? 60)%N then js "&lt;"
                                else if (c =? 62)%N then js "&gt;"
                                else [c]) text)).
  { intros b Hb Hin. apply in_flat_map in Hin as (c & _ & Hin).
    destruct (c =? 38)%N; [vm_compute in Hin; intuition lia|].
    destruct (c =? 160)%N; [vm_compute in Hin; intuition lia|].
    destruct (c =? 60)%N eqn:E1; [vm_compute in Hin; intuition lia|].
    destruct (c =? 62)%N eqn:E2; [vm_compute in Hin; intuition lia|].
    destruct Hin as [<-|[]]. apply N.eqb_neq in E1, E2. lia. }
  split; [apply Hout; lia|]. split; [apply Hout; lia|]. clear Hout.
  intros Hplain. induction text as [|c text IH]; [reflexivity|].
  cbn [flat_map]. destruct (Hplain c ltac:(now left)) as (H1 & H2 & H3 & H4).
  replace (c =? 38)%N with false by (symmetry; now apply N.eqb_neq).
  replace (c =? 160)%N with false by (symmetry; now apply N.eqb_neq).
  replace (c =? 60)%N with false by (symmetry; now apply N.eqb_neq).
  replace (c =? 62)%N with false by (symmetry; now apply N.eqb_neq).
  cbn [app]. f_equal. apply IH. intros d Hd. apply Hplain. now right.
Qed.

Lemma escapeHtml_has_no_angle_brackets_witness :
  escapeHtml (js "Fix Grammar") = js "Fix Grammar".
Proof.
  apply (proj2 (proj2 (escapeHtml_has_no_angle_brackets (js "Fix Grammar")))).
  intros c Hc. vm_compute in Hc.
  repeat (destruct Hc as [<-|Hc]; [lia|]). destruct Hc.
Defined.

(** ** The thread text and the thread fragment *)

(** X21: when the thread start is found by a marker or by a
    "From: ... Sent:" block, the thread text that [parseEmailHtml] gives
    to the prompt is the trimmed text of exactly the nodes that
    [extractPreservedContent] keeps as the thread fragment, and the
    current-message text is the trimmed text of the tree left for the
    signature search. *)
Theorem thread_text_matches_fragment
    (temp : list node) (threadElement : path) (n : node) :
  findThreadByMarkersOrText temp = Some (threadElement, n) ->
  threadContent (parseEmailHtml temp)
    = trim (textContent (fst (extractThread temp)))
  /\ currentMessage (parseEmailHtml temp)
     = trim (textContent (snd (extractThread temp))).
Proof.
  intros Hfind.
  pose proof (findThread_descendant _ _ Hfind) as Hin.
  apply descendant_top in Hin as (k & c & Hlast & Hnth & _).
  cbn [fst] in Hlast.
  assert (Hk : k < length temp) by (apply nth_error_Some; congruence).
  unfold parseEmailHtml, locateThreadStart, extractThread. rewrite Hfind.
  rewrite (splitBefore_at threadElement k Hlast temp 0) by lia.
  rewrite (walkUp_last _ _ Hlast), Nat.sub_0_r. split; reflexivity.
Qed.

Lemma thread_text_matches_fragment_witness :
  findThreadByMarkersOrText roundTripDocument
    = Some ([1], Elem (js "hr") [(js "tabindex", js "-1")] [])
  /\ threadContent (parseEmailHtml roundTripDocument)
     = trim (textContent (fst (extractThread roundTripDocument))).
Proof.
  assert (H : findThreadByMarkersOrText roundTripDocument
              = Some ([1], Elem (js "hr") [(js "tabindex", js "-1")] []))
    by (vm_compute; reflexivity).
  split; [exact H|].
  exact (proj1 (thread_text_matches_fragment roundTripDocument [1] _ H)).
Defined.

(** ** Provider settings *)



(** X23: [getProvider] hands out an adapter only when the active provider
    has an entry with a non-empty API key, and the adapter holds that
    entry; the adapter is the OpenAI one exactly for the names [openai]
    and [custom]. *)
Theorem getProvider_sound
    (stored : option providerSettings) (p : llmProvider) :
  getProvider stored = inr p ->
  let settings := storage.getProviderSettings stored in
  providers settings !! activeProvider settings = Some (configOf p)
  /\ apiKey (configOf p) <> []
  /\ match p with
     | OpenAIProvider _ =>
         activeProvider settings = js "openai"
         \/ activeProvider settings = js "custom"
     | ClaudeProvider _ => activeProvider settings = js "claude"
     | GeminiProvider _ => activeProvider settings = js "gemini"
     end.
Proof.
  intros H settings. unfold getProvider in H. cbv zeta in H.
  fold settings in H.
  destruct (providers settings !! activeProvider settings) as [config|];
    [|discriminate].
  unfold str_eqb in H.
  destruct (decide (apiKey config = [])) as [E|E].
  { rewrite bool_decide_eq_true_2 in H by exact E. discriminate. }
  rewrite bool_decide_eq_false_2 in H by exact E.
  destruct (decide (activeProvider settings = js "openai")) as [E1|E1].
  { rewrite (bool_decide_eq_true_2 _ E1) in H. cbn [orb] in H.
    injection H as <-. cbn [configOf]. auto. }
  rewrite (bool_decide_eq_false_2 _ E1) in H. cbn [orb] in H.
  destruct (decide (activeProvider settings = js "custom")) as [E2|E2].
  { rewrite (bool_decide_eq_true_2 _ E2) in H.
    injection H as <-. cbn [configOf]. auto. }
  rewrite (bool_decide_eq_false_2 _ E2) in H.
  destruct (decide (activeProvider settings = js "claude")) as [E3|E3].
  { rewrite (bool_decide_eq_true_2 _ E3) in H.
    injection H as <-. cbn [configOf]. auto. }
  rewrite (bool_decide_eq_false_2 _ E3) in H.
  destruct (decide (activeProvider settings = js "gemini")) as [E4|E4].
  { rewrite (bool_decide_eq_true_2 _ E4) in H.
    injection H as <-. cbn [configOf]. auto. }
  rewrite (bool_decide_eq_false_2 _ E4) in H. discriminate.
Qed.

Lemma getProvider_sound_witness :
  let saved := saveSettings None (Some (js "custom"))
                 (js " sk-1 ") (js "http://localhost:1234/v1") (js "local") in
  getProvider saved
    = inr (OpenAIProvider
             (ProviderConfig (js "sk-1") (js "http://localhost:1234/v1")
                             (js "local")))
  /\ activeProvider (storage.getProviderSettings saved) = js "custom".
Proof.
  intros saved.
  assert (H : getProvider saved
              = inr (OpenAIProvider
                       (ProviderConfig (js "sk-1") (js "http://localhost:1234/v1")
                                       (js "local"))))
    by (vm_compute; reflexivity).
  split; [exact H|].
  destruct (getProvider_sound saved _ H) as (_ & _ & [E|E]).
  - vm_compute in E. discriminate E.
  - exact E.
Defined.

(** ** Well-formed completions *)

Lemma skip_ws_app (w : jsstring) (c : N) (rest : jsstring) :
  forallb is_json_ws w = true -> is_json_ws c = false ->
  skip_ws (w ++ c :: rest) = c :: rest.
Proof.
  intros Hw Hc. induction w as [|d w IH]; cbn [app skip_ws].
  - now rewrite Hc.
  - cbn [forallb] in Hw. apply andb_prop in Hw as [Hd Hw].
    rewrite Hd. now apply IH.
Qed.

Lemma skip_ws_spaces (w : jsstring) :
  forallb is_json_ws w = true -> skip_ws w = [].
Proof.
  induction w as [|d w IH]; [reflexivity|].
  cbn [forallb skip_ws]. intros H. apply andb_prop in H as [Hd Hw].
  rewrite Hd. now apply IH.
Qed.

Lemma parse_chars_other (c : N) (rest acc : jsstring) :
  c <> 34%N -> c <> 92%N ->
  parse_chars (c :: rest) acc
  = if (c <? 32)%N then None else parse_chars rest (c :: acc).
Proof.
  intros H1 H2. destruct c as [|p]; [reflexivity|].
  do 7 (try (destruct p as [p|p|]; try reflexivity)); congruence.
Qed.

Lemma parse_chars_plain (s : jsstring) :
  forall acc rest,
    forallb plainChar s = true ->
    parse_chars (s ++ 34%N :: rest) acc = Some (rev acc ++ s, rest).
Proof.
  induction s as [|c s IH]; intros acc rest Hs.
  - cbn [app parse_chars]. now rewrite app_nil_r.
  - cbn [forallb] in Hs. apply andb_prop in Hs as [Hc Hs].
    unfold plainChar in Hc.
    apply andb_prop in Hc as [Hc H92]. apply andb_prop in Hc as [H32 H34].
    apply negb_true_iff, N.eqb_neq in H92, H34.
    apply N.leb_le in H32.
    cbn [app]. rewrite parse_chars_other by assumption.
    replace (c <? 32)%N with false by (symmetry; apply N.ltb_ge; exact H32).
    rewrite (IH (c :: acc) rest Hs). cbn [rev].
    now rewrite <- app_assoc.
Qed.

Lemma parse_value_eq (fuel : nat) (s : jsstring) :
  parse_value (S fuel) s
  = match skip_ws s with
    | 34%N :: rest =>
        match parse_chars rest [] with
        | Some (str, rest') => Some (JString str, rest')
        | None => None
        end
    | 91%N :: rest =>
        match skip_ws rest with
        | 93%N :: rest' => Some (JArray [], rest')
        | _ =>
            match parse_elements fuel rest [] with
            | Some (items, rest') => Some (JArray items, rest')
            | None => None
            end
        end
    | 123%N :: rest =>
        match skip_ws rest with
        | 125%N :: rest' => Some (JObject [], rest')
        | _ =>
            match parse_members fuel rest [] with
            | Some (members, rest') => Some (JObject members, rest')
            | None => None
            end
        end
    | t =>
        if startsWith t (js "null") then Some (JNull, skipn 4 t)
        else if startsWith t (js "true") then Some (JBool true, skipn 4 t)
        else if startsWith t (js "false") then Some (JBool false, skipn 5 t)
        else match parse_number t with
             | Some (n, rest) => Some (JNumber n, rest)
             | None => None
             end
    end.
Proof. reflexivity. Qed.

Lemma parse_members_eq (fuel : nat) (s : jsstring)
    (acc : list (jsstring * json)) :
  parse_members (S fuel) s acc
  = match skip_ws s with
    | 34%N :: rest =>
        match parse_chars rest [] with
        | Some (key, rest1) =>
            match skip_ws rest1 with
            | 58%N :: rest2 =>
                match parse_value fuel rest2 with
                | Some (v, rest3) =>
                    match skip_ws rest3 with
                    | 44%N :: rest4 =>
                        parse_members fuel rest4 ((key, v) :: acc)
                    | 125%N :: rest4 => Some (rev ((key, v) :: acc), rest4)
                    | _ => None
                    end
                | None => None
                end
            | _ => None
            end
        | None => None
        end
    | _ => None
    end.
Proof. reflexivity. Qed.

(** A string literal, after white space, is read up to its closing quote. *)
Lemma parse_value_literal (fuel : nat) (w s rest : jsstring) :
  forallb is_json_ws w = true -> forallb plainChar s = true ->
  parse_value (S fuel) (w ++ 34%N :: s ++ 34%N :: rest)
  = Some (JString s, rest).
Proof.
  intros Hw Hs. rewrite parse_value_eq.
  rewrite (skip_ws_app w 34 _ Hw eq_refl).
  now rewrite (parse_chars_plain s [] rest Hs).
Qed.

(** One member whose value is a string literal, up to the comma or the
    closing brace [c] that follows it. *)
Lemma parse_member_literal (fuel : nat) (w k w' v w'' : jsstring) (c : N)
    (rest : jsstring) (acc : list (jsstring * json)) :
  forallb is_json_ws w = true -> forallb plainChar k = true ->
  forallb is_json_ws w' = true -> forallb plainChar v = true ->
  forallb is_json_ws w'' = true -> is_json_ws c = false ->
  parse_members (S (S fuel))
    (w ++ 34%N :: k ++ 34%N :: 58%N :: w' ++ 34%N :: v ++ 34%N :: w''
       ++ c :: rest) acc
  = match skip_ws (c :: rest) with
    | 44%N :: rest4 =>
        parse_members (S fuel) rest4 ((k, JString v) :: acc)
    | 125%N :: rest4 => Some (rev ((k, JString v) :: acc), rest4)
    | _ => None
    end.
Proof.
  intros Hw Hk Hw' Hv Hw'' Hc. rewrite parse_members_eq.
  rewrite (skip_ws_app w 34 _ Hw eq_refl).
  rewrite (parse_chars_plain k [] _ Hk). cbn [rev app].
  change (skip_ws (58%N :: ?r)) with (58%N :: r). cbv iota.
  rewrite (parse_value_literal fuel w' v _ Hw' Hv).
  rewrite (skip_ws_app w'' c rest Hw'' Hc).
  cbn [skip_ws]. rewrite Hc. reflexivity.
Qed.

Lemma reply_parses (w1 w2 w3 w4 w5 subject body : jsstring) :
  forallb is_json_ws (w1 ++ w2 ++ w3 ++ w4 ++ w5) = true ->
  forallb plainChar (subject ++ body) = true ->
  Json.parse (reply w1 w2 w3 w4 w5 subject body)
  = Some (JObject [(js "subject", JString subject);
                   (js "body", JString body)]).
Proof.
  intros Hw Hp.
  rewrite forallb_app in Hp. rewrite !forallb_app in Hw.
  apply andb_prop in Hp as [Hs Hb].
  apply andb_prop in Hw as [Hw1 Hw]. apply andb_prop in Hw as [Hw2 Hw].
  apply andb_prop in Hw as [Hw3 Hw]. apply andb_prop in Hw as [Hw4 Hw5].
  unfold Json.parse.
  assert (Hfuel : exists f, 2 * length (reply w1 w2 w3 w4 w5 subject body) + 2
                            = S (S (S (S f)))).
  { exists (2 * length (reply w1 w2 w3 w4 w5 subject body) - 2).
    unfold reply. change (js "{" ++ ?r) with (123%N :: r).
    cbn [length]. lia. }
  destruct Hfuel as [f ->].
  unfold reply. unfold dq.
  change (js "{" ++ ?r) with (123%N :: r).
  rewrite parse_value_eq.
  change (skip_ws (123%N :: ?r)) with (123%N :: r). cbv iota.
  assert (Hmem :
    parse_members (S (S (S f)))
      (w1 ++ [34%N] ++ js "subject" ++ [34%N] ++ js ":" ++ w2 ++ [34%N]
         ++ subject ++ [34%N] ++ js "," ++ w3 ++ [34%N] ++ js "body"
         ++ [34%N] ++ js ":" ++ w4 ++ [34%N] ++ body ++ [34%N] ++ w5
         ++ js "}") []
    = Some ([(js "subject", JString subject); (js "body", JString body)],
            [])).
  { change (w1 ++ [34%N] ++ js "subject" ++ [34%N] ++ js ":" ++ w2 ++ [34%N]
         ++ subject ++ [34%N] ++ js "," ++ w3 ++ [34%N] ++ js "body"
         ++ [34%N] ++ js ":" ++ w4 ++ [34%N] ++ body ++ [34%N] ++ w5
         ++ js "}")
      with (w1 ++ 34%N :: js "subject" ++ 34%N :: 58%N :: w2 ++ 34%N
              :: subject ++ 34%N :: [] ++ 44%N
              :: (w3 ++ 34%N :: js "body" ++ 34%N :: 58%N :: w4 ++ 34%N
                    :: body ++ 34%N :: w5 ++ 125%N :: [])).
    rewrite (parse_member_literal (S f) w1 (js "subject") w2 subject []
               44 _ [] Hw1 eq_refl Hw2 Hs eq_refl eq_refl).
    change (skip_ws (44%N :: ?r)) with (44%N :: r). cbv iota.
    rewrite (parse_member_literal f w3 (js "body") w4 body w5
               125 [] _ Hw3 eq_refl Hw4 Hb Hw5 eq_refl).
    reflexivity. }
  assert (Hrest :
    skip_ws (w1 ++ [34%N] ++ js "subject" ++ [34%N] ++ js ":" ++ w2 ++ [34%N]
         ++ subject ++ [34%N] ++ js "," ++ w3 ++ [34%N] ++ js "body"
         ++ [34%N] ++ js ":" ++ w4 ++ [34%N] ++ body ++ [34%N] ++ w5
         ++ js "}")
    = 34%N :: js "subject" ++ [34%N] ++ js ":" ++ w2 ++ [34%N]
         ++ subject ++ [34%N] ++ js "," ++ w3 ++ [34%N] ++ js "body"
         ++ [34%N] ++ js ":" ++ w4 ++ [34%N] ++ body ++ [34%N] ++ w5
         ++ js "}").
  { exact (skip_ws_app w1 34 _ Hw1 eq_refl). }
  rewrite Hrest. cbv iota. rewrite Hmem. reflexivity.
Qed.

(** X24: a completion in the format the system prompt asks for (an object
    with the string members [subject] and [body], any JSON white space
    between the tokens, no control character, quote or backslash inside
    the two strings) is parsed into exactly these two fields, and the
    task pane shows a subject card unless the subject is empty and a body
    card unless the body is empty, the body as markup when it contains
    [<]; no error is reported. *)
Theorem well_formed_reply_is_displayed
    (prev : json) (w1 w2 w3 w4 w5 subject body : jsstring) :
  forallb is_json_ws (w1 ++ w2 ++ w3 ++ w4 ++ w5) = true ->
  forallb plainChar (subject ++ body) = true ->
  handleProcess prev (inl (reply w1 w2 w3 w4 w5 subject body))
  = (JObject [(js "subject", JString subject); (js "body", JString body)],
     Results
       (if str_eqb subject [] then None else Some (JString subject))
       (if str_eqb body [] then None
        else Some (JString body, includes body (js "<")))).
Proof.
  intros Hw Hp. unfold handleProcess.
  rewrite (reply_parses _ _ _ _ _ _ _ Hw Hp).
  unfold displayResults.
  change (getProp (JObject [(js "subject", JString subject);
                            (js "body", JString body)]) (js "subject"))
    with (Some (Some (JString subject))).
  change (getProp (JObject [(js "subject", JString subject);
                            (js "body", JString body)]) (js "body"))
    with (Some (Some (JString body))).
  cbn [truthy].
  destruct (str_eqb subject []), (str_eqb body []); reflexivity.
Qed.

Lemma well_formed_reply_is_displayed_witness :
  handleProcess JNull
    (inl (reply (nl ++ js "  ") (js " ") (nl ++ js "  ") (js " ") nl
            (js "Re: offer") (js "<p>Thanks!</p>")))
  = (JObject [(js "subject", JString (js "Re: offer"));
              (js "body", JString (js "<p>Thanks!</p>"))],
     Results (Some (JString (js "Re: offer")))
             (Some (JString (js "<p>Thanks!</p>"), true))).
Proof.
  apply (well_formed_reply_is_displayed JNull (nl ++ js "  ") (js " ")
           (nl ++ js "  ") (js " ") nl (js "Re: offer")
           (js "<p>Thanks!</p>")).
  - vm_compute. reflexivity.
  - vm_compute. reflexivity.
Defined.
